(** * multi_strategy_convert.py: text normalisation and record extraction

    A shallow embedding of the parsing logic of [multi_strategy_convert.py]
    ([clean_text], [preprocess_pypdf], [parse_card_block], [parse_full_text]
    and the three extraction strategies), together with the fragment of
    Python's [str] and [re] libraries that this code relies on.

    A Python [str] is a sequence of Unicode code points; it is modelled as a
    list of code points ([N]).  The regular expressions of the program are
    values of the type [regex]; they are run by a backtracking matcher that
    enumerates the matches at a position in the priority order of Python's
    [re] engine, so that the first one is the match that [re] reports. *)

From Stdlib Require Import List NArith Bool Arith Lia.
From Stdlib Require String Ascii.
Import ListNotations String.StringSyntax.
Delimit Scope string_scope with string.

(** ** Python strings *)

Definition char := N.
Definition str := list char.

Local Open Scope N_scope.

(** Decoding of the UTF-8 bytes of a literal of this file into code points. *)
Fixpoint utf8 (s : String.string) : str :=
  match s with
  | String.EmptyString => []
  | String.String a s1 =>
    let b0 := Ascii.N_of_ascii a in
    if (b0 <? 128)%N then b0 :: utf8 s1
    else match s1 with
    | String.EmptyString => [b0]
    | String.String b s2 =>
      let b1 := (Ascii.N_of_ascii b - 128)%N in
      if (b0 <? 224)%N then ((b0 - 192) * 64 + b1)%N :: utf8 s2
      else match s2 with
      | String.EmptyString => [b0]
      | String.String c s3 =>
        let b2 := (Ascii.N_of_ascii c - 128)%N in
        if (b0 <? 240)%N then ((b0 - 224) * 4096 + b1 * 64 + b2)%N :: utf8 s3
        else match s3 with
        | String.EmptyString => [b0]
        | String.String d s4 =>
          let b3 := (Ascii.N_of_ascii d - 128)%N in
          ((b0 - 240) * 262144 + b1 * 4096 + b2 * 64 + b3)%N :: utf8 s4
        end
      end
    end
  end.

Arguments utf8 s%_string.

Definition nl : char := 10%N.

Definition in_range (lo hi c : char) : bool := ((lo <=? c) && (c <=? hi))%N.

(** [str.isspace] on one code point, which is also the class [\s] of a
    [str] pattern (both are CPython's [Py_UNICODE_ISSPACE]). *)
Definition isspace (c : char) : bool :=
  in_range 9 13 c || in_range 28 32 c || (c =? 133)%N || (c =? 160)%N
  || (c =? 5760)%N || in_range 8192 8202 c || in_range 8232 8233 c
  || (c =? 8239)%N || (c =? 8287)%N || (c =? 12288)%N.

(** The decimal digits (Unicode category Nd, Unicode 14.0.0 as shipped with
    CPython 3.11): the class [\d] of a [str] pattern.  Each entry is the
    first code point of a run; all runs have ten digits except the
    mathematical digits U+1D7CE..U+1D7FF. *)
Definition decimal_runs : list char :=
  [48; 1632; 1776; 1984; 2406; 2534; 2662; 2790; 2918; 3046; 3174; 3302;
   3430; 3558; 3664; 3792; 3872; 4160; 4240; 6112; 6160; 6470; 6608; 6784;
   6800; 6992; 7088; 7232; 7248; 42528; 43216; 43264; 43472; 43504; 43600;
   44016; 65296; 66720; 68912; 69734; 69872; 69942; 70096; 70384; 70736;
   70864; 71248; 71360; 71472; 71904; 72016; 72784; 73040; 73120; 92768;
   92864; 93008; 123200; 123632; 125264; 130032].

Definition isdecimal (c : char) : bool :=
  existsb (fun lo => in_range lo (lo + 9) c) decimal_runs
  || in_range 120782 120831 c.

Local Close Scope N_scope.

(** [s.strip()], [s.lstrip()], [s.rstrip()] with no argument. *)
Fixpoint lstrip (s : str) : str :=
  match s with
  | c :: s' => if isspace c then lstrip s' else s
  | [] => []
  end.

Definition rstrip (s : str) : str := rev (lstrip (rev s)).

Definition strip (s : str) : str := rstrip (lstrip s).

(** [s.split('\n')]: the result is never empty. *)
Fixpoint split_nl (s : str) : list str :=
  match s with
  | [] => [[]]
  | c :: s' =>
    if (c =? nl)%N then [] :: split_nl s'
    else match split_nl s' with
         | l :: ls => (c :: l) :: ls
         | [] => [[c]]
         end
  end.

(** ["\n".join(lines)] *)
Fixpoint join_nl (lines : list str) : str :=
  match lines with
  | [] => []
  | [l] => l
  | l :: ls => l ++ nl :: join_nl ls
  end.

Fixpoint startswith (p s : str) : bool :=
  match p, s with
  | [], _ => true
  | a :: p', b :: s' => (a =? b)%N && startswith p' s'
  | _ :: _, [] => false
  end.

(** [needle in hay] *)
Fixpoint contains (needle hay : str) : bool :=
  startswith needle hay ||
  match hay with
  | [] => false
  | _ :: hay' => contains needle hay'
  end.

(** [s.split(sep)[0]] for a non-empty [sep]: what precedes the first
    occurrence of [sep], or all of [s] when there is none. *)
Fixpoint before_first (sep s : str) : str :=
  match s with
  | [] => []
  | c :: s' => if startswith sep s then [] else c :: before_first sep s'
  end.

Definition nonempty (s : str) : bool :=
  match s with [] => false | _ :: _ => true end.

(** ** Python regular expressions *)

(** The constructs that occur in the patterns of the program. *)
Inductive regex : Type :=
| Eps                                         (* the empty pattern *)
| Lit (c : char)                              (* a literal character *)
| Cls (p : char -> bool)                      (* a class: \s \d [..] [^..] . *)
| Seq (r1 r2 : regex)                         (* r1r2 *)
| Alt (r1 r2 : regex)                         (* r1|r2 *)
| Rep (greedy : bool) (lo : nat) (r : regex)  (* r{lo,}  and  r{lo,}? *)
| Grp (n : nat) (r : regex)                   (* the n-th capturing group *)
| Bos                                         (* ^ (no MULTILINE) *)
| Eos                                         (* $ (no MULTILINE) *)
| NotAfter (c : char).                        (* (?<!c) *)

Definition star (r : regex) : regex := Rep true 0 r.      (* r* *)
Definition plus (r : regex) : regex := Rep true 1 r.      (* r+ *)
Definition lazy_star (r : regex) : regex := Rep false 0 r. (* r*? *)

Fixpoint seqs (rs : list regex) : regex :=
  match rs with
  | [] => Eps
  | [r] => r
  | r :: rs' => Seq r (seqs rs')
  end.

Fixpoint alts (r : regex) (rs : list regex) : regex :=
  match rs with
  | [] => r
  | r' :: rs' => Alt r (alts r' rs')
  end.

Definition lits (s : str) : regex := seqs (map Lit s).

(** A position in the subject: the character just before it (none at the
    start of the string) and the characters from it on. *)
Record cursor : Type := Cursor { before : option char; rest : str }.

(** The groups captured so far, most recent first. *)
Definition caps : Type := list (nat * str).

Fixpoint group (n : nat) (cs : caps) : option str :=
  match cs with
  | [] => None
  | (k, v) :: cs' => if Nat.eqb k n then Some v else group n cs'
  end.

(** The text between a position and a later one. *)
Definition taken (c0 c1 : cursor) : str :=
  firstn (length (rest c0) - length (rest c1)) (rest c0).

Definition advance (cur : cursor) (ok : char -> bool) : list cursor :=
  match rest cur with
  | x :: xs => if ok x then [Cursor (Some x) xs] else []
  | [] => []
  end.

(** A repetition [body{lo,}] at [cur], [count] iterations done: the body
    runs again only after an iteration that consumed something (no repeated
    pattern of the program can match the empty string), so that [fuel]
    above the number of remaining characters is never exhausted.  A greedy
    repetition tries one more iteration first, a lazy one tries to stop
    first. *)
Fixpoint iter (body : cursor -> caps -> list (cursor * caps))
         (greedy : bool) (lo fuel count : nat) (cur : cursor) (cs : caps)
  : list (cursor * caps) :=
  match fuel with
  | O => []
  | S fuel' =>
    let more :=
      flat_map (fun m =>
                  if length (rest (fst m)) <? length (rest cur)
                  then iter body greedy lo fuel' (S count) (fst m) (snd m)
                  else [])
               (body cur cs) in
    let stop := if lo <=? count then [(cur, cs)] else [] in
    if greedy then more ++ stop else stop ++ more
  end.

(** All the ways for [r] to match at [cur], in the order in which the
    backtracking engine tries them: the left alternative first, a greedy
    repetition longest first, a lazy one shortest first. *)
Fixpoint run (r : regex) (cur : cursor) (cs : caps) : list (cursor * caps) :=
  match r with
  | Eps => [(cur, cs)]
  | Lit c => map (fun c1 => (c1, cs)) (advance cur (N.eqb c))
  | Cls p => map (fun c1 => (c1, cs)) (advance cur p)
  | Seq r1 r2 => flat_map (fun m => run r2 (fst m) (snd m)) (run r1 cur cs)
  | Alt r1 r2 => run r1 cur cs ++ run r2 cur cs
  | Rep greedy lo r1 => iter (run r1) greedy lo (S (length (rest cur))) O cur cs
  | Grp n r1 =>
    map (fun m => (fst m, (n, taken cur (fst m)) :: snd m)) (run r1 cur cs)
  | Bos => match before cur with None => [(cur, cs)] | Some _ => [] end
  | Eos => match rest cur with
           | [] => [(cur, cs)]
           | [c] => if (c =? nl)%N then [(cur, cs)] else []
           | _ :: _ :: _ => []
           end
  | NotAfter c => match before cur with
                  | Some x => if (x =? c)%N then [] else [(cur, cs)]
                  | None => [(cur, cs)]
                  end
  end.

(** A match object: the text skipped before the match, the matched text
    ([group(0)]), the captured groups and the position after the match. *)
Record mobj : Type :=
  Mobj { m_pre : str; m_text : str; m_caps : caps; m_end : cursor }.

(** [m.group(n)] for a group that took part in the match. *)
Definition group_text (n : nat) (m : mobj) : str :=
  match group n (m_caps m) with Some v => v | None => [] end.

(** One attempt at [cur]: the first match in priority order; with
    [must_advance], the first one that is not empty. *)
Definition attempt (r : regex) (must_advance : bool) (cur : cursor) : option mobj :=
  match find (fun m => negb must_advance
                       || (length (rest (fst m)) <? length (rest cur)))
             (run r cur []) with
  | Some m => Some (Mobj [] (taken cur (fst m)) (snd m) (fst m))
  | None => None
  end.

(** [re.match(r, s)] *)
Definition re_match (r : regex) (s : str) : option mobj :=
  attempt r false (Cursor None s).

(** The leftmost match at or after a position; [must_advance] only
    constrains the attempt at the first position. *)
Fixpoint scan (r : regex) (must_advance : bool) (b : option char) (s : str)
  : option mobj :=
  match attempt r must_advance (Cursor b s) with
  | Some m => Some m
  | None =>
    match s with
    | [] => None
    | x :: s' =>
      match scan r false (Some x) s' with
      | Some m => Some (Mobj (x :: m_pre m) (m_text m) (m_caps m) (m_end m))
      | None => None
      end
    end
  end.

(** [re.search(r, s)] *)
Definition re_search (r : regex) (s : str) : option mobj := scan r false None s.

(** A replacement template: literal text and group references. *)
Inductive titem : Type := TLit (s : str) | TRef (n : nat).

Definition expand (tpl : list titem) (m : mobj) : str :=
  flat_map (fun t => match t with TLit s => s | TRef n => group_text n m end) tpl.

Definition is_empty (s : str) : bool := negb (nonempty s).

(** The loop of [re.sub]: the text between matches is copied, each match
    is replaced by the expanded template, and the search resumes where the
    match ended (after an empty match the next one must advance). *)
Fixpoint sub_loop (fuel : nat) (r : regex) (tpl : list titem)
         (must_advance : bool) (b : option char) (s : str) : str :=
  match fuel with
  | O => s
  | S fuel' =>
    match scan r must_advance b s with
    | None => s
    | Some m =>
      m_pre m ++ expand tpl m ++
      sub_loop fuel' r tpl (is_empty (m_text m))
               (before (m_end m)) (rest (m_end m))
    end
  end.

(** [re.sub(r, tpl, s)] *)
Definition re_sub (r : regex) (tpl : list titem) (s : str) : str :=
  sub_loop (2 * length s + 2) r tpl false None s.

(** The loop of [re.split] for a pattern with [groups] capturing groups:
    the text before each match, then the groups of the match, and at the
    end the text after the last match. *)
Fixpoint split_loop (fuel : nat) (r : regex) (groups : nat)
         (must_advance : bool) (b : option char) (s : str) : list str :=
  match fuel with
  | O => [s]
  | S fuel' =>
    match scan r must_advance b s with
    | None => [s]
    | Some m =>
      m_pre m :: map (fun n => group_text n m) (seq 1 groups) ++
      split_loop fuel' r groups (is_empty (m_text m))
                 (before (m_end m)) (rest (m_end m))
    end
  end.

(** [re.split(r, s)] *)
Definition re_split (r : regex) (groups : nat) (s : str) : list str :=
  split_loop (2 * length s + 2) r groups false None s.

(** ** The parsing logic: [clean_text] *)

Definition ws : regex := Cls isspace.                          (* \s *)
Definition digit : regex := Cls isdecimal.                     (* \d *)
Definition any : regex := Cls (fun _ => true).                 (* . with DOTALL *)
Definition not_nl : regex := Cls (fun c => negb (c =? nl)%N).  (* [^\n] *)

Definition one_of (s : str) (c : char) : bool := existsb (N.eqb c) s.

(** The rating alphabet of the value rows. *)
Definition rating : char -> bool := one_of (utf8 "상중하").

Definition table_head_spaced : str := utf8 "사랑 돈 사업".
Definition table_head_second : str := utf8 "승진 취업 매매".
Definition table_head_clumped : str := utf8 "사랑돈사업".

(** [^\s*[상중하](\s+[상중하])+\s*$] *)
Definition re_value_row : regex :=
  seqs [Bos; star ws; Cls rating;
        plus (Grp 1 (seqs [plus ws; Cls rating])); star ws; Eos].

(** [^[상중하]{5,}$] *)
Definition re_value_clump : regex := seqs [Bos; Rep true 5 (Cls rating); Eos].

Definition matches (r : regex) (s : str) : bool :=
  match re_match r s with Some _ => true | None => false end.

(** [(\s+[상중하])], the repeated group of [re_value_row]. *)
Definition chunk_re : regex := Grp 1 (seqs [plus ws; Cls rating]).

(** The test of the loop body of [clean_text]: the line is skipped. *)
Definition dropped (line : str) : bool :=
  (contains table_head_spaced line || contains table_head_second line)
  || contains table_head_clumped line
  || matches re_value_row line
  || matches re_value_clump (strip line).

Definition clean_text (text : str) : str :=
  if is_empty text then []
  else
    let lines := split_nl text in
    let cleaned_lines := filter (fun line => negb (dropped line)) lines in
    strip (join_nl cleaned_lines).

(** ** [preprocess_pypdf] *)

(** The template [\n\1]. *)
Definition newline_then_group : list titem := [TLit [nl]; TRef 1].

(** [(?<!\n)(\d+\.\s+(?:\d+|Ace|...|검)\s+)] *)
Definition re_lost_header : regex :=
  seqs [NotAfter nl;
        Grp 1 (seqs [plus digit; Lit 46%N; plus ws;
                     alts (plus digit)
                          (map (fun w => lits (utf8 w))
                               ["Ace"; "Two"; "Three"; "Four"; "Five"; "Six";
                                "Seven"; "Eight"; "Nine"; "Ten"; "Page";
                                "Knight"; "Queen"; "King"; "컵"; "지팡이";
                                "동전"; "검"]%string);
                     plus ws])].

(** [n\)\s*label], the start of a section. *)
Definition section_start (n label : String.string) : regex :=
  seqs [lits (utf8 n); Lit 41%N; star ws; lits (utf8 label)].

Arguments section_start (n label)%_string.

(** [(?<!\n)(n\)\s*label)] *)
Definition re_lost_section (n label : String.string) : regex :=
  seqs [NotAfter nl; Grp 1 (section_start n label)].

Arguments re_lost_section (n label)%_string.

Definition preprocess_pypdf (text : str) : str :=
  let text := re_sub re_lost_header newline_then_group text in
  let text := re_sub (re_lost_section "1" "키워드") newline_then_group text in
  let text := re_sub (re_lost_section "2" "회화적") newline_then_group text in
  let text := re_sub (re_lost_section "3" "실전") newline_then_group text in
  let text := re_sub (re_lost_section "4" "상담") newline_then_group text in
  text.

(** ** [parse_card_block] *)

Record card : Type :=
  Card { card_name : str; meaning_up : str; meaning_down : str;
         keywords : list str }.

(** The literal ["1) 키워드"]. *)
Definition first_marker : str := utf8 "1) 키워드".

(** [^\d+\.\s+] *)
Definition re_number_prefix : regex := seqs [Bos; plus digit; Lit 46%N; plus ws].

(** [1\)\s*키워드(.*?)(?:2\)\s*회화적|3\)\s*실전|4\)\s*상담|$)] *)
Definition re_keywords : regex :=
  seqs [section_start "1" "키워드"; Grp 1 (lazy_star any);
        alts (section_start "2" "회화적")
             [section_start "3" "실전"; section_start "4" "상담"; Eos]].

(** [2\)\s*회화적\s*설명(.*?)(?:3\)\s*실전|4\)\s*상담|$)] *)
Definition re_desc : regex :=
  seqs [section_start "2" "회화적"; star ws; lits (utf8 "설명");
        Grp 1 (lazy_star any);
        alts (section_start "3" "실전") [section_start "4" "상담"; Eos]].

(** [3\)\s*실전\s*상담(.*?)(?:4\)\s*상담|$)] *)
Definition re_practical : regex :=
  seqs [section_start "3" "실전"; star ws; lits (utf8 "상담");
        Grp 1 (lazy_star any); alts (section_start "4" "상담") [Eos]].

(** [4\)\s*상담\s*TIP(.*?)(?:$)] *)
Definition re_tip : regex :=
  seqs [section_start "4" "상담"; star ws; lits (utf8 "TIP");
        Grp 1 (lazy_star any); Eos].

(** [[,.\n]] *)
Definition re_keyword_sep : regex := Cls (one_of [44; 46; nl]%N).

(** [m.group(1) if m else ""] *)
Definition group1_or_empty (m : option mobj) : str :=
  match m with Some m => group_text 1 m | None => [] end.

Definition block_card_name (block : str) : str :=
  let lines := split_nl (strip block) in
  let raw_header := strip (hd [] lines) in
  let card_name := re_sub re_number_prefix [] raw_header in
  if contains first_marker card_name
  then strip (before_first first_marker card_name)
  else card_name.

(** The body of the loop over [raw_keywords], up to the test [if k]. *)
Definition keyword_of (k : str) : str :=
  let k := strip k in
  if startswith [45%N] k then strip (tl k) else k.

Definition block_keywords (block : str) : list str :=
  let keywords_text := group1_or_empty (re_search re_keywords block) in
  let keywords_text := clean_text keywords_text in
  if nonempty keywords_text
  then filter nonempty (map keyword_of (re_split re_keyword_sep 0 keywords_text))
  else [].

Definition searched_section (r : regex) (block : str) : str :=
  match re_search r block with
  | Some m => clean_text (group_text 1 m)
  | None => []
  end.

Definition block_meaning_up (block : str) : str :=
  let desc_text := searched_section re_desc block in
  let practical_text := searched_section re_practical block in
  let meaning_up := [] in
  let meaning_up :=
    if nonempty desc_text
    then meaning_up ++ utf8 "[회화적 설명]" ++ [nl] ++ desc_text ++ [nl; nl]
    else meaning_up in
  let meaning_up :=
    if nonempty practical_text
    then meaning_up ++ utf8 "[실전 상담]" ++ [nl] ++ practical_text
    else meaning_up in
  strip meaning_up.

Definition block_meaning_down (block : str) : str := searched_section re_tip block.

Definition parse_card_block (block : str) : option card :=
  match split_nl (strip block) with
  | [] => None
  | _ :: _ =>
    let card_name := block_card_name block in
    let keywords_list := block_keywords block in
    let meaning_up := block_meaning_up block in
    let meaning_down := block_meaning_down block in
    if is_empty meaning_up && is_empty meaning_down
       && match keywords_list with [] => true | _ :: _ => false end
    then None
    else Some (Card card_name meaning_up meaning_down keywords_list)
  end.

(** ** [parse_full_text] *)

(** [\n(\s*\d+\.\s+[^\n]+)] *)
Definition re_header : regex :=
  seqs [Lit nl; Grp 1 (seqs [star ws; plus digit; Lit 46%N; plus ws; plus not_nl])].

(** The loop [for i in range(1, len(parts), 2)] over [parts[1:]], before
    the filter: [parts[i].strip() + "\n" + parts[i+1]]. *)
Fixpoint full_blocks (parts : list str) : list str :=
  match parts with
  | [] => []
  | [header] => [strip header ++ [nl]]
  | header :: content :: parts' =>
    (strip header ++ [nl] ++ content) :: full_blocks parts'
  end.

(** The candidate blocks of a document text. *)
Definition candidates (text : str) : list str :=
  full_blocks (tl (re_split re_header 1 (nl :: text))).

(** The blocks that pass the filter. *)
Definition segment (text : str) : list str :=
  filter (contains first_marker) (candidates text).

Definition parse_full_text (text : str) : list card :=
  flat_map (fun block => match parse_card_block block with
                         | Some card_data => [card_data]
                         | None => []
                         end)
           (segment text).

(** ** The strategies *)

(** What reading one page gives: an exception, or the page's text
    ([None] for a page without text). *)
Inductive page_read : Type := ReadError | ReadText (text : option str).

(** The loop over the pages: [full_text] grows by each non-empty text,
    repaired, and a newline; an exception ends the loop. *)
Fixpoint read_pages (repair : str -> str) (pages : list page_read)
         (full_text : str) : option str :=
  match pages with
  | [] => Some full_text
  | ReadError :: _ => None
  | ReadText None :: pages' => read_pages repair pages' full_text
  | ReadText (Some text) :: pages' =>
    if nonempty text
    then read_pages repair pages' (full_text ++ repair text ++ [nl])
    else read_pages repair pages' full_text
  end.

Definition strategy (repair : str -> str) (pages : list page_read) : list card :=
  match read_pages repair pages [] with
  | None => []
  | Some full_text => parse_full_text full_text
  end.

Definition strategy_pdfplumber : list page_read -> list card := strategy (fun t => t).
Definition strategy_pymupdf : list page_read -> list card := strategy (fun t => t).
Definition strategy_pypdf : list page_read -> list card := strategy preprocess_pypdf.

(** * Vocabulary of the statements *)

(** ** What the patterns denote *)

(** [k] iterations of a repeated pattern, each consuming something. *)
Inductive chain (R : cursor -> cursor -> Prop) : nat -> cursor -> cursor -> Prop :=
| chain_stop : forall c, chain R 0 c c
| chain_more : forall k c c1 c2,
    R c c1 -> length (rest c1) < length (rest c) -> chain R k c1 c2 ->
    chain R (S k) c c2.

(** What a pattern denotes, priorities aside: [r] can match from the
    position [c] up to the position [c']. *)
Fixpoint reaches (r : regex) (c c' : cursor) : Prop :=
  match r with
  | Eps => c' = c
  | Lit x => exists s, rest c = x :: s /\ c' = Cursor (Some x) s
  | Cls p => exists x s, rest c = x :: s /\ p x = true /\ c' = Cursor (Some x) s
  | Seq r1 r2 => exists c1, reaches r1 c c1 /\ reaches r2 c1 c'
  | Alt r1 r2 => reaches r1 c c' \/ reaches r2 c c'
  | Rep _ lo r1 => exists k, lo <= k /\ chain (reaches r1) k c c'
  | Grp _ r1 => reaches r1 c c'
  | Bos => before c = None /\ c' = c
  | Eos => (rest c = [] \/ rest c = [nl]) /\ c' = c
  | NotAfter x => before c <> Some x /\ c' = c
  end.

(** The match that the engine tries first. *)
Definition first_match (r : regex) (c : cursor) (cs : caps) (m : cursor * caps) : Prop :=
  exists others, run r c cs = m :: others.

(** The character before a position reached by reading [w]. *)
Definition move (b : option char) (w : str) : option char :=
  fold_left (fun _ x => Some x) w b.

(** ** Texts and lines *)

(** A text of whitespace only. *)
Definition blank (s : str) : bool := forallb isspace s.

(** A text without a newline: a line. *)
Definition no_nl (s : str) : bool := forallb (fun c => negb (c =? nl)%N) s.

(** A text without its newline characters. *)
Definition remove_nl (s : str) : str := filter (fun c => negb (c =? nl)%N) s.

(** The text of some lines, a newline in front of each. *)
Definition newline_each (lines : list str) : str :=
  flat_map (fun l => nl :: l) lines.

(** What follows a line: nothing, or a newline. *)
Definition line_end (s : str) : bool :=
  match s with [] => true | c :: _ => (c =? nl)%N end.

(** ** The rows of ratings *)

(** Rating symbols, each with the whitespace in front of it. *)
Definition spaced_symbols (chunks : list (str * char)) : str :=
  flat_map (fun wc => fst wc ++ [snd wc]) chunks.

Definition spaced_symbol (wc : str * char) : Prop :=
  fst wc <> [] /\ blank (fst wc) = true /\ rating (snd wc) = true.

(** A trimmed line of single rating symbols separated by whitespace, at
    least two of them. *)
Definition spaced_row (t : str) : Prop :=
  exists t0 chunks,
    t = t0 :: spaced_symbols chunks /\ rating t0 = true
    /\ chunks <> [] /\ Forall spaced_symbol chunks.

(** A trimmed line of five rating symbols or more and nothing else. *)
Definition clumped_row (t : str) : Prop :=
  5 <= length t /\ forallb rating t = true.

(** The rating rows of the specification, read on the trimmed line. *)
Definition rating_row (line : str) : Prop :=
  spaced_row (strip line) \/ clumped_row (strip line).

(** The same row with the whitespace around it: whitespace, a symbol,
    spaced symbols, whitespace. *)
Definition value_row_shape (line : str) : Prop :=
  exists w0 t0 chunks w1,
    line = w0 ++ t0 :: spaced_symbols chunks ++ w1
    /\ blank w0 = true /\ rating t0 = true
    /\ chunks <> [] /\ Forall spaced_symbol chunks /\ blank w1 = true.

(** A text of whitespace and rating symbols only. *)
Definition symbolic (s : str) : bool := forallb (fun c => isspace c || rating c) s.

(** A line with a table heading in it (the other rule of [clean_text]). *)
Definition has_table_head (line : str) : bool :=
  contains table_head_spaced line || contains table_head_second line
  || contains table_head_clumped line.

(** A line with more than rating symbols and whitespace: some character
    is neither. *)
Definition wordy (line : str) : bool :=
  existsb (fun c => negb (isspace c) && negb (rating c)) line.

(** Prose: a wordy line in which no table heading occurs. *)
Definition prose (line : str) : bool := wordy line && negb (has_table_head line).

(** The lines that [clean_text] keeps. *)
Definition kept (lines : list str) : list str :=
  filter (fun line => negb (dropped line)) lines.

(** ** Keywords *)

(** A text without comma, period or newline. *)
Definition sepfree (k : str) : bool :=
  forallb (fun c => negb (one_of [44; 46; nl]%N c)) k.

(** A keyword as the loop of [parse_card_block] leaves it: not empty,
    no whitespace at either end, no separator inside. *)
Definition clean_keyword (k : str) : bool :=
  nonempty k && negb (isspace (hd nl k)) && negb (isspace (last k nl))
  && sepfree k.

(** ** Pages *)

(** The texts of the pages that the strategies keep: neither null nor
    empty. *)
Definition kept_pages (pages : list (option str)) : list str :=
  flat_map (fun p => match p with
                     | Some text => if nonempty text then [text] else []
                     | None => []
                     end) pages.

(** The document text of a strategy: every kept page, repaired, and a
    newline after it. *)
Definition document_text (repair : str -> str) (pages : list (option str)) : str :=
  flat_map (fun text => repair text ++ [nl]) (kept_pages pages).

(** ** Documents, line by line *)

(** A header line: indentation, a numeric index, a period, whitespace,
    an entity label. *)
Record header : Type :=
  Header { h_indent : str; h_number : str; h_gap : str; h_label : str }.

Definition header_line (h : header) : str :=
  h_indent h ++ h_number h ++ 46%N :: h_gap h ++ h_label h.

(** The header is on one line; the index is made of digits, the label
    starts with something else than whitespace. *)
Definition well_formed_header (h : header) : bool :=
  blank (h_indent h) && no_nl (h_indent h)
  && nonempty (h_number h) && forallb isdecimal (h_number h)
  && nonempty (h_gap h) && blank (h_gap h) && no_nl (h_gap h)
  && match h_label h with c :: _ => negb (isspace c) | [] => false end
  && no_nl (h_label h).

Fixpoint drop_digits (s : str) : str :=
  match s with
  | c :: s' => if isdecimal c then drop_digits s' else s
  | [] => []
  end.

(** A numbered line: optional whitespace, digits, a period, and then
    whitespace or the end of the line.  Such a line is a header line when
    a label follows the whitespace, and a number without label when
    nothing does. *)
Definition numbered (l : str) : bool :=
  let l1 := lstrip l in
  let l2 := drop_digits l1 in
  (length l2 <? length l1)
  && match l2 with
     | [] => false
     | c :: l3 => (c =? 46)%N && match l3 with [] => true | c' :: _ => isspace c' end
     end.

(** A line that is not numbered. *)
Definition plain (l : str) : bool := no_nl l && negb (numbered l).

(** An entity of a document: its header and the lines that follow, up to
    the next header. *)
Record entity : Type := Entity { e_header : header; e_body : list str }.

Definition well_formed (e : entity) : bool :=
  well_formed_header (e_header e) && forallb plain (e_body e).

Definition entity_lines (e : entity) : list str :=
  header_line (e_header e) :: e_body e.

(** The lines of a document: a preamble, then the entities. *)
Definition document_lines (preamble : list str) (ents : list entity) : list str :=
  preamble ++ flat_map entity_lines ents.

Definition document (preamble : list str) (ents : list entity) : str :=
  join_nl (document_lines preamble ents).

(** The first section marker follows the header before the next one. *)
Definition has_marker (e : entity) : bool :=
  existsb (contains first_marker) (entity_lines e).

(** The block starts with the header line (trimmed) of the entity. *)
Definition starts_with_header (e : entity) (block : str) : Prop :=
  exists content, block = strip (header_line (e_header e)) ++ nl :: content.

(** The candidate block of an entity: it starts with the header line, and
    it holds the marker exactly when the entity does. *)
Definition block_matches (e : entity) (block : str) : Prop :=
  starts_with_header e block /\ contains first_marker block = has_marker e.

(** ** Examples *)

(** The example block of the specification, with its section labels. *)
Definition example_block : str :=
  join_nl (map utf8 ["1. Entity A"; "1) 키워드"; "- kw1, kw2"; "2) 회화적 설명";
                     "text-b"; "4) 상담 TIP"; "tip-d"]%string).

(** Two entities with their first section, and an appendix heading
    without one. *)
Definition entity_A : entity :=
  Entity (Header [] (utf8 "1") (utf8 " ") (utf8 "A")) [utf8 "1) 키워드"; utf8 "- x"].

Definition entity_B : entity :=
  Entity (Header [] (utf8 "2") (utf8 " ") (utf8 "B")) [utf8 "1) 키워드"; utf8 "- y"].

Definition appendix : entity :=
  Entity (Header [] (utf8 "12") (utf8 " ") (utf8 "Appendix")) [utf8 "see above"].

(** ** Further notions *)

(** [a] is [b] with some elements deleted. *)
Inductive subseq {A : Type} : list A -> list A -> Prop :=
| subseq_nil : subseq [] []
| subseq_skip : forall x a b, subseq a b -> subseq a (x :: b)
| subseq_keep : forall x a b, subseq a b -> subseq (x :: a) (x :: b).

(** A text without whitespace at either end. *)
Definition trimmed (s : str) : Prop := strip s = s.

(** The name that [parse_card_block] reads off a header: the trimmed
    label, cut before the first section marker when it holds one. *)
Definition expected_name (h : header) : str :=
  let label := strip (h_label h) in
  if contains first_marker label
  then strip (before_first first_marker label)
  else label.

(** What every emitted record satisfies. *)
Definition record_ok (r : card) : Prop :=
  (keywords r <> [] \/ meaning_up r <> [] \/ meaning_down r <> [])
  /\ Forall (fun k => clean_keyword k = true) (keywords r)
  /\ trimmed (card_name r) /\ trimmed (meaning_up r) /\ trimmed (meaning_down r)
  /\ no_nl (card_name r) = true
  /\ contains first_marker (card_name r) = false.

(** The labels that open the two parts of [meaning_up]. *)
Definition desc_label : str := utf8 "[회화적 설명]".
Definition practical_label : str := utf8 "[실전 상담]".

(** None of the patterns of [preprocess_pypdf] occurs in the text (away
    from the start of a line). *)
Definition nothing_to_repair (text : str) : Prop :=
  re_search re_lost_header text = None
  /\ re_search (re_lost_section "1" "키워드") text = None
  /\ re_search (re_lost_section "2" "회화적") text = None
  /\ re_search (re_lost_section "3" "실전") text = None
  /\ re_search (re_lost_section "4" "상담") text = None.

(** The substitutions of [preprocess_pypdf], one after the other. *)
Definition repairs : list regex :=
  [re_lost_header; re_lost_section "1" "키워드"; re_lost_section "2" "회화적";
   re_lost_section "3" "실전"; re_lost_section "4" "상담"].

Definition apply_repairs (rs : list regex) (text : str) : str :=
  fold_left (fun t r => re_sub r newline_then_group t) rs text.

(** A pattern [(?<!\n)(r0)]. *)
Definition lost_shape (r : regex) : Prop :=
  exists r0, r = Seq (NotAfter nl) (Grp 1 r0).

(** A block that starts with an index and a period. *)
Definition numbered_block (b : str) : Prop :=
  exists d t, b = d ++ 46%N :: t /\ d <> [] /\ forallb isdecimal d = true.

(** The names of the records, in order. *)
Definition names (rs : list card) : list str := map card_name rs.

(** [v] is a contiguous part of [s]. *)
Definition part_of (v s : str) : Prop := exists p q, s = p ++ v ++ q.

(** Every captured text is a part of [s]. *)
Definition captured_in (s : str) (cs : caps) : Prop :=
  forall n v, In (n, v) cs -> part_of v s.

(** The position [c] is inside [s]. *)
Definition position_in (s : str) (c : cursor) : Prop := exists w, s = w ++ rest c.

(** ** Section starts and lines *)

(** [(?<!\n)(a\)\s*word)] for a one-character section number [a]. *)
Definition lost (a : char) (word : str) : regex :=
  Seq (NotAfter nl)
      (Grp 1 (Seq (Lit a) (Seq (Lit 41%N) (Seq (star ws) (lits word))))).

(** The character before the position is a newline. *)
Definition is_nl (b : option char) : bool :=
  match b with Some c => (c =? nl)%N | None => false end.

(** The text starts with a section start: the number [a], a closing
    parenthesis, optional whitespace and the word. *)
Definition starts_section (a : char) (word s : str) : bool :=
  match s with
  | x :: y :: t => (x =? a)%N && (y =? 41)%N && startswith word (lstrip t)
  | _ => false
  end.

(** The text with a newline in front of every section start that does not
    follow one; [b] is the character before the text. *)
Fixpoint insert_nl (a : char) (word : str) (b : option char) (s : str) : str :=
  match s with
  | [] => []
  | x :: s' =>
    (if starts_section a word s && negb (is_nl b) then [nl] else [])
      ++ x :: insert_nl a word (Some x) s'
  end.

(** Every section start of the text follows a newline. *)
Fixpoint settled (a : char) (word : str) (b : option char) (s : str) : bool :=
  match s with
  | [] => true
  | x :: s' =>
    (negb (starts_section a word s) || is_nl b) && settled a word (Some x) s'
  end.

(** The same, on the places of the text: whatever stands before a section
    start ends with a newline. *)
Definition starts_lines (a : char) (word t : str) : Prop :=
  forall p w q,
    t = p ++ a :: 41%N :: w ++ word ++ q -> blank w = true ->
    exists p', p = p' ++ [nl].

(** A section number: neither whitespace nor the parenthesis. *)
Definition section_digit (a : char) : bool :=
  negb (a =? 41)%N && negb (isspace a).

(** A word that may follow the number [a]: it starts with something else
    than whitespace and holds neither [a] nor a newline. *)
Definition section_word (a : char) (word : str) : bool :=
  negb (isspace (hd nl word))
  && forallb (fun c => negb (c =? a)%N && negb (c =? nl)%N) word.

(** * Properties *)

(** ** Lists of lines *)

Lemma split_nl_not_nil (s : str) : split_nl s <> [].
Proof.
  destruct s as [|c s]; simpl; [discriminate|].
  destruct (c =? nl)%N; [discriminate|].
  destruct (split_nl s); discriminate.
Qed.

(** ** C1: a record is emitted exactly when some field has content *)

(** C1. [parse_card_block] returns [None] exactly when the extracted
    keywords, [meaning_up] and [meaning_down] are all empty; a record that
    it emits carries these three extracted values, and at least one of
    them is not empty. *)
Theorem parse_card_block_none_iff_no_content (block : str) :
  (parse_card_block block = None <->
   block_keywords block = [] /\ block_meaning_up block = []
   /\ block_meaning_down block = [])
  /\ match parse_card_block block with
     | None => True
     | Some r =>
       r = Card (block_card_name block) (block_meaning_up block)
                (block_meaning_down block) (block_keywords block)
       /\ (keywords r <> [] \/ meaning_up r <> [] \/ meaning_down r <> [])
     end.
Proof.
  unfold parse_card_block.
  destruct (split_nl (strip block)) as [|l0 ls] eqn:Hl.
  - exfalso. exact (split_nl_not_nil _ Hl).
  - destruct (block_meaning_up block) as [|a up];
      destruct (block_meaning_down block) as [|b down];
      destruct (block_keywords block) as [|k ks]; simpl.
    1: split; [split; auto|exact I].
    all: split; [split; [discriminate|intros (H1 & H2 & H3); discriminate]|].
    all: split; [reflexivity|simpl].
    1: left; discriminate.
    1,2: right; right; discriminate.
    all: right; left; discriminate.
Qed.

(** ** C3: the example block of the specification *)

(** C3. On the example block [parse_card_block] returns the record named
    "Entity A" with the keywords "kw1" and "kw2", a [meaning_up] that is
    the labelled section-2 block with "text-b", and [meaning_down] equal
    to "tip-d". *)
Theorem parse_card_block_example :
  parse_card_block example_block =
  Some (Card (utf8 "Entity A")
             (utf8 "[회화적 설명]" ++ [nl] ++ utf8 "text-b")
             (utf8 "tip-d")
             [utf8 "kw1"; utf8 "kw2"])
  /\ contains (utf8 "[회화적 설명]" ++ [nl] ++ utf8 "text-b")
              (block_meaning_up example_block) = true.
Proof. split; vm_compute; reflexivity. Qed.

(** ** The matcher and the denotation of the patterns *)

Section Repetition.
Variable body : cursor -> caps -> list (cursor * caps).
Variable R : cursor -> cursor -> Prop.
Variables (greedy : bool) (lo : nat).

Lemma iter_sound :
  (forall c cs c' cs', In (c', cs') (body c cs) -> R c c') ->
  forall fuel count c cs c' cs',
    In (c', cs') (iter body greedy lo fuel count c cs) ->
    exists k, lo <= count + k /\ chain R k c c'.
Proof.
  intros Hbody. induction fuel as [|fuel IH]; intros count c cs c' cs' Hin.
  - destruct Hin.
  - simpl in Hin.
    assert (Hcases :
      In (c', cs')
         (flat_map (fun m => if length (rest (fst m)) <? length (rest c)
                             then iter body greedy lo fuel (S count) (fst m) (snd m)
                             else []) (body c cs))
      \/ In (c', cs') (if lo <=? count then [(c, cs)] else [])).
    { destruct greedy; apply in_app_or in Hin; tauto. }
    clear Hin. destruct Hcases as [Hmore|Hstop].
    + apply in_flat_map in Hmore. destruct Hmore as ([c1 cs1] & Hb & Hin).
      simpl in Hin. destruct (Nat.ltb_spec (length (rest c1)) (length (rest c))) as [Hlt|Hge].
      * apply IH in Hin. destruct Hin as (k & Hk & Hch).
        exists (S k). split; [lia|]. econstructor; eauto.
      * destruct Hin.
    + destruct (Nat.leb_spec lo count) as [Hle|Hgt]; [|destruct Hstop].
      destruct Hstop as [Heq|[]]. inversion Heq; subst.
      exists 0. split; [lia|constructor].
Qed.

Lemma iter_complete :
  (forall c c', R c c' -> forall cs, exists cs', In (c', cs') (body c cs)) ->
  forall k c c', chain R k c c' ->
  forall fuel count cs, length (rest c) < fuel -> lo <= count + k ->
    exists cs', In (c', cs') (iter body greedy lo fuel count c cs).
Proof.
  intros Hbody k c c' Hch.
  induction Hch as [c|k c c1 c2 HR Hlt Hch IH]; intros fuel count cs Hfuel Hlo.
  - destruct fuel as [|fuel]; [lia|]. exists cs. simpl.
    assert (Hle : (lo <=? count) = true) by (apply Nat.leb_le; lia).
    rewrite Hle. destruct greedy; apply in_or_app; simpl; auto.
  - destruct fuel as [|fuel]; [lia|].
    destruct (Hbody _ _ HR cs) as (cs1 & Hin1).
    destruct (IH fuel (S count) cs1) as (cs2 & Hin2); [lia|lia|].
    exists cs2. simpl.
    assert (Hmore :
      In (c2, cs2)
         (flat_map (fun m => if length (rest (fst m)) <? length (rest c)
                             then iter body greedy lo fuel (S count) (fst m) (snd m)
                             else []) (body c cs))).
    { apply in_flat_map. exists (c1, cs1). split; [assumption|]. simpl.
      apply Nat.ltb_lt in Hlt. rewrite Hlt. assumption. }
    destruct greedy; apply in_or_app; auto.
Qed.
End Repetition.

Arguments iter : simpl never.

Lemma in_advance (cur c1 : cursor) (ok : char -> bool) :
  In c1 (advance cur ok) <->
  exists x s, rest cur = x :: s /\ ok x = true /\ c1 = Cursor (Some x) s.
Proof.
  unfold advance. destruct (rest cur) as [|x s].
  - split; [intros []|intros (x & s & H & _); discriminate].
  - destruct (ok x) eqn:Hok.
    + split.
      * intros [<-|[]]. eauto.
      * intros (x' & s' & H & _ & ->). inversion H; subst. left; reflexivity.
    + split; [intros []|].
      intros (x' & s' & H & Hok' & _). inversion H; subst. congruence.
Qed.

(** Every match that the matcher lists is a match of the pattern. *)
Lemma run_sound (r : regex) :
  forall c cs c' cs', In (c', cs') (run r c cs) -> reaches r c c'.
Proof.
  induction r as [|x|p|r1 IH1 r2 IH2|r1 IH1 r2 IH2|g lo r1 IH1|n r1 IH1| | |x];
    intros c cs c' cs' Hin; simpl in *.
  - destruct Hin as [H|[]]. inversion H; reflexivity.
  - apply in_map_iff in Hin. destruct Hin as (c1 & Heq & Hin). inversion Heq; subst.
    apply in_advance in Hin. destruct Hin as (y & s & Hr & Hy & ->).
    apply N.eqb_eq in Hy. subst. eauto.
  - apply in_map_iff in Hin. destruct Hin as (c1 & Heq & Hin). inversion Heq; subst.
    apply in_advance in Hin. destruct Hin as (y & s & Hr & Hy & ->). eauto.
  - apply in_flat_map in Hin. destruct Hin as ([c1 cs1] & H1 & H2). eauto.
  - apply in_app_or in Hin. destruct Hin; eauto.
  - apply iter_sound with (R := reaches r1) in Hin; [|exact IH1].
    destruct Hin as (k & Hk & Hch). eauto.
  - apply in_map_iff in Hin. destruct Hin as ([c1 cs1] & Heq & Hin).
    inversion Heq; subst. eauto.
  - destruct (before c) eqn:Hb; [destruct Hin|].
    destruct Hin as [H|[]]. inversion H; subst. auto.
  - destruct (rest c) as [|y [|z s]] eqn:Hr.
    + destruct Hin as [H|[]]. inversion H; subst. auto.
    + destruct (N.eqb_spec y nl); [|destruct Hin].
      destruct Hin as [H|[]]. inversion H; subst. auto.
    + destruct Hin.
  - destruct (before c) as [y|] eqn:Hb.
    + destruct (N.eqb_spec y x); [destruct Hin|].
      destruct Hin as [H|[]]. inversion H; subst. split; congruence.
    + destruct Hin as [H|[]]. inversion H; subst. split; congruence.
Qed.

(** Every match of the pattern is listed by the matcher. *)
Lemma run_complete (r : regex) :
  forall c c', reaches r c c' -> forall cs, exists cs', In (c', cs') (run r c cs).
Proof.
  induction r as [|x|p|r1 IH1 r2 IH2|r1 IH1 r2 IH2|g lo r1 IH1|n r1 IH1| | |x];
    intros c c' H cs; simpl in *.
  - subst. eauto.
  - destruct H as (s & Hr & ->). exists cs. apply in_map_iff.
    eexists; split; [reflexivity|]. apply in_advance.
    exists x, s. rewrite N.eqb_refl. auto.
  - destruct H as (x & s & Hr & Hp & ->). exists cs. apply in_map_iff.
    eexists; split; [reflexivity|]. apply in_advance. eauto.
  - destruct H as (c1 & H1 & H2).
    destruct (IH1 _ _ H1 cs) as (cs1 & Hin1).
    destruct (IH2 _ _ H2 cs1) as (cs2 & Hin2).
    exists cs2. apply in_flat_map. exists (c1, cs1). auto.
  - destruct H as [H|H].
    + destruct (IH1 _ _ H cs) as (cs1 & Hin). exists cs1. apply in_or_app; auto.
    + destruct (IH2 _ _ H cs) as (cs1 & Hin). exists cs1. apply in_or_app; auto.
  - destruct H as (k & Hk & Hch).
    eapply iter_complete with (R := reaches r1); eauto.
  - destruct (IH1 _ _ H cs) as (cs1 & Hin).
    eexists. apply in_map_iff. exists (c', cs1). split; [reflexivity|assumption].
  - destruct H as (Hb & ->). rewrite Hb. exists cs. left; reflexivity.
  - destruct H as ([Hr|Hr] & ->); rewrite Hr; exists cs.
    + left; reflexivity.
    + rewrite N.eqb_refl. left; reflexivity.
  - destruct H as (Hb & ->). exists cs. destruct (before c) as [y|].
    + destruct (N.eqb_spec y x); [congruence|left; reflexivity].
    + left; reflexivity.
Qed.

(** A match ends at a suffix of where it starts. *)
Lemma chain_rest (R : cursor -> cursor -> Prop) :
  (forall c c', R c c' -> exists w, rest c = w ++ rest c') ->
  forall k c c', chain R k c c' -> exists w, rest c = w ++ rest c'.
Proof.
  intros HR k c c' Hch. induction Hch as [c|k c c1 c2 H1 _ _ IH].
  - exists []. reflexivity.
  - destruct (HR _ _ H1) as (w1 & E1). destruct IH as (w2 & E2).
    exists (w1 ++ w2). rewrite E1, E2, app_assoc. reflexivity.
Qed.

Lemma reaches_rest (r : regex) :
  forall c c', reaches r c c' -> exists w, rest c = w ++ rest c'.
Proof.
  induction r as [|x|p|r1 IH1 r2 IH2|r1 IH1 r2 IH2|g lo r1 IH1|n r1 IH1| | |x];
    intros c c' H; simpl in H.
  - subst. exists []. reflexivity.
  - destruct H as (s & Hr & ->). exists [x]. rewrite Hr. reflexivity.
  - destruct H as (x & s & Hr & _ & ->). exists [x]. rewrite Hr. reflexivity.
  - destruct H as (c1 & H1 & H2).
    destruct (IH1 _ _ H1) as (w1 & E1). destruct (IH2 _ _ H2) as (w2 & E2).
    exists (w1 ++ w2). rewrite E1, E2, app_assoc. reflexivity.
  - destruct H as [H|H]; eauto.
  - destruct H as (k & _ & Hch). eapply chain_rest; eauto.
  - eauto.
  - destruct H as (_ & ->). exists []. reflexivity.
  - destruct H as (_ & ->). exists []. reflexivity.
  - destruct H as (_ & ->). exists []. reflexivity.
Qed.

Lemma taken_app (b b' : option char) (w s : str) :
  taken (Cursor b (w ++ s)) (Cursor b' s) = w.
Proof.
  unfold taken. simpl. rewrite length_app.
  replace (length w + length s - length s) with (length w) by lia.
  rewrite firstn_app, firstn_all, Nat.sub_diag. simpl. apply app_nil_r.
Qed.

Lemma taken_rest (r : regex) (c c' : cursor) :
  reaches r c c' -> rest c = taken c c' ++ rest c'.
Proof.
  intros H. destruct (reaches_rest _ _ _ H) as (w & E).
  destruct c as [b s], c' as [b' s']. simpl in *. subst s.
  rewrite taken_app. reflexivity.
Qed.

(** ** Matches of [attempt] and [scan] *)

Lemma attempt_some (r : regex) (adv : bool) (cur : cursor) (m : mobj) :
  attempt r adv cur = Some m ->
  In (m_end m, m_caps m) (run r cur [])
  /\ m_pre m = [] /\ m_text m = taken cur (m_end m)
  /\ (adv = true -> length (rest (m_end m)) < length (rest cur)).
Proof.
  unfold attempt. intros H.
  destruct (find _ (run r cur [])) as [[c1 cs1]|] eqn:Hf; [|discriminate].
  inversion H; subst; simpl. apply find_some in Hf. destruct Hf as (Hin & Hok).
  simpl in Hok. repeat split; auto.
  intros ->. simpl in Hok. apply Nat.ltb_lt in Hok. exact Hok.
Qed.

Lemma attempt_none (r : regex) (cur : cursor) :
  attempt r false cur = None -> run r cur [] = [].
Proof.
  unfold attempt. simpl. destruct (run r cur []) as [|m l]; [reflexivity|].
  simpl. discriminate.
Qed.

Lemma attempt_first (r : regex) (cur c1 : cursor) (cs1 : caps) l :
  run r cur [] = (c1, cs1) :: l ->
  attempt r false cur = Some (Mobj [] (taken cur c1) cs1 c1).
Proof. unfold attempt. intros ->. reflexivity. Qed.

(** What [scan] finds: the subject is the skipped text, the match and
    the text after it, and the match is one of [attempt]. *)
Lemma scan_some (r : regex) :
  forall s adv b m, scan r adv b s = Some m ->
    s = m_pre m ++ m_text m ++ rest (m_end m)
    /\ exists adv' cur m0, attempt r adv' cur = Some m0
         /\ m_text m0 = m_text m /\ m_caps m0 = m_caps m /\ m_end m0 = m_end m
         /\ (adv = true -> m_pre m = [] -> m_text m <> []).
Proof.
  induction s as [|x s IH]; intros adv b m H; simpl in H.
  - destruct (attempt r adv (Cursor b [])) as [m0|] eqn:Ha; [|discriminate].
    inversion H; subst m0.
    destruct (attempt_some _ _ _ _ Ha) as (Hin & Hpre & Htext & Hadv).
    apply run_sound in Hin. apply taken_rest in Hin. simpl in Hin.
    split.
    + rewrite Hpre, Htext. simpl. exact Hin.
    + exists adv, (Cursor b []), m. repeat split; auto.
      intros -> _ E. specialize (Hadv eq_refl). simpl in Hadv. lia.
  - destruct (attempt r adv (Cursor b (x :: s))) as [m0|] eqn:Ha.
    + inversion H; subst m0.
      destruct (attempt_some _ _ _ _ Ha) as (Hin & Hpre & Htext & Hadv).
      apply run_sound in Hin. apply taken_rest in Hin. simpl in Hin.
      split.
      * rewrite Hpre, Htext. simpl. exact Hin.
      * exists adv, (Cursor b (x :: s)), m. repeat split; auto.
        intros -> _ E. specialize (Hadv eq_refl). simpl in Hadv.
        rewrite Htext in E. rewrite E in Hin. simpl in Hin.
        rewrite <- Hin in Hadv. simpl in Hadv. lia.
    + destruct (scan r false (Some x) s) as [m1|] eqn:Hs; [|discriminate].
      inversion H; subst m; simpl.
      destruct (IH _ _ _ Hs) as (E & adv' & cur & m0 & H0 & E1 & E2 & E3 & _).
      split; [rewrite E at 1; reflexivity|].
      exists adv', cur, m0. repeat split; auto. discriminate.
Qed.

(** ** The fuel of the loops is enough *)

Lemma iter_unfold body greedy lo fuel count cur cs :
  iter body greedy lo (S fuel) count cur cs =
  let more :=
    flat_map (fun m =>
                if length (rest (fst m)) <? length (rest cur)
                then iter body greedy lo fuel (S count) (fst m) (snd m)
                else [])
             (body cur cs) in
  let stop := if lo <=? count then [(cur, cs)] else [] in
  if greedy then more ++ stop else stop ++ more.
Proof. reflexivity. Qed.

(** More fuel does not change a repetition: every iteration consumes a
    character. *)
Lemma iter_fuel body greedy lo :
  forall fuel count cur cs,
    length (rest cur) < fuel ->
    iter body greedy lo (S fuel) count cur cs = iter body greedy lo fuel count cur cs.
Proof.
  induction fuel as [|fuel IH]; intros count cur cs Hf; [lia|].
  rewrite (iter_unfold body greedy lo (S fuel)), (iter_unfold body greedy lo fuel).
  cbv zeta.
  assert (E : flat_map (fun m => if length (rest (fst m)) <? length (rest cur)
                                 then iter body greedy lo (S fuel) (S count) (fst m) (snd m)
                                 else []) (body cur cs)
              = flat_map (fun m => if length (rest (fst m)) <? length (rest cur)
                                   then iter body greedy lo fuel (S count) (fst m) (snd m)
                                   else []) (body cur cs)).
  { apply flat_map_ext. intros m.
    destruct (Nat.ltb_spec (length (rest (fst m))) (length (rest cur))); [|reflexivity].
    apply IH. lia. }
  rewrite E. reflexivity.
Qed.

Lemma is_empty_true (s : str) : is_empty s = true -> s = [].
Proof. destruct s; [reflexivity|discriminate]. Qed.

(** What is left to scan after a match, counted so that it decreases at
    every turn of the loops of [re.sub] and [re.split]. *)
Lemma scan_progress (r : regex) (adv : bool) (b : option char) (s : str) (m : mobj) :
  scan r adv b s = Some m ->
  2 * length (rest (m_end m)) + (if is_empty (m_text m) then 1 else 2)
  < 2 * length s + (if adv then 1 else 2).
Proof.
  intros H. destruct (scan_some _ _ _ _ _ H) as (E & _ & _ & _ & _ & _ & _ & _ & Hadv).
  apply (f_equal (@length char)) in E. rewrite !length_app in E.
  destruct (m_text m) as [|c t] eqn:Et.
  - change (is_empty []) with true. cbv iota.
    destruct (m_pre m) as [|c p] eqn:Ep.
    + destruct adv; [exfalso; apply Hadv; reflexivity|].
      simpl in E. unfold str, char in *. lia.
    + simpl in E. unfold str, char in *. destruct adv; lia.
  - change (is_empty (c :: t)) with false. cbv iota.
    simpl in E. unfold str, char in *. destruct adv; lia.
Qed.

Lemma sub_loop_fuel (r : regex) (tpl : list titem) :
  forall fuel (s : str) (adv : bool) b,
    2 * length s + (if adv then 1 else 2) <= fuel ->
    sub_loop (S fuel) r tpl adv b s = sub_loop fuel r tpl adv b s.
Proof.
  induction fuel as [|fuel IH]; intros s adv b Hf; [destruct adv; lia|].
  cbn [sub_loop]. destruct (scan r adv b s) as [m|] eqn:Hs; [|reflexivity].
  pose proof (scan_progress _ _ _ _ _ Hs) as Hp.
  rewrite <- (IH (rest (m_end m)) (is_empty (m_text m)) (before (m_end m))) by lia.
  reflexivity.
Qed.

Lemma split_loop_fuel (r : regex) (groups : nat) :
  forall fuel (s : str) (adv : bool) b,
    2 * length s + (if adv then 1 else 2) <= fuel ->
    split_loop (S fuel) r groups adv b s = split_loop fuel r groups adv b s.
Proof.
  induction fuel as [|fuel IH]; intros s adv b Hf; [destruct adv; lia|].
  cbn [split_loop]. destruct (scan r adv b s) as [m|] eqn:Hs; [|reflexivity].
  pose proof (scan_progress _ _ _ _ _ Hs) as Hp.
  rewrite <- (IH (rest (m_end m)) (is_empty (m_text m)) (before (m_end m))) by lia.
  reflexivity.
Qed.

(** [re_sub] and [re_split] do not run out of fuel: any larger amount
    gives the same result. *)
Lemma re_sub_enough_fuel (r : regex) (tpl : list titem) (s : str) (extra : nat) :
  sub_loop (extra + (2 * length s + 2)) r tpl false None s = re_sub r tpl s.
Proof.
  unfold re_sub. induction extra as [|extra IH]; [reflexivity|].
  cbn [Nat.add]. rewrite sub_loop_fuel by lia. exact IH.
Qed.

Lemma re_split_enough_fuel (r : regex) (groups : nat) (s : str) (extra : nat) :
  split_loop (extra + (2 * length s + 2)) r groups false None s = re_split r groups s.
Proof.
  unfold re_split. induction extra as [|extra IH]; [reflexivity|].
  cbn [Nat.add]. rewrite split_loop_fuel by lia. exact IH.
Qed.

(** ** C8: the repair only inserts newlines *)

Lemma remove_nl_app (a b : str) : remove_nl (a ++ b) = remove_nl a ++ remove_nl b.
Proof. apply filter_app. Qed.

(** In a pattern [(?<!x)(r0)] the group is the whole match. *)
Lemma lookbehind_group_is_match (x : char) (r0 : regex) adv cur m :
  attempt (Seq (NotAfter x) (Grp 1 r0)) adv cur = Some m ->
  group_text 1 m = m_text m.
Proof.
  intros H. destruct (attempt_some _ _ _ _ H) as (Hin & _ & Htext & _).
  simpl in Hin. apply in_flat_map in Hin. destruct Hin as ([c0 cs0] & H0 & Hin).
  assert (E : c0 = cur).
  { destruct (before cur) as [y|].
    - destruct (y =? x)%N; [destruct H0|].
      destruct H0 as [E|[]]; inversion E; reflexivity.
    - destruct H0 as [E|[]]; inversion E; reflexivity. }
  subst c0. simpl in Hin. apply in_map_iff in Hin.
  destruct Hin as ([c1 cs1] & E & _). simpl in E. inversion E as [[E1 E2]].
  unfold group_text. rewrite <- E2. simpl. rewrite Htext, <- E1. reflexivity.
Qed.

(** Replacing every match by a newline and the match itself leaves the
    characters other than newlines as they are. *)
Lemma sub_loop_remove_nl (x : char) (r0 : regex) :
  forall fuel adv b s,
    remove_nl (sub_loop fuel (Seq (NotAfter x) (Grp 1 r0)) newline_then_group adv b s)
    = remove_nl s.
Proof.
  induction fuel as [|fuel IH]; intros adv b s; simpl; [reflexivity|].
  destruct (scan _ adv b s) as [m|] eqn:Hs; [|reflexivity].
  destruct (scan_some _ _ _ _ _ Hs) as (E & adv' & cur & m0 & Ha & E1 & E2 & E3 & _).
  apply lookbehind_group_is_match in Ha.
  assert (Hg : group_text 1 m = m_text m).
  { unfold group_text in *. rewrite <- E2, <- E1. exact Ha. }
  unfold expand, newline_then_group. simpl. rewrite Hg, app_nil_r.
  rewrite E at 1. rewrite !remove_nl_app.
  change (nl :: m_text m ++ ?t) with ([nl] ++ m_text m ++ t).
  rewrite !remove_nl_app, IH. reflexivity.
Qed.

Lemma re_sub_lost_remove_nl (x : char) (r0 : regex) (s : str) :
  remove_nl (re_sub (Seq (NotAfter x) (Grp 1 r0)) newline_then_group s) = remove_nl s.
Proof. apply sub_loop_remove_nl. Qed.

(** C8. [preprocess_pypdf] only inserts newline characters: once the
    newlines are deleted, its result and its argument are the same text. *)
Theorem preprocess_pypdf_only_inserts_newlines (text : str) :
  remove_nl (preprocess_pypdf text) = remove_nl text.
Proof.
  unfold preprocess_pypdf, re_lost_section, re_lost_header.
  cbn [seqs]. rewrite !re_sub_lost_remove_nl. reflexivity.
Qed.

(** ** C7: the document text of a strategy *)

Lemma read_pages_texts (repair : str -> str) (pages : list (option str)) :
  forall full_text,
    read_pages repair (map ReadText pages) full_text
    = Some (full_text ++ document_text repair pages).
Proof.
  unfold document_text.
  induction pages as [|[text|] pages IH]; intros full_text; simpl.
  - rewrite app_nil_r. reflexivity.
  - destruct text as [|c text]; simpl.
    + apply IH.
    + rewrite IH. rewrite <- !app_assoc. reflexivity.
  - apply IH.
Qed.

Lemma newline_after_each (texts : list str) :
  flat_map (fun text => text ++ [nl]) texts
  = match texts with [] => [] | _ :: _ => join_nl texts ++ [nl] end.
Proof.
  induction texts as [|t ts IH]; [reflexivity|].
  simpl flat_map. rewrite IH. destruct ts as [|t' ts].
  - simpl. apply app_nil_r.
  - change (join_nl (t :: t' :: ts)) with (t ++ nl :: join_nl (t' :: ts)).
    rewrite <- !app_assoc. reflexivity.
Qed.

(** C7 (as the code has it). For every sequence of page texts, what a
    strategy feeds to [parse_full_text] is the texts of the kept pages
    (neither null nor empty), repaired for pypdf only, each followed by a
    newline: the newline-separated concatenation and one more newline at
    the end, or the empty text when no page is kept. *)
Theorem strategies_feed_newline_terminated_pages (pages : list (option str)) :
  (forall repair,
      read_pages repair (map ReadText pages) [] = Some (document_text repair pages)
      /\ document_text repair pages
         = match kept_pages pages with
           | [] => []
           | _ :: _ => join_nl (map repair (kept_pages pages)) ++ [nl]
           end)
  /\ strategy_pdfplumber (map ReadText pages)
     = parse_full_text (document_text (fun t => t) pages)
  /\ strategy_pymupdf (map ReadText pages)
     = parse_full_text (document_text (fun t => t) pages)
  /\ strategy_pypdf (map ReadText pages)
     = parse_full_text (document_text preprocess_pypdf pages).
Proof.
  split; [|unfold strategy_pdfplumber, strategy_pymupdf, strategy_pypdf, strategy;
           rewrite !read_pages_texts; auto].
  intros repair. split; [apply read_pages_texts|].
  unfold document_text.
  transitivity (flat_map (fun text => text ++ [nl]) (map repair (kept_pages pages))).
  - rewrite !flat_map_concat_map, map_map. reflexivity.
  - rewrite newline_after_each. destruct (kept_pages pages); reflexivity.
Qed.

(** C7, as stated, fails: for the single page "a" the text fed to
    [parse_full_text] is "a\n", not the newline-separated concatenation
    "a" of the pages. *)
Lemma single_page_text_ends_with_newline :
  read_pages (fun t => t) (map ReadText [Some (utf8 "a")]) [] = Some (utf8 "a" ++ [nl])
  /\ join_nl (map (fun t => t) (kept_pages [Some (utf8 "a")])) = utf8 "a"
  /\ utf8 "a" ++ [nl] <> utf8 "a".
Proof. repeat split; discriminate. Qed.

(** ** C10: texts without a header *)

(** C10 (as the code has it). [parse_full_text] returns no record for the
    empty text and for every text in which, once a newline is put in
    front of it, the header pattern does not occur. *)
Theorem parse_full_text_without_header (text : str) :
  text = [] \/ re_search re_header (nl :: text) = None ->
  parse_full_text text = [].
Proof.
  intros H.
  assert (Hs : re_search re_header (nl :: text) = None).
  { destruct H as [->|H]; [reflexivity|exact H]. }
  unfold parse_full_text, segment, candidates, re_split.
  unfold re_search in Hs. cbn [split_loop Nat.mul Nat.add length].
  rewrite Hs. reflexivity.
Qed.

Lemma parse_full_text_without_header_witness :
  re_search re_header (nl :: utf8 "no header here") = None
  /\ parse_full_text (utf8 "no header here") = [].
Proof.
  split; [reflexivity|].
  apply (parse_full_text_without_header (utf8 "no header here")).
  right. reflexivity.
Defined.

(** C10, as stated, fails: in the text "1. A\n1) 키워드\n- x" the header
    pattern, which starts with a newline, does not occur, and yet
    [parse_full_text] returns a record. *)
Lemma header_on_first_line_is_found :
  re_search re_header (join_nl (map utf8 ["1. A"; "1) 키워드"; "- x"]%string)) = None
  /\ parse_full_text (join_nl (map utf8 ["1. A"; "1) 키워드"; "- x"]%string))
     = [Card (utf8 "A") [] [] [utf8 "x"]].
Proof. split; vm_compute; reflexivity. Qed.

(** ** Stripping *)

Lemma blank_app (a b : str) : blank (a ++ b) = blank a && blank b.
Proof. apply forallb_app. Qed.

Lemma blank_rev (a : str) : blank (rev a) = blank a.
Proof.
  unfold blank. destruct (forallb isspace a) eqn:E.
  - apply forallb_forall. intros x Hx. apply in_rev in Hx.
    rewrite forallb_forall in E. auto.
  - destruct (forallb isspace (rev a)) eqn:E'; [|reflexivity].
    rewrite <- E. symmetry. apply forallb_forall. intros x Hx.
    rewrite forallb_forall in E'. apply E'. apply in_rev. rewrite rev_involutive.
    exact Hx.
Qed.

Lemma lstrip_blank (p s : str) : blank p = true -> lstrip (p ++ s) = lstrip s.
Proof.
  induction p as [|c p IH]; intros H; simpl in *; [reflexivity|].
  apply andb_true_iff in H. destruct H as (Hc & Hp). rewrite Hc. auto.
Qed.

Lemma lstrip_cons (c : char) (s : str) : isspace c = false -> lstrip (c :: s) = c :: s.
Proof. intros H. simpl. rewrite H. reflexivity. Qed.

Lemma lstrip_split (s : str) : exists p, s = p ++ lstrip s /\ blank p = true.
Proof.
  induction s as [|c s (p & E & Hp)]; [exists []; auto|].
  simpl. destruct (isspace c) eqn:Hc.
  - exists (c :: p). simpl. rewrite Hc, Hp, <- E. auto.
  - exists []. auto.
Qed.

Lemma lstrip_head (s : str) (c : char) (t : str) :
  lstrip s = c :: t -> isspace c = false.
Proof.
  induction s as [|x s IH]; simpl; [discriminate|].
  destruct (isspace x) eqn:Hx; [exact IH|].
  intros E. inversion E; subst. exact Hx.
Qed.

Lemma lstrip_nil (s : str) : lstrip s = [] <-> blank s = true.
Proof.
  induction s as [|x s IH]; simpl; [tauto|].
  destruct (isspace x); simpl; [exact IH|]. split; discriminate.
Qed.

Lemma lstrip_idem (s : str) : lstrip (lstrip s) = lstrip s.
Proof.
  destruct (lstrip s) as [|c t] eqn:E; [reflexivity|].
  apply lstrip_cons. eapply lstrip_head; eauto.
Qed.

Lemma rstrip_blank (s q : str) : blank q = true -> rstrip (s ++ q) = rstrip s.
Proof.
  intros H. unfold rstrip. rewrite rev_app_distr, lstrip_blank; [reflexivity|].
  rewrite blank_rev. exact H.
Qed.

Lemma rstrip_snoc (s : str) (c : char) :
  isspace c = false -> rstrip (s ++ [c]) = s ++ [c].
Proof.
  intros H. unfold rstrip. rewrite rev_app_distr. simpl. rewrite H.
  simpl. rewrite rev_involutive. reflexivity.
Qed.

Lemma rstrip_split (s : str) : exists q, s = rstrip s ++ q /\ blank q = true.
Proof.
  destruct (lstrip_split (rev s)) as (p & E & Hp).
  exists (rev p). split; [|rewrite blank_rev; exact Hp].
  unfold rstrip. rewrite <- rev_app_distr, <- E, rev_involutive. reflexivity.
Qed.

Lemma rstrip_last (s t : str) (c : char) :
  rstrip s = t ++ [c] -> isspace c = false.
Proof.
  unfold rstrip. intros E. apply (f_equal (@rev char)) in E.
  rewrite rev_involutive, rev_app_distr in E. simpl in E.
  eapply lstrip_head; eauto.
Qed.

Lemma rstrip_nil (s : str) : rstrip s = [] <-> blank s = true.
Proof.
  unfold rstrip. rewrite <- blank_rev, <- lstrip_nil.
  split; intros H.
  - apply (f_equal (@rev char)) in H. rewrite rev_involutive in H. exact H.
  - rewrite H. reflexivity.
Qed.

Lemma rstrip_idem (s : str) : rstrip (rstrip s) = rstrip s.
Proof.
  destruct (rev (rstrip s)) as [|c t] eqn:E.
  - apply (f_equal (@rev char)) in E. rewrite rev_involutive in E.
    rewrite E. reflexivity.
  - apply (f_equal (@rev char)) in E. rewrite rev_involutive in E. simpl in E.
    rewrite E. apply rstrip_snoc. eapply rstrip_last; eauto.
Qed.

(** What is left of the head of a text after [rstrip]. *)
Lemma rstrip_cons (c : char) (s : str) :
  isspace c = false -> rstrip (c :: s) = c :: rstrip s.
Proof.
  intros Hc. destruct (rstrip_split s) as (q & E & Hq).
  destruct (rev (rstrip s)) as [|x t] eqn:Er;
    apply (f_equal (@rev char)) in Er; rewrite rev_involutive in Er; simpl in Er.
  - rewrite Er in *. simpl in E. subst s.
    change (c :: q) with ([c] ++ q). rewrite rstrip_blank by exact Hq.
    apply (rstrip_snoc [] c Hc).
  - rewrite E at 1. change (c :: rstrip s ++ q) with ((c :: rstrip s) ++ q).
    rewrite rstrip_blank by exact Hq. rewrite Er.
    change (c :: rev t ++ [x]) with ((c :: rev t) ++ [x]).
    apply rstrip_snoc. eapply rstrip_last; eauto.
Qed.

Lemma strip_split (s : str) :
  exists p q, s = p ++ strip s ++ q /\ blank p = true /\ blank q = true.
Proof.
  destruct (lstrip_split s) as (p & E & Hp).
  destruct (rstrip_split (lstrip s)) as (q & E' & Hq).
  exists p, q. unfold strip. rewrite <- E'. auto.
Qed.

Lemma strip_nil (s : str) : strip s = [] <-> blank s = true.
Proof.
  unfold strip. rewrite rstrip_nil. destruct (lstrip_split s) as (p & E & Hp).
  rewrite E at 2. rewrite blank_app, Hp. simpl. tauto.
Qed.

Lemma strip_head (s : str) (c : char) (t : str) :
  strip s = c :: t -> isspace c = false.
Proof.
  unfold strip. intros E.
  destruct (lstrip s) as [|x u] eqn:El.
  - discriminate E.
  - pose proof (lstrip_head _ _ _ El) as Hx.
    rewrite rstrip_cons in E by exact Hx. inversion E; subst. exact Hx.
Qed.

Lemma strip_last (s t : str) (c : char) : strip s = t ++ [c] -> isspace c = false.
Proof. apply rstrip_last. Qed.

(** A text that starts and ends with something else than whitespace is
    its own [strip]. *)
Lemma strip_fixed (c : char) (t : str) :
  isspace c = false -> isspace (last (c :: t) nl) = false -> strip (c :: t) = c :: t.
Proof.
  intros Hc Hl. unfold strip. rewrite lstrip_cons by exact Hc.
  destruct (@exists_last _ (c :: t)) as (u & x & E); [discriminate|].
  rewrite E in *. rewrite last_last in Hl. apply rstrip_snoc. exact Hl.
Qed.

Lemma strip_idem (s : str) : strip (strip s) = strip s.
Proof.
  destruct (strip s) as [|c t] eqn:E; [reflexivity|].
  apply strip_fixed.
  - eapply strip_head; eauto.
  - destruct (@exists_last _ (c :: t)) as (u & x & E'); [discriminate|].
    rewrite E'. rewrite last_last. rewrite E' in E. eapply strip_last; eauto.
Qed.

Lemma strip_blank_ends (p t q : str) :
  blank p = true -> blank q = true -> strip (p ++ t ++ q) = strip t.
Proof.
  intros Hp Hq. unfold strip. rewrite lstrip_blank by exact Hp.
  destruct (lstrip_split t) as (p' & E & Hp').
  destruct (lstrip t) as [|c u] eqn:El.
  - rewrite app_nil_r in E. subst t.
    assert (H : blank (p' ++ q) = true) by (rewrite blank_app, Hp', Hq; reflexivity).
    apply lstrip_nil in H. rewrite H. reflexivity.
  - rewrite E at 1. rewrite <- app_assoc, lstrip_blank by exact Hp'.
    change ((c :: u) ++ q) with (c :: u ++ q).
    rewrite lstrip_cons by (eapply lstrip_head; eauto).
    change (c :: u ++ q) with ((c :: u) ++ q). apply rstrip_blank. exact Hq.
Qed.

(** ** C9: the keywords of a record *)

Lemma attempt_cls (p : char -> bool) (adv : bool) (b : option char) (s : str) :
  attempt (Cls p) adv (Cursor b s)
  = match s with
    | x :: s' => if p x then Some (Mobj [] [x] [] (Cursor (Some x) s')) else None
    | [] => None
    end.
Proof.
  unfold attempt. simpl run. unfold advance. simpl rest.
  destruct s as [|x s']; [reflexivity|].
  destruct (p x); [|reflexivity]. simpl map. simpl find.
  assert (E : (length s' <? S (length s')) = true) by (apply Nat.ltb_lt; lia).
  rewrite E, orb_true_r. simpl fst. simpl snd.
  pose proof (taken_app b (Some x) [x] s') as T. cbn [app] in T.
  rewrite T. reflexivity.
Qed.

(** Splitting on a class: [scan] skips the characters outside the class. *)
Lemma scan_cls (p : char -> bool) :
  forall s adv b,
    match scan (Cls p) adv b s with
    | Some m => forallb (fun c => negb (p c)) (m_pre m) = true
                /\ length (rest (m_end m)) < length s
                /\ m_text m <> []
    | None => forallb (fun c => negb (p c)) s = true
    end.
Proof.
  induction s as [|x s IH]; intros adv b; cbn [scan]; rewrite attempt_cls.
  - reflexivity.
  - destruct (p x) eqn:Hp.
    + simpl. repeat split; [lia|discriminate].
    + specialize (IH false (Some x)).
      destruct (scan (Cls p) false (Some x) s) as [m|].
      * simpl. rewrite Hp. simpl. destruct IH as (H1 & H2 & H3).
        repeat split; [exact H1|lia|exact H3].
      * simpl. rewrite Hp. exact IH.
Qed.

Lemma split_on_class (p : char -> bool) :
  forall fuel s adv b, length s < fuel ->
    Forall (fun piece => forallb (fun c => negb (p c)) piece = true)
           (split_loop fuel (Cls p) 0 adv b s).
Proof.
  induction fuel as [|fuel IH]; intros s adv b Hf; [lia|].
  simpl split_loop. pose proof (scan_cls p s adv b) as H.
  destruct (scan (Cls p) adv b s) as [m|].
  - destruct H as (H1 & H2 & H3). constructor; [exact H1|].
    simpl. apply IH. lia.
  - constructor; [exact H|constructor].
Qed.

Lemma sepfree_app (a b : str) : sepfree (a ++ b) = sepfree a && sepfree b.
Proof. apply forallb_app. Qed.

Lemma sepfree_strip (s : str) : sepfree s = true -> sepfree (strip s) = true.
Proof.
  destruct (strip_split s) as (p & q & E & _). intros H. rewrite E in H.
  rewrite !sepfree_app in H. apply andb_true_iff in H. destruct H as (_ & H).
  apply andb_true_iff in H. tauto.
Qed.

Lemma sepfree_tl (s : str) : sepfree s = true -> sepfree (tl s) = true.
Proof.
  destruct s as [|c s]; [auto|]. simpl. intros H.
  apply andb_true_iff in H. tauto.
Qed.

Lemma clean_keyword_strip (s : str) :
  sepfree s = true -> nonempty (strip s) = true -> clean_keyword (strip s) = true.
Proof.
  intros Hs Hn. unfold clean_keyword. rewrite Hn.
  rewrite (sepfree_strip _ Hs).
  destruct (strip s) as [|c t] eqn:E; [discriminate|].
  simpl hd. rewrite (strip_head _ _ _ E).
  destruct (@exists_last _ (c :: t)) as (u & x & E'); [discriminate|].
  rewrite E' in *. rewrite last_last, (strip_last _ _ _ E). reflexivity.
Qed.

Lemma keyword_of_clean (k : str) :
  sepfree k = true -> nonempty (keyword_of k) = true ->
  clean_keyword (keyword_of k) = true.
Proof.
  unfold keyword_of. intros Hk.
  destruct (startswith [45%N] (strip k)).
  - apply clean_keyword_strip. apply sepfree_tl, sepfree_strip, Hk.
  - apply clean_keyword_strip. exact Hk.
Qed.

Lemma block_keywords_clean (block : str) :
  Forall (fun k => clean_keyword k = true) (block_keywords block).
Proof.
  unfold block_keywords.
  destruct (nonempty _); [|constructor].
  apply Forall_forall. intros k Hk. apply filter_In in Hk.
  destruct Hk as (Hk & Hn). apply in_map_iff in Hk.
  destruct Hk as (piece & <- & Hp).
  apply keyword_of_clean; [|exact Hn].
  unfold re_split, re_keyword_sep in Hp.
  eapply (proj1 (Forall_forall _ _)) in Hp;
    [|apply split_on_class with (p := one_of [44; 46; nl]%N); lia].
  exact Hp.
Qed.

Lemma parse_card_block_fields (block : str) (r : card) :
  parse_card_block block = Some r ->
  r = Card (block_card_name block) (block_meaning_up block)
           (block_meaning_down block) (block_keywords block).
Proof.
  unfold parse_card_block. destruct (split_nl (strip block)); [discriminate|].
  destruct (_ && _); [discriminate|]. intros H. inversion H. reflexivity.
Qed.

(** C9. Every keyword of a record emitted by [parse_card_block] is not
    empty, has no whitespace at either end and holds no comma, period or
    newline. *)
Theorem emitted_keywords_are_clean (block : str) :
  match parse_card_block block with
  | Some r => Forall (fun k => clean_keyword k = true) (keywords r)
  | None => True
  end.
Proof.
  destruct (parse_card_block block) as [r|] eqn:E; [|exact I].
  apply parse_card_block_fields in E. subst r. simpl.
  apply block_keywords_clean.
Qed.

(** ** Repetitions of a class *)

Lemma move_app (b : option char) (w1 w2 : str) :
  move b (w1 ++ w2) = move (move b w1) w2.
Proof. apply fold_left_app. Qed.

Lemma chain_cls_sound (p : char -> bool) :
  forall k c c', chain (reaches (Cls p)) k c c' ->
    exists w, rest c = w ++ rest c' /\ forallb p w = true /\ length w = k.
Proof.
  intros k c c' H. induction H as [c|k c c1 c2 H1 _ _ (w & E & Hw & Hl)].
  - exists []. auto.
  - simpl in H1. destruct H1 as (x & s & Hr & Hp & ->). simpl in E.
    exists (x :: w). simpl. rewrite Hr, E, Hp, Hw, Hl. auto.
Qed.

Lemma chain_cls_complete (p : char -> bool) (s : str) :
  forall w b, forallb p w = true ->
    chain (reaches (Cls p)) (length w) (Cursor b (w ++ s)) (Cursor (move b w) s).
Proof.
  induction w as [|x w IH]; intros b H; simpl in *.
  - constructor.
  - apply andb_true_iff in H. destruct H as (Hx & Hw).
    apply chain_more with (c1 := Cursor (Some x) (w ++ s)).
    + simpl. eauto.
    + simpl. lia.
    + apply IH. exact Hw.
Qed.

Lemma reaches_rep_cls_sound (g : bool) (lo : nat) (p : char -> bool) c c' :
  reaches (Rep g lo (Cls p)) c c' ->
  exists w, rest c = w ++ rest c' /\ forallb p w = true /\ lo <= length w.
Proof.
  intros (k & Hk & Hch). apply chain_cls_sound in Hch.
  destruct Hch as (w & E & Hw & Hl). exists w. repeat split; auto. lia.
Qed.

Lemma reaches_rep_cls_complete (g : bool) (lo : nat) (p : char -> bool) b w s :
  forallb p w = true -> lo <= length w ->
  reaches (Rep g lo (Cls p)) (Cursor b (w ++ s)) (Cursor (move b w) s).
Proof.
  intros Hw Hl. exists (length w). split; [exact Hl|].
  apply chain_cls_complete. exact Hw.
Qed.

(** ** The value rows *)


Lemma matches_iff (r : regex) (s : str) :
  matches r s = true <-> exists c', reaches r (Cursor None s) c'.
Proof.
  unfold matches, re_match. split.
  - destruct (attempt r false (Cursor None s)) as [m|] eqn:E; [|discriminate].
    intros _. apply attempt_some in E. destruct E as (Hin & _).
    apply run_sound in Hin. eauto.
  - intros (c' & H). destruct (run_complete _ _ _ H []) as (cs' & Hin).
    unfold attempt. simpl.
    destruct (run r (Cursor None s) []) as [|m l]; [destruct Hin|reflexivity].
Qed.

Lemma chain_chunks_sound :
  forall k c c', chain (reaches chunk_re) k c c' ->
    exists chunks, rest c = spaced_symbols chunks ++ rest c'
                   /\ Forall spaced_symbol chunks /\ length chunks = k.
Proof.
  intros k c c' H. induction H as [c|k c c1 c2 H1 _ _ (chunks & E & Hc & Hl)].
  - exists []. simpl. auto.
  - simpl in H1. destruct H1 as (c0 & Hw & x & s & Hr & Hx & ->).
    apply (reaches_rep_cls_sound true 1 isspace) in Hw.
    destruct Hw as (w & Ew & Hw & Hlw). simpl in E.
    exists ((w, x) :: chunks). simpl. rewrite Ew, Hr, E, Hl.
    split; [rewrite <- !app_assoc; reflexivity|].
    split; [|reflexivity]. constructor; [|exact Hc].
    split; [|split]; simpl; auto. destruct w; [simpl in Hlw; lia|discriminate].
Qed.

Lemma chain_chunks_complete (s : str) :
  forall chunks b, Forall spaced_symbol chunks ->
    chain (reaches chunk_re) (length chunks)
          (Cursor b (spaced_symbols chunks ++ s))
          (Cursor (move b (spaced_symbols chunks)) s).
Proof.
  induction chunks as [|[w x] chunks IH]; intros b H; simpl.
  - constructor.
  - inversion H as [|? ? (Hn & Hw & Hx) Hc]; subst. simpl in *.
    rewrite <- !app_assoc. simpl.
    apply chain_more with (c1 := Cursor (Some x) (spaced_symbols chunks ++ s)).
    + simpl. exists (Cursor (move b w) (x :: spaced_symbols chunks ++ s)).
      split.
      * apply (reaches_rep_cls_complete true 1 isspace); [exact Hw|].
        destruct w; [congruence|simpl; lia].
      * exists x, (spaced_symbols chunks ++ s). auto.
    + cbn [rest]. rewrite (length_app w). cbn [length]. lia.
    + replace (move b (w ++ x :: spaced_symbols chunks))
        with (move (Some x) (spaced_symbols chunks))
        by (rewrite move_app; reflexivity).
      apply IH. exact Hc.
Qed.

Lemma matches_value_row (line : str) :
  matches re_value_row line = true <-> value_row_shape line.
Proof.
  rewrite matches_iff. split.
  - intros (c' & H). simpl in H.
    destruct H as (c0 & (_ & ->) & c1 & H1 & c2 & (t0 & s2 & E2 & Ht0 & ->)
                   & c3 & (k & Hk & Hch) & c4 & H4 & (Hend & ->)).
    apply (reaches_rep_cls_sound true 0 isspace) in H1.
    destruct H1 as (w0 & E1 & Hw0 & _). simpl in E1.
    apply chain_chunks_sound in Hch. destruct Hch as (chunks & E3 & Hc & Hl).
    simpl in E3.
    apply (reaches_rep_cls_sound true 0 isspace) in H4.
    destruct H4 as (w1 & E4 & Hw1 & _).
    exists w0, t0, chunks, (w1 ++ rest c4).
    rewrite E1, E2, E3, E4. repeat split; auto.
    + destruct chunks; [simpl in Hl; lia|discriminate].
    + rewrite blank_app. unfold blank at 1. rewrite Hw1.
      destruct Hend as [->| ->]; reflexivity.
  - intros (w0 & t0 & chunks & w1 & -> & Hw0 & Ht0 & Hn & Hc & Hw1).
    exists (Cursor (move (move (Some t0) (spaced_symbols chunks)) w1) []).
    simpl.
    exists (Cursor None (w0 ++ t0 :: spaced_symbols chunks ++ w1)).
    split; [split; reflexivity|].
    exists (Cursor (move None w0) (t0 :: spaced_symbols chunks ++ w1)). split.
    { apply (reaches_rep_cls_complete true 0 isspace); [exact Hw0|lia]. }
    exists (Cursor (Some t0) (spaced_symbols chunks ++ w1)).
    split; [exists t0; eexists; repeat split; eauto|].
    exists (Cursor (move (Some t0) (spaced_symbols chunks)) w1). split.
    { exists (length chunks). split.
      - destruct chunks; [congruence|simpl; lia].
      - apply chain_chunks_complete. exact Hc. }
    exists (Cursor (move (move (Some t0) (spaced_symbols chunks)) w1) []). split.
    { pose proof (reaches_rep_cls_complete true 0 isspace
                    (move (Some t0) (spaced_symbols chunks)) w1 [] Hw1) as H.
      rewrite app_nil_r in H. apply H. lia. }
    split; [left; reflexivity|reflexivity].
Qed.

Lemma matches_value_clump (t : str) :
  matches re_value_clump t = true <->
  exists w tail, t = w ++ tail /\ forallb rating w = true /\ 5 <= length w
                 /\ (tail = [] \/ tail = [nl]).
Proof.
  rewrite matches_iff. split.
  - intros (c' & H). simpl in H.
    destruct H as (c0 & (_ & ->) & c1 & H1 & (Hend & ->)).
    apply (reaches_rep_cls_sound true 5 rating) in H1.
    destruct H1 as (w & E & Hw & Hl).
    simpl in E. exists w, (rest c1). auto.
  - intros (w & tail & -> & Hw & Hl & Hend).
    exists (Cursor (move None w) tail). simpl.
    exists (Cursor None (w ++ tail)). split; [split; reflexivity|].
    exists (Cursor (move None w) tail). split.
    + apply (reaches_rep_cls_complete true 5 rating); assumption.
    + split; [exact Hend|reflexivity].
Qed.

Lemma matches_clump_strip (line : str) :
  matches re_value_clump (strip line) = true <-> clumped_row (strip line).
Proof.
  rewrite matches_value_clump. unfold clumped_row. split.
  - intros (w & tail & E & Hw & Hl & [->| ->]).
    + rewrite app_nil_r in E. rewrite E. auto.
    + apply strip_last in E. discriminate E.
  - intros (Hl & Hw). exists (strip line), []. rewrite app_nil_r. auto.
Qed.

Lemma symbolic_app (a b : str) : symbolic (a ++ b) = symbolic a && symbolic b.
Proof. apply forallb_app. Qed.

Lemma blank_symbolic (w : str) : blank w = true -> symbolic w = true.
Proof.
  unfold blank, symbolic. rewrite !forallb_forall. intros H x Hx.
  rewrite (H x Hx). reflexivity.
Qed.

Lemma spaced_symbols_symbolic (chunks : list (str * char)) :
  Forall spaced_symbol chunks -> symbolic (spaced_symbols chunks) = true.
Proof.
  induction 1 as [|[w x] chunks (_ & Hw & Hx) _ IH]; [reflexivity|].
  simpl in *. rewrite !symbolic_app, (blank_symbolic _ Hw), IH. simpl.
  rewrite Hx, orb_true_r. reflexivity.
Qed.

Lemma value_row_symbolic (line : str) : value_row_shape line -> symbolic line = true.
Proof.
  intros (w0 & t0 & chunks & w1 & -> & Hw0 & Ht0 & _ & Hc & Hw1).
  rewrite symbolic_app, (blank_symbolic _ Hw0). simpl.
  rewrite Ht0, orb_true_r, symbolic_app, (spaced_symbols_symbolic _ Hc).
  rewrite (blank_symbolic _ Hw1). reflexivity.
Qed.

Lemma value_row_of_stripped (line : str) :
  spaced_row (strip line) -> value_row_shape line.
Proof.
  intros (t0 & chunks & E & Ht0 & Hn & Hc).
  destruct (strip_split line) as (p & q & El & Hp & Hq).
  exists p, t0, chunks, q. rewrite El at 1. rewrite E. auto 10.
Qed.

(** A value row stays one when whitespace is put around it. *)
Lemma value_row_padded (u l v : str) :
  blank u = true -> blank v = true ->
  value_row_shape l -> value_row_shape (u ++ l ++ v).
Proof.
  intros Hu Hv (w0 & t0 & chunks & w1 & -> & Hw0 & Ht0 & Hn & Hc & Hw1).
  exists (u ++ w0), t0, chunks, (w1 ++ v).
  rewrite !blank_app, Hu, Hv, Hw0, Hw1. repeat split; auto.
  rewrite <- !app_assoc. simpl. rewrite <- !app_assoc. reflexivity.
Qed.

(** The rating rows are dropped. *)
Lemma rating_row_dropped (line : str) : rating_row line -> dropped line = true.
Proof.
  unfold dropped. intros [H|H].
  - apply value_row_of_stripped, matches_value_row in H. rewrite H.
    rewrite !orb_true_r. reflexivity.
  - apply matches_clump_strip in H. rewrite H. apply orb_true_r.
Qed.

Lemma symbolic_strip (line : str) : symbolic (strip line) = symbolic line.
Proof.
  destruct (strip_split line) as (p & q & E & Hp & Hq).
  rewrite E at 2. rewrite !symbolic_app, (blank_symbolic _ Hp), (blank_symbolic _ Hq).
  simpl. rewrite andb_true_r. reflexivity.
Qed.

Lemma wordy_not_symbolic (line : str) : wordy line = true -> symbolic line = false.
Proof.
  unfold wordy. intros H.
  apply existsb_exists in H. destruct H as (c & Hin & Hc).
  destruct (symbolic line) eqn:E; [|reflexivity].
  unfold symbolic in E. rewrite forallb_forall in E. specialize (E c Hin).
  destruct (isspace c), (rating c); discriminate.
Qed.

(** The rating rules leave a wordy line alone: it is dropped only for a
    table heading. *)
Lemma wordy_dropped (line : str) : wordy line = true -> dropped line = has_table_head line.
Proof.
  intros H. pose proof (wordy_not_symbolic _ H) as Hs.
  unfold dropped, has_table_head.
  destruct (matches re_value_row line) eqn:E1.
  { apply matches_value_row, value_row_symbolic in E1. congruence. }
  destruct (matches re_value_clump (strip line)) eqn:E2;
    [|rewrite !orb_false_r; reflexivity].
  apply matches_clump_strip in E2. destruct E2 as (_ & E2).
  rewrite <- symbolic_strip in Hs. unfold symbolic in Hs.
  assert (forallb (fun c => isspace c || rating c) (strip line) = true); [|congruence].
  rewrite forallb_forall in *. intros x Hx. rewrite (E2 x Hx). apply orb_true_r.
Qed.

(** Prose is kept. *)
Lemma prose_kept (line : str) : prose line = true -> dropped line = false.
Proof.
  unfold prose. intros H. apply andb_true_iff in H. destruct H as (Hw & Hh).
  rewrite (wordy_dropped _ Hw). apply negb_true_iff. exact Hh.
Qed.

(** ** Lines of a text *)

Lemma split_nl_one (l : str) : no_nl l = true -> split_nl l = [l].
Proof.
  induction l as [|c l IH]; intros H; simpl in *; [reflexivity|].
  apply andb_true_iff in H. destruct H as (Hc & Hl).
  apply negb_true_iff in Hc. rewrite Hc, (IH Hl). reflexivity.
Qed.

Lemma split_nl_line (l s : str) :
  no_nl l = true -> split_nl (l ++ nl :: s) = l :: split_nl s.
Proof.
  induction l as [|c l IH]; intros H; simpl in *; [reflexivity|].
  apply andb_true_iff in H. destruct H as (Hc & Hl).
  apply negb_true_iff in Hc. rewrite Hc, (IH Hl). reflexivity.
Qed.

Lemma join_nl_cons (l : str) (ls : list str) :
  ls <> [] -> join_nl (l :: ls) = l ++ nl :: join_nl ls.
Proof. destruct ls; [congruence|reflexivity]. Qed.

Lemma split_nl_join (ls : list str) :
  ls <> [] -> Forall (fun l => no_nl l = true) ls -> split_nl (join_nl ls) = ls.
Proof.
  induction ls as [|l ls IH]; intros Hn H; [congruence|].
  inversion H as [|? ? Hl Hls]; subst.
  destruct ls as [|l' ls].
  - simpl. apply split_nl_one. exact Hl.
  - rewrite join_nl_cons by discriminate.
    rewrite split_nl_line by exact Hl. rewrite IH; [reflexivity|discriminate|exact Hls].
Qed.

Lemma join_nl_split (s : str) : join_nl (split_nl s) = s.
Proof.
  induction s as [|c s IH]; [reflexivity|]. simpl.
  destruct (N.eqb_spec c nl) as [->|Hc].
  - rewrite join_nl_cons by apply split_nl_not_nil. simpl. rewrite IH. reflexivity.
  - destruct (split_nl s) as [|l ls] eqn:E; [exfalso; eapply split_nl_not_nil; eauto|].
    destruct ls as [|l' ls]; simpl in *; rewrite <- IH; reflexivity.
Qed.

Lemma split_nl_lines (s : str) : Forall (fun l => no_nl l = true) (split_nl s).
Proof.
  induction s as [|c s IH]; simpl; [repeat constructor|].
  destruct (N.eqb_spec c nl) as [->|Hc].
  - constructor; [reflexivity|exact IH].
  - destruct (split_nl s) as [|l ls]; [repeat constructor|].
    + simpl. apply N.eqb_neq in Hc. rewrite Hc. reflexivity.
    + inversion IH; subst. constructor; [|assumption].
      simpl. apply N.eqb_neq in Hc. rewrite Hc. simpl. assumption.
Qed.

(** [clean_text] on a text given by its lines. *)
Lemma clean_text_lines (ls : list str) :
  Forall (fun l => no_nl l = true) ls ->
  clean_text (join_nl ls) = strip (join_nl (kept ls)).
Proof.
  intros H. unfold clean_text.
  destruct (join_nl ls) as [|c t] eqn:E.
  - simpl. destruct ls as [|l [|l' ls]].
    + reflexivity.
    + simpl in E. subst l. reflexivity.
    + rewrite join_nl_cons in E by discriminate.
      destruct l; discriminate E.
  - change (is_empty (c :: t)) with false. cbv iota. rewrite <- E.
    rewrite split_nl_join; [reflexivity| |exact H].
    intros ->. discriminate E.
Qed.

Lemma kept_app (a b : list str) : kept (a ++ b) = kept a ++ kept b.
Proof. apply filter_app. Qed.

(** ** C4: rating rows are removed, prose is preserved *)

(** C4 (as the code has it). Whatever the lines above and below,
    [clean_text] removes a line that, once trimmed, is two or more single
    rating symbols separated by whitespace, or five or more rating symbols
    with nothing between them: the result is that of the text without the
    line.  A wordy line (some character is neither whitespace nor a rating
    symbol) is dropped only when a table heading occurs in it; a line of
    prose, where none does, stays among the kept lines. *)
Theorem clean_text_rating_rows (above below : list str) (line : str) :
  Forall (fun l => no_nl l = true) (above ++ line :: below) ->
  (rating_row line ->
   dropped line = true
   /\ clean_text (join_nl (above ++ line :: below))
      = clean_text (join_nl (above ++ below)))
  /\ (wordy line = true -> dropped line = has_table_head line)
  /\ (prose line = true ->
      dropped line = false
      /\ clean_text (join_nl (above ++ line :: below))
         = strip (join_nl (kept above ++ line :: kept below))).
Proof.
  intros H.
  assert (H' : Forall (fun l => no_nl l = true) (above ++ below)).
  { apply Forall_app in H. destruct H as (Ha & Hb). inversion Hb; subst.
    apply Forall_app. auto. }
  split; [|split]; intros Hl.
  - pose proof (rating_row_dropped _ Hl) as Hd. split; [exact Hd|].
    rewrite !clean_text_lines by assumption.
    rewrite !kept_app. simpl. unfold kept at 2. simpl. rewrite Hd. reflexivity.
  - apply wordy_dropped. exact Hl.
  - pose proof (prose_kept _ Hl) as Hd. split; [exact Hd|].
    rewrite clean_text_lines by assumption.
    rewrite kept_app. unfold kept at 2. simpl. rewrite Hd. reflexivity.
Qed.

Lemma clean_text_rating_rows_witness :
  clean_text (join_nl (map utf8 ["a"; "상 중 하 상 중"; "b"]%string))
  = clean_text (join_nl (map utf8 ["a"; "b"]%string))
  /\ clean_text (utf8 "상상상상상") = []
  /\ clean_text (utf8 "상품 가격은 상한선") = utf8 "상품 가격은 상한선".
Proof.
  split; [|split].
  - apply (clean_text_rating_rows [utf8 "a"] [utf8 "b"] (utf8 "상 중 하 상 중")).
    + repeat constructor.
    + left. exists 49345%N, [([32], 51473); ([32], 54616); ([32], 49345); ([32], 51473)]%N.
      repeat split; try discriminate. repeat constructor; discriminate.
  - apply (clean_text_rating_rows [] [] (utf8 "상상상상상")).
    + repeat constructor.
    + right. split; [vm_compute; lia|reflexivity].
  - apply (clean_text_rating_rows [] [] (utf8 "상품 가격은 상한선")).
    + repeat constructor.
    + reflexivity.
Defined.

(** C4, as stated, fails: in the line "상품 사랑 돈 사업 가격" a rating
    symbol is embedded in longer prose, and [clean_text] drops the line,
    for the table heading that occurs in it. *)
Lemma prose_with_table_heading_is_dropped :
  wordy (utf8 "상품 사랑 돈 사업 가격") = true
  /\ existsb rating (utf8 "상품 사랑 돈 사업 가격") = true
  /\ dropped (utf8 "상품 사랑 돈 사업 가격") = true
  /\ clean_text (utf8 "상품 사랑 돈 사업 가격") = [].
Proof. repeat split; vm_compute; reflexivity. Qed.

(** ** C6: cleaning twice *)

Lemma startswith_app (h a b : str) :
  startswith h a = true -> startswith h (a ++ b) = true.
Proof.
  revert a. induction h as [|x h IH]; intros a H; [reflexivity|].
  destruct a as [|y a]; [discriminate|]. simpl in *.
  apply andb_true_iff in H. destruct H as (H1 & H2). rewrite H1. simpl. auto.
Qed.

Lemma contains_app_r (h a b : str) : contains h a = true -> contains h (a ++ b) = true.
Proof.
  induction a as [|y a IH]; intros H.
  - simpl in H. rewrite orb_false_r in H. destruct h; [|discriminate].
    destruct b; reflexivity.
  - simpl in H. apply orb_true_iff in H. simpl. destruct H as [H|H].
    + apply (startswith_app h (y :: a) b) in H. simpl in H. rewrite H. reflexivity.
    + rewrite (IH H). apply orb_true_r.
Qed.

Lemma contains_app_l (h a b : str) : contains h b = true -> contains h (a ++ b) = true.
Proof.
  induction a as [|y a IH]; intros H; [exact H|].
  simpl. rewrite (IH H). apply orb_true_r.
Qed.

Lemma contains_padded (h u l v : str) :
  contains h l = true -> contains h (u ++ l ++ v) = true.
Proof. intros H. apply contains_app_l, contains_app_r, H. Qed.

(** A dropped line is still dropped with whitespace around it. *)
Lemma dropped_padded (u l v : str) :
  blank u = true -> blank v = true ->
  dropped l = true -> dropped (u ++ l ++ v) = true.
Proof.
  intros Hu Hv. unfold dropped. rewrite (strip_blank_ends u l v Hu Hv).
  intros H. repeat (apply orb_true_iff in H; destruct H as [H|H]).
  - rewrite (contains_padded _ u l v H). reflexivity.
  - rewrite (contains_padded _ u l v H). rewrite !orb_true_r. reflexivity.
  - rewrite (contains_padded _ u l v H). rewrite !orb_true_r. reflexivity.
  - apply matches_value_row in H. apply (value_row_padded u l v Hu Hv) in H.
    apply matches_value_row in H. rewrite H. rewrite !orb_true_r. reflexivity.
  - rewrite H. apply orb_true_r.
Qed.

Lemma blank_lines (q : str) : blank q = true -> Forall (fun l => blank l = true) (split_nl q).
Proof.
  induction q as [|c q IH]; intros H; simpl in *; [repeat constructor|].
  apply andb_true_iff in H. destruct H as (Hc & Hq). specialize (IH Hq).
  destruct (c =? nl)%N; [constructor; [reflexivity|exact IH]|].
  destruct (split_nl q) as [|l ls]; [repeat constructor; simpl; rewrite Hc; reflexivity|].
  inversion IH; subst. constructor; [|assumption]. simpl. rewrite Hc. assumption.
Qed.

(** The lines of a text behind whitespace: its own, the first one behind
    some whitespace, after the lines of the whitespace. *)
Lemma split_nl_after_blank (p t : str) :
  blank p = true ->
  exists u L, split_nl (p ++ t) = L ++ (u ++ hd [] (split_nl t)) :: tl (split_nl t)
              /\ blank u = true.
Proof.
  induction p as [|c p IH]; intros H.
  - exists [], []. simpl. split; [|reflexivity].
    destruct (split_nl t) eqn:E; [exfalso; eapply split_nl_not_nil; eauto|reflexivity].
  - simpl in H. apply andb_true_iff in H. destruct H as (Hc & Hp).
    destruct (IH Hp) as (u & L & E & Hu). simpl. rewrite E.
    destruct (c =? nl)%N.
    + exists u, ([] :: L). auto.
    + destruct L as [|l0 L]; simpl.
      * exists (c :: u), []. simpl. rewrite Hc, Hu. auto.
      * exists u, ((c :: l0) :: L). auto.
Qed.

(** The lines of a text in front of whitespace: its own, the last one in
    front of some whitespace, before the other lines of the whitespace. *)
Lemma split_nl_before_blank (t q : str) :
  blank q = true ->
  exists v R, split_nl (t ++ q)
              = removelast (split_nl t) ++ (last (split_nl t) [] ++ v) :: R
              /\ blank v = true.
Proof.
  intros Hq. induction t as [|c t (v & R & E & Hv)].
  - pose proof (blank_lines q Hq) as Hb. simpl.
    destruct (split_nl q) as [|hq tq] eqn:Eq; [exfalso; eapply split_nl_not_nil; eauto|].
    inversion Hb; subst. exists hq, tq. auto.
  - exists v. simpl. rewrite E.
    destruct (split_nl t) as [|l0 ls] eqn:Et; [exfalso; eapply split_nl_not_nil; eauto|].
    destruct (c =? nl)%N.
    + exists R. split; [|exact Hv]. reflexivity.
    + destruct ls as [|l1 ls]; exists R; (split; [|exact Hv]); reflexivity.
Qed.

(** Every line of a trimmed text is a line of the text, less some
    whitespace at its ends. *)
Lemma strip_lines (s : str) (l' : str) :
  In l' (split_nl (strip s)) ->
  exists l u v, In l (split_nl s) /\ l = u ++ l' ++ v
                /\ blank u = true /\ blank v = true.
Proof.
  destruct (strip_split s) as (p & q & E & Hp & Hq). intros Hin.
  destruct (split_nl_before_blank (strip s) q Hq) as (v & R & E2 & Hv).
  destruct (split_nl_after_blank p (strip s ++ q) Hp) as (u & L & E1 & Hu).
  rewrite <- E in E1.
  assert (H2 : exists l2 v2, In l2 (split_nl (strip s ++ q))
                             /\ l2 = l' ++ v2 /\ blank v2 = true).
  { rewrite E2.
    destruct (@app_removelast_last _ (split_nl (strip s)) [] (split_nl_not_nil _)) as [].
    rewrite (@app_removelast_last _ (split_nl (strip s)) [] (split_nl_not_nil _)) in Hin.
    apply in_app_or in Hin. destruct Hin as [Hin|[<-|[]]].
    - exists l', []. rewrite app_nil_r. split; [|auto].
      apply in_or_app. left. exact Hin.
    - exists (last (split_nl (strip s)) [] ++ v), v. split; [|auto].
      apply in_or_app. right. left. reflexivity. }
  destruct H2 as (l2 & v2 & Hin2 & -> & Hv2).
  rewrite E1.
  destruct (split_nl (strip s ++ q)) as [|h T]; [destruct Hin2|].
  simpl hd. simpl tl. destruct Hin2 as [->|Hin2].
  - exists (u ++ l' ++ v2), u, v2. split; [|auto].
    apply in_or_app. right. left. reflexivity.
  - exists (l' ++ v2), [], v2. split; [|auto].
    apply in_or_app. right. right. exact Hin2.
Qed.

(** A text whose lines are all kept is cleaned by trimming it. *)
Lemma clean_text_of_kept (s : str) :
  Forall (fun l => dropped l = false) (split_nl s) ->
  clean_text (strip s) = strip s.
Proof.
  intros H. unfold clean_text.
  destruct (strip s) as [|c t] eqn:E; [reflexivity|].
  change (is_empty (c :: t)) with false. cbv iota. rewrite <- E.
  assert (Hk : filter (fun line => negb (dropped line)) (split_nl (strip s))
               = split_nl (strip s)).
  { apply forallb_filter_id. apply forallb_forall. intros l' Hin.
    destruct (strip_lines s l' Hin) as (l & u & v & Hl & -> & Hu & Hv).
    rewrite Forall_forall in H. specialize (H _ Hl).
    destruct (dropped l') eqn:Ed; [|reflexivity].
    rewrite (dropped_padded u l' v Hu Hv Ed) in H. discriminate H. }
  rewrite Hk, join_nl_split. apply strip_idem.
Qed.

(** C6. Cleaning is idempotent. *)
Theorem clean_text_idempotent (x : str) :
  clean_text (clean_text x) = clean_text x.
Proof.
  unfold clean_text at 2 3. destruct (is_empty x); [reflexivity|].
  apply clean_text_of_kept.
  set (K := filter (fun line => negb (dropped line)) (split_nl x)).
  assert (HK : Forall (fun l => dropped l = false) K).
  { apply Forall_forall. intros l Hl. apply filter_In in Hl.
    destruct Hl as (_ & Hl). apply negb_true_iff in Hl. exact Hl. }
  destruct K as [|l K'] eqn:EK; [repeat constructor|].
  rewrite split_nl_join; [exact HK|discriminate|].
  rewrite <- EK. apply Forall_forall. intros l0 Hl0. apply filter_In in Hl0.
  destruct Hl0 as (Hl0 & _).
  pose proof (split_nl_lines x) as Hx. rewrite Forall_forall in Hx. auto.
Qed.

(** ** Characters *)

Lemma in_range_spec (lo hi c : char) :
  in_range lo hi c = true <-> (lo <= c /\ c <= hi)%N.
Proof.
  unfold in_range. rewrite andb_true_iff, !N.leb_le. tauto.
Qed.

Lemma isspace_cases (c : char) :
  isspace c = true ->
  In c [9; 10; 11; 12; 13; 28; 29; 30; 31; 32; 133; 160; 5760; 8192; 8193;
        8194; 8195; 8196; 8197; 8198; 8199; 8200; 8201; 8202; 8232; 8233;
        8239; 8287; 12288]%N.
Proof.
  unfold isspace. rewrite !orb_true_iff, !in_range_spec, !N.eqb_eq. simpl.
  intros H. lia.
Qed.

Lemma digit_not_space (c : char) : isdecimal c = true -> isspace c = false.
Proof.
  intros Hd. destruct (isspace c) eqn:Hs; [|reflexivity].
  apply isspace_cases in Hs. simpl in Hs.
  repeat (destruct Hs as [<-|Hs]; [discriminate Hd|]). destruct Hs.
Qed.

(** ** The match tried first *)


Lemma run_cls_cons (p : char -> bool) b x s cs :
  run (Cls p) (Cursor b (x :: s)) cs
  = if p x then [(Cursor (Some x) s, cs)] else [].
Proof. simpl. unfold advance. simpl. destruct (p x); reflexivity. Qed.

(** A greedy repetition of a class takes the longest run first. *)
Lemma iter_cls_longest (p : char -> bool) (lo : nat) (cs : caps) (s : str) :
  match s with [] => true | x :: _ => negb (p x) end = true ->
  forall w b count fuel,
    forallb p w = true -> length (w ++ s) < fuel -> lo <= count + length w ->
    exists others,
      iter (run (Cls p)) true lo fuel count (Cursor b (w ++ s)) cs
      = (Cursor (move b w) s, cs) :: others.
Proof.
  intros Hs. induction w as [|x w IH]; intros b count fuel Hw Hf Hlo;
    (destruct fuel as [|fuel]; [simpl in Hf; lia|]); rewrite iter_unfold.
  - simpl app. cbv zeta.
    assert (E : run (Cls p) (Cursor b s) cs = []).
    { destruct s as [|y s]; [reflexivity|]. rewrite run_cls_cons.
      apply negb_true_iff in Hs. rewrite Hs. reflexivity. }
    rewrite E. simpl in Hlo. simpl flat_map.
    assert (E' : (lo <=? count) = true) by (apply Nat.leb_le; lia).
    rewrite E'. exists []. reflexivity.
  - simpl in Hw. apply andb_true_iff in Hw. destruct Hw as (Hx & Hw).
    cbn [app]. rewrite run_cls_cons, Hx. cbv zeta. cbn [flat_map fst snd rest].
    assert (E : (length (w ++ s) <? length (x :: w ++ s)) = true)
      by (apply Nat.ltb_lt; simpl; lia).
    rewrite E.
    destruct (IH (Some x) (S count) fuel Hw) as (others & ->);
      [simpl in Hf; lia|simpl in Hlo; lia|].
    eexists. cbn [app]. reflexivity.
Qed.

Lemma first_rep_cls (p : char -> bool) (lo : nat) (w s : str) b cs :
  forallb p w = true -> lo <= length w ->
  match s with [] => true | x :: _ => negb (p x) end = true ->
  first_match (Rep true lo (Cls p)) (Cursor b (w ++ s)) cs (Cursor (move b w) s, cs).
Proof.
  intros Hw Hlo Hs. unfold first_match. cbn [run rest].
  apply iter_cls_longest; auto; lia.
Qed.

Lemma first_seq (r1 r2 : regex) c cs m1 m2 :
  first_match r1 c cs m1 -> first_match r2 (fst m1) (snd m1) m2 ->
  first_match (Seq r1 r2) c cs m2.
Proof.
  intros (o1 & E1) (o2 & E2). unfold first_match. cbn [run].
  rewrite E1. cbn [flat_map]. rewrite E2. eexists. reflexivity.
Qed.

Lemma first_lit (x : char) b s cs :
  first_match (Lit x) (Cursor b (x :: s)) cs (Cursor (Some x) s, cs).
Proof.
  unfold first_match. simpl. unfold advance. simpl. rewrite N.eqb_refl.
  eexists. reflexivity.
Qed.

Lemma first_grp (n : nat) (r : regex) c cs m :
  first_match r c cs m ->
  first_match (Grp n r) c cs (fst m, (n, taken c (fst m)) :: snd m).
Proof.
  intros (o & E). unfold first_match. cbn [run]. rewrite E.
  eexists. reflexivity.
Qed.

Lemma attempt_of_first (r : regex) (c : cursor) (m : cursor * caps) :
  first_match r c [] m ->
  attempt r false c = Some (Mobj [] (taken c (fst m)) (snd m) (fst m)).
Proof. intros (o & E). destruct m. eapply attempt_first. exact E. Qed.

(** ** The header pattern on a header line *)

Lemma well_formed_header_spec (h : header) :
  well_formed_header h = true ->
  blank (h_indent h) = true /\ no_nl (h_indent h) = true
  /\ (exists d ds, h_number h = d :: ds /\ isdecimal d = true)
  /\ forallb isdecimal (h_number h) = true
  /\ (exists g gs, h_gap h = g :: gs) /\ blank (h_gap h) = true
  /\ no_nl (h_gap h) = true
  /\ (exists c t, h_label h = c :: t /\ isspace c = false)
  /\ no_nl (h_label h) = true.
Proof.
  unfold well_formed_header. rewrite !andb_true_iff.
  intros ((((((((H1 & H2) & H3) & H4) & H5) & H6) & H7) & H8) & H9).
  repeat split; auto.
  - destruct (h_number h) as [|d ds]; [discriminate|]. exists d, ds.
    simpl in H4. apply andb_true_iff in H4. tauto.
  - destruct (h_gap h) as [|g gs]; [discriminate|]. eauto.
  - destruct (h_label h) as [|c t]; [discriminate|]. exists c, t.
    apply negb_true_iff in H8. auto.
Qed.

(** After a newline and blank lines, the pattern takes the header line
    to its end at the first try. *)
Lemma first_header (W : str) (h : header) (R : str) (b : option char) :
  blank W = true -> well_formed_header h = true -> line_end R = true ->
  exists b',
    first_match re_header (Cursor b (nl :: W ++ header_line h ++ R)) []
                (Cursor b' R, [(1, W ++ header_line h)]).
Proof.
  intros HW Hh HR. apply well_formed_header_spec in Hh.
  destruct h as [ind num gap lab]. unfold header_line. simpl in *.
  destruct Hh as (Hi & _ & (d & ds & En & Hd) & Hn & (g & gs & Eg) & Hg & _
                  & (c & t & El & Hc) & Hl).
  set (hl := ind ++ num ++ 46%N :: gap ++ lab).
  assert (Hin : first_match
                  (seqs [star ws; plus digit; Lit 46%N; plus ws; plus not_nl])
                  (Cursor (Some nl) (W ++ hl ++ R)) []
                  (Cursor (move (move (Some 46%N) gap) lab) R, [])).
  { cbn [seqs].
    replace (W ++ hl ++ R) with ((W ++ ind) ++ num ++ 46%N :: gap ++ lab ++ R)
      by (unfold hl; rewrite <- !app_assoc; simpl; rewrite <- !app_assoc; reflexivity).
    eapply first_seq.
    { apply (first_rep_cls isspace 0 (W ++ ind)).
      - unfold blank in *. rewrite forallb_app, HW, Hi. reflexivity.
      - lia.
      - rewrite En. simpl. rewrite (digit_not_space _ Hd). reflexivity. }
    cbn [fst snd]. eapply first_seq.
    { apply (first_rep_cls isdecimal 1 num).
      - exact Hn.
      - rewrite En. simpl. lia.
      - reflexivity. }
    cbn [fst snd]. eapply first_seq; [apply first_lit|].
    cbn [fst snd]. eapply first_seq.
    { apply (first_rep_cls isspace 1 gap).
      - exact Hg.
      - rewrite Eg. simpl. lia.
      - rewrite El. simpl. rewrite Hc. reflexivity. }
    cbn [fst snd].
    apply (first_rep_cls (fun c => negb (c =? nl)%N) 1 lab).
    - exact Hl.
    - rewrite El. simpl. lia.
    - destruct R as [|x R]; [reflexivity|]. simpl in HR. rewrite HR. reflexivity. }
  exists (move (move (Some 46%N) gap) lab).
  unfold re_header. cbn [seqs]. eapply first_seq; [apply first_lit|].
  cbn [fst snd]. apply (first_grp 1) in Hin. cbn [fst snd] in Hin.
  replace (W ++ hl ++ R) with ((W ++ hl) ++ R) in Hin at 2
    by (rewrite <- app_assoc; reflexivity).
  rewrite taken_app in Hin. exact Hin.
Qed.

Lemma attempt_header (W : str) (h : header) (R : str) (b : option char) :
  blank W = true -> well_formed_header h = true -> line_end R = true ->
  exists b',
    attempt re_header false (Cursor b (nl :: W ++ header_line h ++ R))
    = Some (Mobj [] (nl :: W ++ header_line h) [(1, W ++ header_line h)]
                 (Cursor b' R)).
Proof.
  intros HW Hh HR. destruct (first_header W h R b HW Hh HR) as (b' & H).
  exists b'. rewrite (attempt_of_first _ _ _ H). cbn [fst snd].
  replace (nl :: W ++ header_line h ++ R) with ((nl :: W ++ header_line h) ++ R)
    by (simpl; rewrite <- app_assoc; reflexivity).
  rewrite taken_app. reflexivity.
Qed.

(** ** The header pattern where there is no header *)

Lemma reaches_header_shape (b : option char) (X : str) (c' : cursor) :
  reaches re_header (Cursor b (nl :: X)) c' ->
  exists w0 d ds g gs n,
    X = w0 ++ (d :: ds) ++ 46%N :: (g :: gs) ++ n
    /\ blank w0 = true /\ forallb isdecimal (d :: ds) = true
    /\ blank (g :: gs) = true.
Proof.
  intros H. simpl in H.
  destruct H as (c1 & (s1 & E1 & ->) & c2 & H2 & c3 & H3 & c4 & (s4 & E4 & ->)
                 & c5 & H5 & H6).
  simpl in E1. inversion E1; subst s1. clear E1.
  apply (reaches_rep_cls_sound true 0 isspace) in H2.
  destruct H2 as (w0 & E2 & Hw0 & _). simpl in E2.
  apply (reaches_rep_cls_sound true 1 isdecimal) in H3.
  destruct H3 as (d & E3 & Hd & Hld).
  apply (reaches_rep_cls_sound true 1 isspace) in H5.
  destruct H5 as (w1 & E5 & Hw1 & Hlw). simpl in E5.
  destruct d as [|d ds]; [simpl in Hld; lia|].
  destruct w1 as [|g gs]; [simpl in Hlw; lia|].
  exists w0, d, ds, g, gs, (rest c5).
  rewrite E2, E3, E4, E5. auto.
Qed.

Lemma lstrip_app_nonblank (l R : str) :
  blank l = false -> lstrip (l ++ R) = lstrip l ++ R.
Proof.
  induction l as [|c l IH]; intros H; [discriminate|].
  simpl in *. destruct (isspace c); [apply IH; exact H|reflexivity].
Qed.

Lemma drop_digits_app (d s : str) :
  forallb isdecimal d = true -> drop_digits (d ++ s) = drop_digits s.
Proof.
  induction d as [|c d IH]; intros H; [reflexivity|].
  simpl in *. apply andb_true_iff in H. destruct H as (Hc & Hd).
  rewrite Hc. auto.
Qed.

Lemma drop_digits_line (l R : str) :
  line_end R = true -> drop_digits (l ++ R) = drop_digits l ++ R.
Proof.
  intros HR. induction l as [|c l IH].
  - destruct R as [|x R]; [reflexivity|]. simpl in *.
    apply N.eqb_eq in HR. subst x. reflexivity.
  - simpl. destruct (isdecimal c); [exact IH|reflexivity].
Qed.

Lemma line_end_head (R : str) (x : char) (s : str) :
  line_end R = true -> R = x :: s -> x = nl.
Proof. intros H ->. simpl in H. apply N.eqb_eq. exact H. Qed.

(** At a newline followed by blank lines and a plain line, the header
    pattern does not match. *)
Lemma no_header_on_plain (W l R : str) (b : option char) :
  blank W = true -> numbered l = false -> blank l = false -> line_end R = true ->
  run re_header (Cursor b (nl :: W ++ l ++ R)) [] = [].
Proof.
  intros HW Hnum Hl HR.
  destruct (run re_header (Cursor b (nl :: W ++ l ++ R)) []) as [|[c' cs'] o] eqn:E;
    [reflexivity|exfalso].
  assert (Hin : In (c', cs') (run re_header (Cursor b (nl :: W ++ l ++ R)) []))
    by (rewrite E; left; reflexivity).
  apply run_sound, reaches_header_shape in Hin.
  destruct Hin as (w0 & d & ds & g & gs & n & Ex & Hw0 & Hd & Hg).
  apply (f_equal lstrip) in Ex.
  rewrite (lstrip_blank W _ HW), (lstrip_app_nonblank l R Hl) in Ex.
  rewrite (lstrip_blank w0 _ Hw0) in Ex.
  assert (Hd0 : isdecimal d = true) by (simpl in Hd; apply andb_true_iff in Hd; tauto).
  cbn [app] in Ex. rewrite (lstrip_cons d _ (digit_not_space _ Hd0)) in Ex.
  pose proof (f_equal (@length char) Ex) as Elen.
  pose proof (f_equal drop_digits Ex) as Edd.
  change (d :: ds ++ 46%N :: g :: gs ++ n)
    with ((d :: ds) ++ 46%N :: g :: gs ++ n) in Edd.
  rewrite (drop_digits_app _ _ Hd), (drop_digits_line _ R HR) in Edd.
  change (drop_digits (46%N :: g :: gs ++ n)) with (46%N :: g :: gs ++ n) in Edd.
  unfold numbered in Hnum.
  destruct (drop_digits (lstrip l)) as [|c l3] eqn:E2.
  - simpl in Edd. pose proof (line_end_head _ _ _ HR Edd). discriminate.
  - simpl in Edd. inversion Edd as [[Ec E3]]. subst c.
    rewrite N.eqb_refl in Hnum.
    apply andb_false_iff in Hnum. destruct Hnum as [Hnum|Hnum].
    + apply Nat.ltb_ge in Hnum.
      pose proof (f_equal (@length char) E3) as E3len.
      change (d :: ds ++ 46%N :: g :: gs ++ n)
        with ((d :: ds) ++ 46%N :: (g :: gs ++ n)) in Elen.
      set (Z := g :: gs ++ n) in *.
      rewrite !length_app in Elen. rewrite length_app in E3len.
      cbn [length] in Elen, Hnum. clearbody Z. unfold str, char in *. lia.
    + simpl in Hnum. destruct l3 as [|c3 l3]; [discriminate|].
      simpl in E3. inversion E3; subst c3.
      simpl in Hg. apply andb_true_iff in Hg. destruct Hg as (Hg & _). congruence.
Qed.

(** At a newline followed by whitespace only, the header pattern does not
    match. *)
Lemma no_header_on_blank (W : str) (b : option char) :
  blank W = true -> run re_header (Cursor b (nl :: W)) [] = [].
Proof.
  intros HW.
  destruct (run re_header (Cursor b (nl :: W)) []) as [|[c' cs'] o] eqn:E;
    [reflexivity|exfalso].
  assert (Hin : In (c', cs') (run re_header (Cursor b (nl :: W)) []))
    by (rewrite E; left; reflexivity).
  apply run_sound, reaches_header_shape in Hin.
  destruct Hin as (w0 & d & ds & g & gs & n & Ex & Hw0 & Hd & Hg).
  rewrite Ex in HW. rewrite !blank_app in HW. simpl in HW, Hd.
  apply andb_true_iff in Hd. destruct Hd as (Hd & _).
  rewrite (digit_not_space _ Hd) in HW. rewrite andb_false_r in HW. discriminate.
Qed.

(** Where there is no newline, either. *)
Lemma no_header_inside_line (x : char) (s : str) (b : option char) :
  (x =? nl)%N = false -> run re_header (Cursor b (x :: s)) [] = [].
Proof.
  intros H. unfold re_header. cbn [seqs run]. unfold advance. cbn [rest].
  rewrite N.eqb_sym, H. reflexivity.
Qed.

Lemma attempt_of_none (r : regex) (adv : bool) (c : cursor) :
  run r c [] = [] -> attempt r adv c = None.
Proof. unfold attempt. intros ->. reflexivity. Qed.

(** ** Scanning a document line by line *)

Lemma newline_each_app (a b : list str) :
  newline_each (a ++ b) = newline_each a ++ newline_each b.
Proof. apply flat_map_app. Qed.

Lemma newline_each_cons (l : str) (ls : list str) :
  newline_each (l :: ls) = nl :: l ++ newline_each ls.
Proof. reflexivity. Qed.

Lemma line_end_newline_each (ls : list str) (X : str) :
  line_end X = true -> line_end (newline_each ls ++ X) = true.
Proof. destruct ls; [auto|reflexivity]. Qed.

Lemma blank_newline_each (bl : list str) :
  forallb blank bl = true -> blank (newline_each bl) = true.
Proof.
  induction bl as [|l bl IH]; intros H; [reflexivity|].
  simpl in H. apply andb_true_iff in H. destruct H as (Hl & Hbl).
  rewrite newline_each_cons. change (nl :: l ++ newline_each bl)
    with ([nl] ++ l ++ newline_each bl).
  rewrite !blank_app, Hl, (IH Hbl). reflexivity.
Qed.

(** Blank lines and the newline after them: a newline and whitespace. *)
Lemma blank_lines_then_newline (bl : list str) :
  forallb blank bl = true ->
  exists W, blank W = true /\ forall Y, newline_each bl ++ nl :: Y = nl :: W ++ Y.
Proof.
  intros H. destruct bl as [|l bl].
  - exists []. split; [reflexivity|]. reflexivity.
  - exists (l ++ newline_each bl ++ [nl]). split.
    + simpl in H. apply andb_true_iff in H. destruct H as (Hl & Hbl).
      rewrite !blank_app, Hl, (blank_newline_each _ Hbl). reflexivity.
    + intros Y. rewrite newline_each_cons. simpl. rewrite <- !app_assoc.
      reflexivity.
Qed.

Lemma first_nonblank (ps : list str) :
  forallb blank ps = false ->
  exists bl l ps', ps = bl ++ l :: ps' /\ forallb blank bl = true /\ blank l = false.
Proof.
  induction ps as [|l ps IH]; intros H; [discriminate|].
  simpl in H. destruct (blank l) eqn:Hl.
  - destruct (IH H) as (bl & l' & ps' & -> & Hbl & Hl').
    exists (l :: bl), l', ps'. simpl. rewrite Hl, Hbl. auto.
  - exists [], l, ps. auto.
Qed.

Lemma plain_spec (l : str) : plain l = true -> no_nl l = true /\ numbered l = false.
Proof.
  unfold plain. intros H. apply andb_true_iff in H. destruct H as (H1 & H2).
  apply negb_true_iff in H2. auto.
Qed.

(** No match where lines begin, as long as the first line that is not
    blank is a plain one. *)
Lemma no_header_at_plain_lines (ps : list str) (X : str) (b : option char) :
  forallb plain ps = true -> forallb blank ps = false -> line_end X = true ->
  attempt re_header false (Cursor b (newline_each ps ++ X)) = None.
Proof.
  intros Hp Hb HX. destruct (first_nonblank ps Hb) as (bl & l & ps' & -> & Hbl & Hl).
  rewrite forallb_app in Hp. apply andb_true_iff in Hp. destruct Hp as (_ & Hp).
  simpl in Hp. apply andb_true_iff in Hp. destruct Hp as (Hpl & _).
  apply plain_spec in Hpl. destruct Hpl as (_ & Hnum).
  destruct (blank_lines_then_newline bl Hbl) as (W & HW & EW).
  rewrite newline_each_app, newline_each_cons, <- app_assoc.
  cbn [app]. rewrite EW, <- app_assoc.
  apply attempt_of_none. apply no_header_on_plain; auto.
  apply line_end_newline_each. exact HX.
Qed.

Lemma scan_here (r : regex) (adv : bool) (b : option char) (s : str) (m : mobj) :
  attempt r adv (Cursor b s) = Some m -> scan r adv b s = Some m.
Proof. intros H. destruct s; simpl; rewrite H; reflexivity. Qed.

Lemma scan_next (r : regex) (adv : bool) (b : option char) (x : char) (s : str) :
  attempt r adv (Cursor b (x :: s)) = None ->
  scan r adv b (x :: s)
  = match scan r false (Some x) s with
    | Some m => Some (Mobj (x :: m_pre m) (m_text m) (m_caps m) (m_end m))
    | None => None
    end.
Proof. intros H. cbn [scan]. rewrite H. reflexivity. Qed.

(** The scan runs through a line without stopping. *)
Lemma scan_skip_line (l s : str) :
  no_nl l = true ->
  forall b,
    scan re_header false b (l ++ s)
    = match scan re_header false (move b l) s with
      | Some m => Some (Mobj (l ++ m_pre m) (m_text m) (m_caps m) (m_end m))
      | None => None
      end.
Proof.
  induction l as [|x l IH]; intros Hl b.
  - simpl. destruct (scan re_header false b s) as [[]|]; reflexivity.
  - simpl in Hl. apply andb_true_iff in Hl. destruct Hl as (Hx & Hl).
    apply negb_true_iff in Hx. cbn [app].
    rewrite scan_next
      by (apply attempt_of_none, no_header_inside_line; exact Hx).
    rewrite (IH Hl). simpl move.
    destruct (scan re_header false (move (Some x) l) s); reflexivity.
Qed.

(** Without a header ahead the scan finds nothing. *)
Lemma scan_no_header (ps : list str) :
  forallb plain ps = true ->
  forall b, scan re_header false b (newline_each ps) = None.
Proof.
  induction ps as [|l ps IH]; intros Hp b; [reflexivity|].
  assert (Ha : attempt re_header false (Cursor b (newline_each (l :: ps))) = None).
  { destruct (forallb blank (l :: ps)) eqn:Hb.
    - rewrite newline_each_cons. apply attempt_of_none, no_header_on_blank.
      simpl in Hb. apply andb_true_iff in Hb. destruct Hb as (Hl & Hb).
      rewrite blank_app, Hl, (blank_newline_each _ Hb). reflexivity.
    - rewrite <- (app_nil_r (newline_each (l :: ps))).
      apply no_header_at_plain_lines; auto. }
  rewrite newline_each_cons in *. rewrite (scan_next _ _ _ _ _ Ha).
  simpl in Hp. apply andb_true_iff in Hp. destruct Hp as (Hl & Hp).
  apply plain_spec in Hl. destruct Hl as (Hl & _).
  rewrite (scan_skip_line l _ Hl), (IH Hp). reflexivity.
Qed.

(** With a header ahead the scan stops at the newline that precedes the
    blank lines in front of the header line, and the match runs to the end
    of that line. *)
Lemma scan_to_header (h : header) (R : str) :
  well_formed_header h = true -> line_end R = true ->
  forall ps, forallb plain ps = true ->
  forall b, exists keep bt b',
    ps = keep ++ bt /\ forallb blank bt = true
    /\ scan re_header false b (newline_each ps ++ nl :: header_line h ++ R)
       = Some (Mobj (newline_each keep)
                    (newline_each (bt ++ [header_line h]))
                    [(1, tl (newline_each (bt ++ [header_line h])))]
                    (Cursor b' R)).
Proof.
  intros Hh HR.
  assert (Hblank : forall ps b, forallb blank ps = true ->
            exists b', scan re_header false b
                            (newline_each ps ++ nl :: header_line h ++ R)
               = Some (Mobj [] (newline_each (ps ++ [header_line h]))
                            [(1, tl (newline_each (ps ++ [header_line h])))]
                            (Cursor b' R))).
  { intros ps b Hb. destruct (blank_lines_then_newline ps Hb) as (W & HW & EW).
    destruct (attempt_header W h R b HW Hh HR) as (b' & Ha).
    exists b'. rewrite newline_each_app.
    assert (E1 : newline_each [header_line h] = nl :: header_line h)
      by (simpl; rewrite app_nil_r; reflexivity).
    rewrite E1, !EW. apply scan_here. exact Ha. }
  induction ps as [|l ps IH]; intros Hp b.
  - destruct (Hblank [] b eq_refl) as (b' & E). exists [], [], b'. auto.
  - destruct (forallb blank (l :: ps)) eqn:Hb.
    + destruct (Hblank (l :: ps) b Hb) as (b' & E).
      exists [], (l :: ps), b'. auto.
    + assert (Ha : attempt re_header false
                     (Cursor b (newline_each (l :: ps) ++ nl :: header_line h ++ R))
                   = None)
        by (apply no_header_at_plain_lines; auto).
      rewrite newline_each_cons in *. cbn [app] in *.
      rewrite (scan_next _ _ _ _ _ Ha), <- app_assoc.
      simpl in Hp. apply andb_true_iff in Hp. destruct Hp as (Hl & Hp).
      apply plain_spec in Hl. destruct Hl as (Hl & _).
      rewrite (scan_skip_line l _ Hl).
      destruct (IH Hp (move (Some nl) l)) as (keep & bt & b' & -> & Hbt & ->).
      exists (l :: keep), bt, b'. auto.
Qed.

(** ** Where the marker can be *)

Lemma startswith_iff (m s : str) : startswith m s = true <-> exists t, s = m ++ t.
Proof.
  revert s. induction m as [|x m IH]; intros s.
  - simpl. split; [intros _; exists s; reflexivity|reflexivity].
  - destruct s as [|y s]; simpl.
    + split; [discriminate|intros (t & E); discriminate E].
    + rewrite andb_true_iff, N.eqb_eq, IH. split.
      * intros (-> & t & ->). exists t. reflexivity.
      * intros (t & E). inversion E. eauto.
Qed.

Lemma contains_iff (m s : str) :
  contains m s = true <-> exists a t, s = a ++ m ++ t.
Proof.
  split.
  - induction s as [|y s IH]; simpl; rewrite orb_true_iff; intros [H|H].
    + apply startswith_iff in H. destruct H as (t & E). exists [], t. exact E.
    + discriminate.
    + apply startswith_iff in H. destruct H as (t & E). exists [], t. exact E.
    + destruct (IH H) as (a & t & ->). exists (y :: a), t. reflexivity.
  - intros (a & t & ->). apply contains_app_l, contains_app_r.
    destruct m; simpl; [reflexivity|].
    assert (H : startswith (c :: m) (c :: m) = true)
      by (apply startswith_iff; exists []; rewrite app_nil_r; reflexivity).
    simpl in H. rewrite H. reflexivity.
Qed.

Lemma contains_lstrip (x : char) (m' s : str) :
  isspace x = false -> contains (x :: m') (lstrip s) = contains (x :: m') s.
Proof.
  intros Hx. induction s as [|c s IH]; [reflexivity|].
  simpl lstrip. destruct (isspace c) eqn:Hc; [|reflexivity].
  rewrite IH. cbn [contains startswith].
  destruct (N.eqb_spec x c) as [->|_]; [congruence|reflexivity].
Qed.

Section Marker.
Variables (x : char) (m' : str).
Hypothesis x_not_space : isspace x = false.
Hypothesis marker_no_nl : no_nl (x :: m') = true.

Lemma x_not_nl : (x =? nl)%N = false.
Proof.
  simpl in marker_no_nl. apply andb_true_iff in marker_no_nl.
  destruct marker_no_nl as (H & _). apply negb_true_iff. exact H.
Qed.

Lemma startswith_across_nl (m a b : str) :
  no_nl m = true -> m <> [] -> startswith m (a ++ nl :: b) = startswith m a.
Proof.
  revert a. induction m as [|y m IH]; intros a Hm Hn; [congruence|].
  simpl in Hm. apply andb_true_iff in Hm. destruct Hm as (Hy & Hm).
  apply negb_true_iff in Hy. destruct a as [|z a]; simpl.
  - rewrite Hy. reflexivity.
  - destruct m as [|y' m].
    + simpl. reflexivity.
    + rewrite IH; [reflexivity|exact Hm|discriminate].
Qed.

Lemma contains_across_nl (a b : str) :
  contains (x :: m') (a ++ nl :: b) = contains (x :: m') a || contains (x :: m') b.
Proof.
  induction a as [|z a IH].
  - cbn [app]. cbn [contains startswith]. rewrite x_not_nl. reflexivity.
  - cbn [app]. cbn [contains]. rewrite IH.
    change (z :: a ++ nl :: b) with ((z :: a) ++ nl :: b).
    rewrite startswith_across_nl by (auto; discriminate).
    rewrite orb_assoc. reflexivity.
Qed.

Lemma contains_line_then_lines (l : str) (ls : list str) :
  contains (x :: m') (l ++ newline_each ls)
  = contains (x :: m') l || contains (x :: m') (newline_each ls).
Proof.
  destruct ls as [|l2 ls].
  - simpl newline_each. rewrite app_nil_r, orb_false_r. reflexivity.
  - rewrite newline_each_cons, contains_across_nl.
    change (nl :: l2 ++ newline_each ls) with ([] ++ nl :: l2 ++ newline_each ls).
    rewrite (contains_across_nl []). reflexivity.
Qed.

Lemma contains_newline_each (ls : list str) :
  contains (x :: m') (newline_each ls) = existsb (contains (x :: m')) ls.
Proof.
  induction ls as [|l ls IH]; [reflexivity|].
  rewrite newline_each_cons.
  change (nl :: l ++ newline_each ls) with ([] ++ nl :: l ++ newline_each ls).
  rewrite contains_across_nl, contains_line_then_lines, IH. reflexivity.
Qed.

Lemma marker_not_blank (l : str) : contains (x :: m') l = true -> blank l = false.
Proof.
  intros H. apply contains_iff in H. destruct H as (a & t & ->).
  rewrite blank_app. simpl. rewrite x_not_space. apply andb_false_r.
Qed.

Lemma marker_not_in_blank_lines (bt : list str) :
  forallb blank bt = true -> existsb (contains (x :: m')) bt = false.
Proof.
  induction bt as [|l bt IH]; intros H; [reflexivity|].
  simpl in *. apply andb_true_iff in H. destruct H as (Hl & Hbt).
  rewrite (IH Hbt), orb_false_r.
  destruct (contains (x :: m') l) eqn:E; [|reflexivity].
  apply marker_not_blank in E. congruence.
Qed.
End Marker.

Lemma rstrip_after_nonspace (X : str) (z : char) (t : str) :
  isspace z = false -> rstrip (X ++ [z] ++ t) = X ++ [z] ++ rstrip t.
Proof.
  intros Hz. destruct (rstrip_split t) as (q & E & Hq).
  destruct (rev (rstrip t)) as [|w u] eqn:Er;
    apply (f_equal (@rev char)) in Er; rewrite rev_involutive in Er; simpl in Er.
  - rewrite Er in *. simpl in E. subst t.
    rewrite app_assoc, rstrip_blank by exact Hq. apply rstrip_snoc. exact Hz.
  - pose proof (rstrip_last _ _ _ Er) as Hw.
    rewrite E at 1. rewrite Er. rewrite !app_assoc.
    rewrite rstrip_blank by exact Hq. apply rstrip_snoc. exact Hw.
Qed.

(** A text that starts and ends with something else than whitespace is
    in a trimmed text when it is in the text. *)
Lemma contains_strip (x z : char) (m0 s : str) :
  isspace x = false -> isspace z = false ->
  contains (x :: m0 ++ [z]) (strip s) = contains (x :: m0 ++ [z]) s.
Proof.
  intros Hx Hz. unfold strip.
  rewrite <- (contains_lstrip x (m0 ++ [z]) s Hx).
  destruct (contains (x :: m0 ++ [z]) (lstrip s)) eqn:E.
  - apply contains_iff in E. destruct E as (a & t & E). rewrite E.
    apply contains_iff.
    exists a, (rstrip t).
    change ((x :: m0 ++ [z]) ++ t) with (((x :: m0) ++ [z]) ++ t).
    rewrite <- (app_assoc (x :: m0)), app_assoc.
    rewrite rstrip_after_nonspace by exact Hz.
    rewrite <- !app_assoc. simpl. rewrite <- !app_assoc. reflexivity.
  - destruct (contains (x :: m0 ++ [z]) (rstrip (lstrip s))) eqn:E'; [|reflexivity].
    destruct (rstrip_split (lstrip s)) as (q & Eq & _).
    rewrite Eq in E. rewrite (contains_app_r _ _ q E') in E. discriminate E.
Qed.

(** ** The candidate blocks of a document *)

Lemma first_marker_chars :
  first_marker = 49%N :: [41; 32; 53412; 50892]%N ++ [46300%N].
Proof. reflexivity. Qed.

Lemma contains_marker_across_nl (a b : str) :
  contains first_marker (a ++ nl :: b)
  = contains first_marker a || contains first_marker b.
Proof. apply contains_across_nl; reflexivity. Qed.

Lemma contains_marker_lines (ls : list str) :
  contains first_marker (newline_each ls) = existsb (contains first_marker) ls.
Proof. apply contains_newline_each; reflexivity. Qed.

Lemma contains_marker_strip (s : str) :
  contains first_marker (strip s) = contains first_marker s.
Proof. rewrite first_marker_chars. apply contains_strip; reflexivity. Qed.

Lemma marker_in_kept_lines (keep bt : list str) :
  forallb blank bt = true ->
  existsb (contains first_marker) (keep ++ bt) = existsb (contains first_marker) keep.
Proof.
  intros H. rewrite existsb_app.
  pose proof (marker_not_in_blank_lines 49%N [41; 32; 53412; 50892; 46300]%N
                eq_refl bt H) as E.
  change (49%N :: [41; 32; 53412; 50892; 46300]%N) with first_marker in E.
  rewrite E. apply orb_false_r.
Qed.

Lemma line_end_lines (ls : list str) : line_end (newline_each ls) = true.
Proof. destruct ls; reflexivity. Qed.

Lemma captured_header_strip (bt : list str) (hl : str) :
  forallb blank bt = true -> strip (tl (newline_each (bt ++ [hl]))) = strip hl.
Proof.
  intros H. destruct (blank_lines_then_newline bt H) as (W & HW & EW).
  rewrite newline_each_app. simpl newline_each at 2. rewrite app_nil_r, EW.
  simpl tl. rewrite <- (app_nil_r hl) at 1. apply strip_blank_ends; auto.
Qed.

(** The parts that [re.split] makes of a document: the text before each
    header (less the blank lines just before it), the header line behind
    these blank lines, and at the end the text after the last header. *)
Lemma split_entities :
  forall ents ps b fuel,
    forallb plain ps = true -> forallb well_formed ents = true ->
    length (newline_each (ps ++ flat_map entity_lines ents)) < fuel ->
    exists p0 parts keep bt,
      split_loop fuel re_header 1 false b
                 (newline_each (ps ++ flat_map entity_lines ents))
      = p0 :: parts
      /\ ps = keep ++ bt /\ forallb blank bt = true /\ p0 = newline_each keep
      /\ Forall2 block_matches ents (full_blocks parts).
Proof.
  induction ents as [|e ents IH]; intros ps b fuel Hp He Hf;
    (destruct fuel as [|fuel]; [lia|]).
  - simpl flat_map. rewrite app_nil_r. cbn [split_loop].
    rewrite (scan_no_header ps Hp).
    exists (newline_each ps), [], ps, []. rewrite app_nil_r.
    repeat split; auto; constructor.
  - simpl in He. apply andb_true_iff in He. destruct He as (Hwf & He).
    unfold well_formed in Hwf. apply andb_true_iff in Hwf.
    destruct Hwf as (Hh & Hbody).
    set (hl := header_line (e_header e)) in *.
    set (R := newline_each (e_body e ++ flat_map entity_lines ents)) in *.
    assert (Etext : newline_each (ps ++ flat_map entity_lines (e :: ents))
                    = newline_each ps ++ nl :: hl ++ R).
    { simpl flat_map. unfold entity_lines at 1. fold hl.
      rewrite newline_each_app. cbn [app]. rewrite newline_each_cons.
      reflexivity. }
    rewrite Etext in *.
    destruct (scan_to_header (e_header e) R Hh (line_end_lines _) ps Hp b)
      as (keep & bt & b' & Eps & Hbt & Escan).
    fold hl in Escan. cbn [split_loop]. rewrite Escan.
    cbn [m_pre m_text m_caps m_end before rest seq map app].
    assert (Ene : is_empty (newline_each (bt ++ [hl])) = false)
      by (destruct bt; reflexivity).
    rewrite Ene.
    destruct (IH (e_body e) b' fuel Hbody He) as (p0 & parts & keep' & bt' & Es & Eb & Hbt' & Ep0 & Hall).
    { fold R. rewrite !length_app in Hf. simpl in Hf. rewrite length_app in Hf. lia. }
    fold R in Es. rewrite Es.
    exists (newline_each keep), (group_text 1
              (Mobj (newline_each keep) (newline_each (bt ++ [hl]))
                    [(1, tl (newline_each (bt ++ [hl])))] (Cursor b' R))
            :: p0 :: parts), keep, bt.
    repeat split; auto.
    cbn [full_blocks]. constructor; [|exact Hall].
    unfold group_text. cbn [m_caps group Nat.eqb].
    rewrite (captured_header_strip bt hl Hbt).
    split.
    + exists p0. reflexivity.
    + cbn [app]. rewrite contains_marker_across_nl, contains_marker_strip.
      rewrite Ep0, contains_marker_lines.
      unfold has_marker, entity_lines. fold hl. cbn [existsb].
      rewrite Eb, marker_in_kept_lines by exact Hbt'. reflexivity.
Qed.

Lemma newline_join (ls : list str) : ls <> [] -> nl :: join_nl ls = newline_each ls.
Proof.
  induction ls as [|l ls IH]; intros H; [congruence|].
  destruct ls as [|l' ls].
  - simpl. rewrite app_nil_r. reflexivity.
  - rewrite join_nl_cons by discriminate. rewrite newline_each_cons.
    rewrite <- IH by discriminate. reflexivity.
Qed.

Lemma candidates_of_document (preamble : list str) (ents : list entity) :
  forallb plain preamble = true -> forallb well_formed ents = true ->
  Forall2 block_matches ents (candidates (document preamble ents)).
Proof.
  intros Hp He. unfold candidates, document, document_lines, re_split.
  destruct (preamble ++ flat_map entity_lines ents) as [|l ls] eqn:E.
  - destruct ents as [|e ents]; [constructor|].
    apply app_eq_nil in E. destruct E as (_ & E). discriminate E.
  - rewrite newline_join by discriminate. rewrite <- E.
    destruct (split_entities ents preamble None
                (2 * length (newline_each (preamble ++ flat_map entity_lines ents)) + 2)
                Hp He) as (p0 & parts & keep & bt & Es & _ & _ & _ & Hall); [lia|].
    rewrite Es. exact Hall.
Qed.

Lemma kept_blocks (ents : list entity) (blocks : list str) :
  Forall2 block_matches ents blocks ->
  Forall2 starts_with_header (filter has_marker ents)
          (filter (contains first_marker) blocks).
Proof.
  induction 1 as [|e blk ents blocks (Hs & Hm) _ IH]; [constructor|].
  simpl. rewrite Hm. destruct (has_marker e); [constructor; assumption|exact IH].
Qed.

Lemma segment_of_document (preamble : list str) (ents : list entity) :
  forallb plain preamble = true -> forallb well_formed ents = true ->
  Forall2 starts_with_header (filter has_marker ents)
          (segment (document preamble ents)).
Proof.
  intros Hp He. unfold segment. apply kept_blocks, candidates_of_document; auto.
Qed.

(** ** One block per header *)

(** Segmentation where only the header lines are numbered.  In a document
    made of a preamble and [N] entities, each a well-formed header line
    (optional indentation, a numeric index, a period, whitespace, a label)
    followed by the first section marker before the next header, and in
    which no other line is numbered (digits and a period followed by
    whitespace or by the end of the line), segmentation gives exactly [N]
    blocks, in document order, each starting with the trimmed header line
    of its entity. *)
Theorem segment_covers_headers (preamble : list str) (ents : list entity) :
  forallb plain preamble = true ->
  forallb well_formed ents = true ->
  forallb has_marker ents = true ->
  Forall2 starts_with_header ents (segment (document preamble ents))
  /\ length (segment (document preamble ents)) = length ents.
Proof.
  intros Hp He Hm.
  assert (H : Forall2 starts_with_header ents (segment (document preamble ents))).
  { pose proof (segment_of_document preamble ents Hp He) as H.
    rewrite forallb_filter_id in H by exact Hm. exact H. }
  split; [exact H|]. symmetry. eapply Forall2_length; eauto.
Qed.

Lemma segment_covers_headers_witness :
  Forall2 starts_with_header [entity_A; entity_B]
          (segment (document [utf8 "Catalogue"; []] [entity_A; entity_B]))
  /\ length (segment (document [utf8 "Catalogue"; []] [entity_A; entity_B])) = 2.
Proof.
  apply (segment_covers_headers [utf8 "Catalogue"; []] [entity_A; entity_B]);
    reflexivity.
Defined.

(** C2. The code breaks the claim where a numbered line has no label.
    The header pattern is meant for one line (a number, a period, space,
    content; the content is [[^\n]+]), and [parse_card_block] takes the
    first line of a block for the whole header; but the whitespace after
    the period, [\s+], also matches the end of the line.  The document
    "5.", "1. A", "1) 키워드", "- x" has one well-formed header line, "1. A",
    followed by the marker; "5." is not one (it has no label).  Its only
    block starts with "5." and not with the header line, and the record
    made of it is named "5.". *)
Lemma numbered_line_without_label_joins_header :
  well_formed entity_A = true /\ has_marker entity_A = true
  /\ no_nl (utf8 "5.") = true /\ numbered (utf8 "5.") = true
  /\ document [utf8 "5."] [entity_A]
     = join_nl (map utf8 ["5."; "1. A"; "1) 키워드"; "- x"]%string)
  /\ segment (document [utf8 "5."] [entity_A])
     = [join_nl (map utf8 ["5."; "1. A"; ""; "1) 키워드"; "- x"]%string)]
  /\ startswith (header_line (e_header entity_A))
                (join_nl (map utf8 ["5."; "1. A"; ""; "1) 키워드"; "- x"]%string))
     = false
  /\ parse_full_text (document [utf8 "5."] [entity_A])
     = [Card (utf8 "5.") [] [] [utf8 "x"]].
Proof. repeat split; vm_compute; reflexivity. Qed.

(** ** The filter of the candidate blocks *)

(** The filter where only the header lines are numbered.  A candidate
    block is among the results of segmentation exactly when it holds the
    first section marker; in a document of entities in which no other line
    is numbered, the blocks are those of the entities in whose span (the
    header line and the lines up to the next header) the marker occurs, so
    that an entity whose span has no marker gives no block. *)
Theorem segment_keeps_blocks_with_marker :
  (forall text block,
      In block (segment text) <->
      In block (candidates text) /\ contains first_marker block = true)
  /\ (forall preamble ents,
         forallb plain preamble = true -> forallb well_formed ents = true ->
         Forall2 starts_with_header (filter has_marker ents)
                 (segment (document preamble ents))).
Proof.
  split.
  - intros text block. unfold segment. apply filter_In.
  - apply segment_of_document.
Qed.

Lemma segment_keeps_blocks_with_marker_witness :
  has_marker appendix = false
  /\ Forall2 starts_with_header [entity_A; entity_B]
             (segment (document [] [entity_A; appendix; entity_B])).
Proof.
  split; [reflexivity|].
  apply (proj2 segment_keeps_blocks_with_marker [] [entity_A; appendix; entity_B]);
    reflexivity.
Defined.

(** C5. The code breaks the claim at a numbered line without label.  In
    the document "12.", "1. A", "1) 키워드", "- x" the line "12." is
    numbered, and its span up to the next header, "1. A", holds no marker:
    the claim excludes it from the results.  The whitespace after the
    period of the header pattern, [\s+], also matches the end of the
    line, so the pattern takes "12." and "1. A" for one header; the block
    holds the marker of the entity that follows and is kept: the only
    block of the results starts with "12.", and the record made of it is
    named "12.". *)
Lemma stray_number_line_is_not_excluded :
  no_nl (utf8 "12.") = true /\ numbered (utf8 "12.") = true
  /\ contains first_marker (utf8 "12.") = false
  /\ well_formed entity_A = true
  /\ document [utf8 "12."] [entity_A]
     = join_nl (map utf8 ["12."; "1. A"; "1) 키워드"; "- x"]%string)
  /\ candidates (document [utf8 "12."] [entity_A])
     = [join_nl (map utf8 ["12."; "1. A"; ""; "1) 키워드"; "- x"]%string)]
  /\ segment (document [utf8 "12."] [entity_A])
     = [join_nl (map utf8 ["12."; "1. A"; ""; "1) 키워드"; "- x"]%string)]
  /\ parse_full_text (document [utf8 "12."] [entity_A])
     = [Card (utf8 "12.") [] [] [utf8 "x"]].
Proof. repeat split; vm_compute; reflexivity. Qed.

(** * Further properties of the code *)

(** ** What [clean_text] returns *)

Lemma strip_clean_text (x : str) : strip (clean_text x) = clean_text x.
Proof.
  unfold clean_text. destruct (is_empty x); [reflexivity|apply strip_idem].
Qed.

Lemma kept_not_dropped (ls : list str) : Forall (fun l => dropped l = false) (kept ls).
Proof.
  apply Forall_forall. intros l Hl. apply filter_In in Hl.
  destruct Hl as (_ & Hl). apply negb_true_iff. exact Hl.
Qed.

Lemma kept_lines_of_text (x : str) :
  Forall (fun l => dropped l = false) (split_nl (join_nl (kept (split_nl x)))).
Proof.
  pose proof (kept_not_dropped (split_nl x)) as HK.
  destruct (kept (split_nl x)) as [|l K] eqn:EK; [repeat constructor|].
  rewrite split_nl_join; [exact HK|discriminate|].
  rewrite <- EK. apply Forall_forall. intros l0 Hl0. apply filter_In in Hl0.
  destruct Hl0 as (Hl0 & _).
  pose proof (split_nl_lines x) as Hx. rewrite Forall_forall in Hx. auto.
Qed.

Lemma clean_text_lines_not_dropped (x : str) :
  Forall (fun l => dropped l = false) (split_nl (clean_text x)).
Proof.
  unfold clean_text. destruct (is_empty x); [repeat constructor|].
  fold (kept (split_nl x)).
  pose proof (kept_lines_of_text x) as H. rewrite Forall_forall in H.
  apply Forall_forall. intros l' Hin.
  destruct (strip_lines _ l' Hin) as (l & u & v & Hl & -> & Hu & Hv).
  specialize (H _ Hl). destruct (dropped l') eqn:Ed; [|reflexivity].
  rewrite (dropped_padded u l' v Hu Hv Ed) in H. discriminate H.
Qed.

Lemma not_dropped_spec (l : str) :
  dropped l = false -> has_table_head l = false /\ ~ rating_row l.
Proof.
  intros H. split.
  - unfold dropped in H. unfold has_table_head.
    destruct (contains table_head_spaced l), (contains table_head_second l),
      (contains table_head_clumped l); try discriminate H; reflexivity.
  - intros Hr. rewrite (rating_row_dropped _ Hr) in H. discriminate H.
Qed.

(** X1. The result of [clean_text] has no whitespace at either end, and
    none of its lines is noise: no line holds a table heading, and no line
    is a row of ratings. *)
Theorem clean_text_result_is_clean (x : str) :
  trimmed (clean_text x)
  /\ Forall (fun l => has_table_head l = false /\ ~ rating_row l)
            (split_nl (clean_text x)).
Proof.
  split; [apply strip_clean_text|].
  eapply Forall_impl; [|apply clean_text_lines_not_dropped].
  intros l. apply not_dropped_spec.
Qed.

Lemma blank_join_nl (ls : list str) :
  Forall (fun l => blank l = true) ls -> blank (join_nl ls) = true.
Proof.
  induction 1 as [|l ls Hl _ IH]; [reflexivity|].
  destruct ls as [|l' ls]; [exact Hl|].
  rewrite join_nl_cons by discriminate.
  change (nl :: join_nl (l' :: ls)) with ([nl] ++ join_nl (l' :: ls)).
  rewrite !blank_app, Hl, IH. reflexivity.
Qed.

(** X2. A text of whitespace only is cleaned to the empty text. *)
Theorem clean_text_of_blank (x : str) : blank x = true -> clean_text x = [].
Proof.
  intros H. unfold clean_text. destruct (is_empty x); [reflexivity|].
  apply strip_nil, blank_join_nl.
  pose proof (blank_lines x H) as Hb. rewrite Forall_forall in *.
  intros l Hl. apply filter_In in Hl. destruct Hl as (Hl & _). auto.
Qed.

Lemma clean_text_of_blank_witness :
  blank (utf8 "  " ++ [nl; 9%N] ++ utf8 " ") = true
  /\ clean_text (utf8 "  " ++ [nl; 9%N] ++ utf8 " ") = [].
Proof.
  split; [reflexivity|].
  apply (clean_text_of_blank (utf8 "  " ++ [nl; 9%N] ++ utf8 " ")). reflexivity.
Defined.

(** ** Deleting elements *)

Lemma subseq_refl {A : Type} (a : list A) : subseq a a.
Proof. induction a; [apply subseq_nil|apply subseq_keep; assumption]. Qed.

Lemma subseq_nil_l {A : Type} (b : list A) : subseq [] b.
Proof. induction b; constructor; assumption. Qed.

Lemma subseq_app {A : Type} (a b c d : list A) :
  subseq a b -> subseq c d -> subseq (a ++ c) (b ++ d).
Proof.
  induction 1; intros Hcd; simpl.
  - exact Hcd.
  - apply subseq_skip. auto.
  - apply subseq_keep. auto.
Qed.

Lemma subseq_trans {A : Type} (a b c : list A) :
  subseq a b -> subseq b c -> subseq a c.
Proof.
  intros Hab Hbc. revert a Hab.
  induction Hbc as [|x b c _ IH|x b c _ IH]; intros a Hab.
  - exact Hab.
  - constructor. auto.
  - inversion Hab; subst; [apply subseq_skip|apply subseq_keep]; auto.
Qed.

Lemma subseq_tail {A : Type} (x : A) (a b : list A) :
  subseq (x :: a) b -> subseq a b.
Proof.
  intros H. apply subseq_trans with (b := x :: a); [|exact H].
  apply subseq_skip. apply subseq_refl.
Qed.

Lemma subseq_length {A : Type} (a b : list A) : subseq a b -> length a <= length b.
Proof. induction 1; simpl; lia. Qed.

Lemma subseq_strip (s : str) : subseq (strip s) s.
Proof.
  destruct (strip_split s) as (p & q & E & _).
  assert (H : subseq ([] ++ strip s ++ []) (p ++ strip s ++ q)).
  { apply subseq_app; [apply subseq_nil_l|].
    apply subseq_app; [apply subseq_refl|apply subseq_nil_l]. }
  rewrite <- E in H. cbn [app] in H. rewrite app_nil_r in H. exact H.
Qed.

Lemma join_nl_tl (ls : list str) : join_nl ls = tl (newline_each ls).
Proof.
  induction ls as [|l ls IH]; [reflexivity|].
  destruct ls as [|l' ls].
  - simpl. rewrite app_nil_r. reflexivity.
  - rewrite join_nl_cons by discriminate. rewrite newline_each_cons. simpl tl.
    rewrite IH. reflexivity.
Qed.

Lemma subseq_newline_each_kept (ls : list str) :
  subseq (newline_each (kept ls)) (newline_each ls).
Proof.
  induction ls as [|l ls IH]; [constructor|].
  unfold kept in *. simpl filter. rewrite newline_each_cons.
  destruct (negb (dropped l)).
  - rewrite newline_each_cons. apply subseq_keep.
    apply subseq_app; [apply subseq_refl|exact IH].
  - apply subseq_skip. apply (subseq_app [] l); [apply subseq_nil_l|exact IH].
Qed.

Lemma subseq_join_kept (ls : list str) : subseq (join_nl (kept ls)) (join_nl ls).
Proof.
  rewrite !join_nl_tl. pose proof (subseq_newline_each_kept ls) as H.
  destruct (kept ls) as [|k ks]; [apply subseq_nil_l|].
  destruct ls as [|l ls]; [inversion H|].
  rewrite !newline_each_cons in *. simpl tl.
  inversion H; subst; [|assumption].
  eapply subseq_tail; eauto.
Qed.

(** X3. [clean_text] only deletes: its result is the text with some
    characters removed, none added, changed or moved. *)
Theorem clean_text_only_deletes (x : str) : subseq (clean_text x) x.
Proof.
  unfold clean_text. destruct (is_empty x); [apply subseq_nil_l|].
  fold (kept (split_nl x)).
  eapply subseq_trans; [apply subseq_strip|].
  rewrite <- (join_nl_split x) at 2. apply subseq_join_kept.
Qed.

(** ** What [preprocess_pypdf] returns *)

Section Repair.
Variables (x : char) (r0 : regex).
Let lookbehind : regex := Seq (NotAfter x) (Grp 1 r0).

Lemma sub_loop_keeps_text :
  forall fuel adv b s,
    subseq s (sub_loop fuel lookbehind newline_then_group adv b s).
Proof.
  induction fuel as [|fuel IH]; intros adv b s; simpl; [apply subseq_refl|].
  destruct (scan lookbehind adv b s) as [m|] eqn:Hs; [|apply subseq_refl].
  destruct (scan_some _ _ _ _ _ Hs) as (E & adv' & cur & m0 & Ha & E1 & E2 & E3 & _).
  apply lookbehind_group_is_match in Ha.
  assert (Hg : group_text 1 m = m_text m).
  { unfold group_text in *. rewrite <- E2, <- E1. exact Ha. }
  unfold expand, newline_then_group. simpl. rewrite Hg, app_nil_r.
  rewrite E at 1.
  apply subseq_app; [apply subseq_refl|]. apply subseq_skip.
  apply subseq_app; [apply subseq_refl|apply IH].
Qed.

Lemma re_sub_keeps_text (s : str) : subseq s (re_sub lookbehind newline_then_group s).
Proof. apply sub_loop_keeps_text. Qed.

Lemma re_sub_no_match (tpl : list titem) (s : str) :
  re_search lookbehind s = None -> re_sub lookbehind tpl s = s.
Proof.
  unfold re_search, re_sub. intros H.
  replace (2 * length s + 2) with (S (2 * length s + 1)) by lia.
  cbn [sub_loop]. rewrite H. reflexivity.
Qed.

Lemma re_sub_same_length (s : str) :
  length (re_sub lookbehind newline_then_group s) = length s -> re_search lookbehind s = None.
Proof.
  unfold re_search, re_sub.
  replace (2 * length s + 2) with (S (2 * length s + 1)) by lia.
  cbn [sub_loop]. destruct (scan lookbehind false None s) as [m|] eqn:Hs; [|reflexivity].
  intros Hlen. exfalso.
  destruct (scan_some _ _ _ _ _ Hs) as (E & _).
  pose proof (subseq_length _ _
                (sub_loop_keeps_text (2 * length s + 1) (is_empty (m_text m))
                                     (before (m_end m)) (rest (m_end m)))) as Hrest.
  apply (f_equal (@length char)) in E. rewrite !length_app in E.
  assert (Hout : forall X : str,
             length (m_pre m ++ expand newline_then_group m ++ X)
             = length (m_pre m) + S (length (group_text 1 m)) + length X).
  { intros X. unfold expand, newline_then_group. simpl.
    rewrite app_nil_r, !length_app. simpl. rewrite length_app. lia. }
  rewrite Hout in Hlen.
  assert (Hg : length (group_text 1 m) = length (m_text m)).
  { destruct (scan_some _ _ _ _ _ Hs) as (_ & adv' & cur & m0 & Ha & E1 & E2 & _).
    apply lookbehind_group_is_match in Ha. unfold group_text in *.
    rewrite <- E2, <- E1, Ha. reflexivity. }
  unfold str, char in *. lia.
Qed.
End Repair.

Lemma repair_step (r : regex) (s : str) :
  lost_shape r ->
  subseq s (re_sub r newline_then_group s)
  /\ (re_search r s = None -> re_sub r newline_then_group s = s)
  /\ (length (re_sub r newline_then_group s) = length s -> re_search r s = None).
Proof.
  intros (r0 & ->). split; [apply re_sub_keeps_text|].
  split; [apply re_sub_no_match|apply re_sub_same_length].
Qed.

Lemma repairs_shape : Forall lost_shape repairs.
Proof. repeat constructor; eexists; reflexivity. Qed.

Lemma apply_repairs_keeps_text (rs : list regex) :
  Forall lost_shape rs -> forall s, subseq s (apply_repairs rs s).
Proof.
  induction 1 as [|r rs Hr _ IH]; intros s; [apply subseq_refl|].
  change (apply_repairs (r :: rs) s)
    with (apply_repairs rs (re_sub r newline_then_group s)).
  eapply subseq_trans; [|apply IH].
  apply (repair_step r s Hr).
Qed.

Lemma apply_repairs_fixed (rs : list regex) :
  Forall lost_shape rs ->
  forall s, apply_repairs rs s = s <-> Forall (fun r => re_search r s = None) rs.
Proof.
  induction 1 as [|r rs Hr Hrs IH]; intros s.
  - simpl. split; [constructor|reflexivity].
  - destruct (repair_step r s Hr) as (Hsub & Hnone & Hlen).
    change (apply_repairs (r :: rs) s)
      with (apply_repairs rs (re_sub r newline_then_group s)).
    split.
    + intros E.
      pose proof (subseq_length _ _ Hsub) as L1.
      pose proof (subseq_length _ _
                    (apply_repairs_keeps_text rs Hrs (re_sub r newline_then_group s))) as L2.
      rewrite E in L2.
      assert (Hs : re_search r s = None) by (apply Hlen; unfold str, char in *; lia).
      constructor; [exact Hs|]. apply IH. rewrite (Hnone Hs) in E. exact E.
    + intros H. inversion H as [|? ? Hs Hall]; subst.
      rewrite (Hnone Hs). apply IH. exact Hall.
Qed.

(** X4. [preprocess_pypdf] deletes nothing: the text is its result with
    some characters removed (the newlines it inserted). *)
Theorem preprocess_pypdf_keeps_text (text : str) :
  subseq text (preprocess_pypdf text).
Proof. apply (apply_repairs_keeps_text repairs repairs_shape). Qed.

(** X5. [preprocess_pypdf] returns the text unchanged exactly when none of
    its five patterns occurs in it. *)
Theorem preprocess_pypdf_fixed_iff (text : str) :
  preprocess_pypdf text = text <-> nothing_to_repair text.
Proof.
  change (preprocess_pypdf text) with (apply_repairs repairs text).
  rewrite (apply_repairs_fixed repairs repairs_shape). unfold nothing_to_repair, repairs.
  split.
  - intros H. inversion H as [|? ? H1 H']; subst.
    inversion H' as [|? ? H2 H'']; subst. inversion H'' as [|? ? H3 H3']; subst.
    inversion H3' as [|? ? H4 H4']; subst. inversion H4' as [|? ? H5 _]; subst.
    auto.
  - intros (H1 & H2 & H3 & H4 & H5). repeat constructor; assumption.
Qed.

(** ** A pattern that starts with [^] *)

Lemma bos_only_at_start (r : regex) :
  forall s adv y, scan (Seq Bos r) adv (Some y) s = None.
Proof.
  assert (Ha : forall s adv y, attempt (Seq Bos r) adv (Cursor (Some y) s) = None).
  { intros s adv y. apply attempt_of_none. reflexivity. }
  induction s as [|x s IH]; intros adv y.
  - cbn [scan]. rewrite Ha. reflexivity.
  - rewrite scan_next by apply Ha. rewrite IH. reflexivity.
Qed.

Lemma re_sub_bos_none (r : regex) (tpl : list titem) (s : str) :
  attempt (Seq Bos r) false (Cursor None s) = None -> re_sub (Seq Bos r) tpl s = s.
Proof.
  intros Ha. unfold re_sub.
  replace (2 * length s + 2) with (S (2 * length s + 1)) by lia.
  cbn [sub_loop].
  assert (E : scan (Seq Bos r) false None s = None).
  { destruct s as [|x s]; [cbn [scan]; rewrite Ha; reflexivity|].
    rewrite scan_next by exact Ha. rewrite bos_only_at_start. reflexivity. }
  rewrite E. reflexivity.
Qed.

Lemma re_sub_bos_some (r : regex) (tpl : list titem) (s : str) (m : mobj) (y : char) :
  attempt (Seq Bos r) false (Cursor None s) = Some m ->
  before (m_end m) = Some y ->
  re_sub (Seq Bos r) tpl s = expand tpl m ++ rest (m_end m).
Proof.
  intros Ha Hb. unfold re_sub.
  replace (2 * length s + 2) with (S (S (2 * length s))) by lia.
  cbn [sub_loop]. rewrite (scan_here _ _ _ _ _ Ha).
  destruct (attempt_some _ _ _ _ Ha) as (_ & -> & _).
  rewrite Hb, bos_only_at_start. reflexivity.
Qed.

Lemma move_from_some (w : str) : forall y, exists y', move (Some y) w = Some y'.
Proof.
  induction w as [|x w IH]; intros y; [exists y; reflexivity|].
  simpl. apply IH.
Qed.

Lemma head_not_space (t : str) :
  lstrip t = t -> match t with [] => true | x :: _ => negb (isspace x) end = true.
Proof.
  destruct t as [|x t]; [reflexivity|]. intros H.
  apply lstrip_head in H. rewrite H. reflexivity.
Qed.

(** The number prefix at the first try: the digits, the period and all
    the whitespace that follows. *)
Lemma first_number_prefix (d w t : str) :
  forallb isdecimal d = true -> d <> [] -> blank w = true -> w <> [] ->
  lstrip t = t ->
  exists y,
    first_match re_number_prefix (Cursor None (d ++ 46%N :: w ++ t)) []
                (Cursor (Some y) t, []).
Proof.
  intros Hd Hdn Hw Hwn Ht.
  destruct (move_from_some w 46%N) as (y & Ey). exists y.
  unfold re_number_prefix. cbn [seqs].
  eapply first_seq; [exists []; reflexivity|]. cbn [fst snd].
  eapply first_seq.
  { apply (first_rep_cls isdecimal 1 d); [exact Hd| |reflexivity].
    destruct d; [congruence|simpl; lia]. }
  cbn [fst snd]. eapply first_seq; [apply first_lit|]. cbn [fst snd].
  rewrite <- Ey. apply (first_rep_cls isspace 1 w); [exact Hw| |].
  - destruct w; [congruence|simpl; lia].
  - apply head_not_space. exact Ht.
Qed.

(** What [re.sub(r'^\d+\.\s+', '', s)] returns: [s], or what follows the
    number, the period and the whitespace at its start. *)
Lemma number_prefix_removed (s : str) :
  re_sub re_number_prefix [] s = s
  \/ exists d w,
       s = d ++ 46%N :: w ++ re_sub re_number_prefix [] s
       /\ forallb isdecimal d = true /\ d <> [] /\ blank w = true /\ w <> []
       /\ lstrip (re_sub re_number_prefix [] s) = re_sub re_number_prefix [] s.
Proof.
  destruct (attempt re_number_prefix false (Cursor None s)) as [m|] eqn:Ha.
  - right. destruct (attempt_some _ _ _ _ Ha) as (Hin & _).
    apply run_sound in Hin. simpl in Hin.
    destruct Hin as (c0 & (_ & ->) & c1 & H1 & c2 & (s2 & E2 & ->) & H3).
    apply (reaches_rep_cls_sound true 1 isdecimal) in H1.
    destruct H1 as (d & E1 & Hd & Hld). simpl in E1.
    apply (reaches_rep_cls_sound true 1 isspace) in H3.
    destruct H3 as (w0 & E3 & Hw0 & Hlw). simpl in E3.
    destruct (lstrip_split (rest (m_end m))) as (p & Ep & Hp).
    set (t := lstrip (rest (m_end m))) in *.
    assert (Es : s = d ++ 46%N :: (w0 ++ p) ++ t).
    { rewrite E1, E2, E3, Ep, <- app_assoc. reflexivity. }
    assert (Hdn : d <> []) by (destruct d; [simpl in Hld; lia|discriminate]).
    assert (Hwn : w0 ++ p <> []) by (destruct w0; [simpl in Hlw; lia|discriminate]).
    assert (Hw : blank (w0 ++ p) = true)
      by (rewrite blank_app; unfold blank at 1; rewrite Hw0, Hp; reflexivity).
    destruct (first_number_prefix d (w0 ++ p) t Hd Hdn Hw Hwn (lstrip_idem _))
      as (y & Hf).
    rewrite <- Es in Hf. pose proof (attempt_of_first _ _ _ Hf) as Ha'.
    cbn [fst snd] in Ha'.
    assert (Er : re_sub re_number_prefix [] s = t).
    { unfold re_number_prefix in *. cbn [seqs] in *.
      rewrite (re_sub_bos_some _ [] s _ y Ha'); reflexivity. }
    rewrite Er. exists d, (w0 ++ p). repeat split; auto. apply lstrip_idem.
  - left. unfold re_number_prefix in *. cbn [seqs] in *.
    apply re_sub_bos_none. exact Ha.
Qed.

(** ** Trimmed texts *)

Lemma trimmed_strip (s : str) : trimmed (strip s).
Proof. apply strip_idem. Qed.

Lemma trimmed_clean_text (x : str) : trimmed (clean_text x).
Proof. apply strip_clean_text. Qed.

Lemma trimmed_suffix (X t : str) : trimmed (X ++ t) -> lstrip t = t -> trimmed t.
Proof.
  unfold trimmed. intros HX Ht. destruct t as [|c t]; [reflexivity|].
  pose proof (lstrip_head _ _ _ Ht) as Hc.
  destruct (@exists_last _ (c :: t)) as (u & z & E); [discriminate|].
  apply strip_fixed; [exact Hc|]. rewrite E, last_last.
  rewrite E, app_assoc in HX. eapply strip_last; eauto.
Qed.

Lemma no_nl_app (a b : str) : no_nl (a ++ b) = no_nl a && no_nl b.
Proof. apply forallb_app. Qed.

Lemma no_nl_strip (s : str) : no_nl s = true -> no_nl (strip s) = true.
Proof.
  destruct (strip_split s) as (p & q & E & _). intros H. rewrite E in H.
  rewrite !no_nl_app in H. apply andb_true_iff in H. destruct H as (_ & H).
  apply andb_true_iff in H. tauto.
Qed.

(** ** The name of a card *)

Lemma before_first_prefix (sep s : str) : exists t, s = before_first sep s ++ t.
Proof.
  induction s as [|c s (t & E)]; [exists []; reflexivity|].
  cbn [before_first]. destruct (startswith sep (c :: s)).
  - exists (c :: s). reflexivity.
  - exists t. simpl. rewrite <- E. reflexivity.
Qed.

Lemma contains_before_first (sep s : str) :
  sep <> [] -> contains sep (before_first sep s) = false.
Proof.
  intros Hn. induction s as [|c s IH].
  - destruct sep; [congruence|reflexivity].
  - cbn [before_first].
    destruct (startswith sep (c :: s)) eqn:Hs.
    + destruct sep; [congruence|reflexivity].
    + cbn [contains]. rewrite IH, orb_false_r.
      destruct (startswith sep (c :: before_first sep s)) eqn:Hs'; [|reflexivity].
      destruct (before_first_prefix sep s) as (t & E).
      apply (startswith_app _ _ t) in Hs'. simpl app in Hs'. rewrite <- E in Hs'.
      congruence.
Qed.

Lemma raw_header_line (block : str) :
  no_nl (strip (hd [] (split_nl (strip block)))) = true.
Proof.
  apply no_nl_strip. pose proof (split_nl_lines (strip block)) as H.
  destruct (split_nl (strip block)); [reflexivity|]. inversion H; assumption.
Qed.

Lemma number_prefix_removed_line (s : str) :
  no_nl s = true -> no_nl (re_sub re_number_prefix [] s) = true.
Proof.
  intros H. destruct (number_prefix_removed s) as [->|(d & w & E & _)]; [exact H|].
  rewrite E in H.
  change (d ++ 46%N :: w ++ re_sub re_number_prefix [] s)
    with (d ++ [46%N] ++ w ++ re_sub re_number_prefix [] s) in H.
  rewrite !no_nl_app in H. repeat (apply andb_true_iff in H; destruct H as (_ & H)).
  exact H.
Qed.

Lemma number_prefix_removed_trimmed (s : str) :
  trimmed s -> trimmed (re_sub re_number_prefix [] s).
Proof.
  intros H. destruct (number_prefix_removed s) as [->|(d & w & E & _ & _ & _ & _ & Hl)];
    [exact H|].
  rewrite E in H.
  change (d ++ 46%N :: w ++ re_sub re_number_prefix [] s)
    with (d ++ [46%N] ++ w ++ re_sub re_number_prefix [] s) in H.
  rewrite !app_assoc in H. eapply trimmed_suffix; eauto.
Qed.

Lemma block_card_name_clean (block : str) :
  trimmed (block_card_name block)
  /\ no_nl (block_card_name block) = true
  /\ contains first_marker (block_card_name block) = false.
Proof.
  unfold block_card_name.
  set (raw := strip (hd [] (split_nl (strip block)))).
  pose proof (raw_header_line block) as Hraw. fold raw in Hraw.
  pose proof (number_prefix_removed_line raw Hraw) as Hl.
  pose proof (number_prefix_removed_trimmed raw (trimmed_strip _)) as Ht.
  set (name := re_sub re_number_prefix [] raw) in *.
  destruct (contains first_marker name) eqn:Hc.
  - split; [apply trimmed_strip|]. split.
    + apply no_nl_strip. destruct (before_first_prefix first_marker name) as (t & E).
      rewrite E, no_nl_app in Hl. apply andb_true_iff in Hl. tauto.
    + rewrite contains_marker_strip. apply contains_before_first. discriminate.
  - auto.
Qed.

Lemma searched_section_trimmed (r : regex) (block : str) :
  trimmed (searched_section r block).
Proof.
  unfold searched_section. destruct (re_search r block); [|reflexivity].
  apply trimmed_clean_text.
Qed.

(** X6. In every record that [parse_card_block] emits, the name and the
    two meanings have no whitespace at either end; the name is on one line
    and does not hold the first section marker. *)
Theorem emitted_fields_are_trimmed (block : str) :
  match parse_card_block block with
  | Some r =>
    trimmed (card_name r) /\ trimmed (meaning_up r) /\ trimmed (meaning_down r)
    /\ no_nl (card_name r) = true
    /\ contains first_marker (card_name r) = false
  | None => True
  end.
Proof.
  destruct (parse_card_block block) as [r|] eqn:E; [|exact I].
  apply parse_card_block_fields in E. subst r. simpl.
  destruct (block_card_name_clean block) as (H1 & H2 & H3).
  repeat split; auto.
  - apply trimmed_strip.
  - apply searched_section_trimmed.
Qed.

(** ** How [meaning_up] is put together *)

Lemma strip_fixed_app (c0 : char) (L t : str) :
  isspace c0 = false -> trimmed t -> t <> [] ->
  strip (c0 :: L ++ t) = c0 :: L ++ t.
Proof.
  intros Hc Ht Hn. apply strip_fixed; [exact Hc|].
  destruct (@exists_last _ t Hn) as (u & z & E).
  unfold trimmed in Ht. rewrite E in Ht. pose proof (strip_last _ _ _ Ht) as Hz.
  rewrite E. change (c0 :: L ++ u ++ [z]) with ((c0 :: L) ++ u ++ [z]).
  rewrite app_assoc, last_last. exact Hz.
Qed.

(** X7. [meaning_up] is the cleaned section 2 under its label, the cleaned
    section 3 under its label, a blank line between them when both are
    there, and nothing else; it is empty only when both sections are. *)
Theorem meaning_up_assembly (block : str) :
  block_meaning_up block
  = match searched_section re_desc block, searched_section re_practical block with
    | [], [] => []
    | (_ :: _) as d, [] => desc_label ++ nl :: d
    | [], (_ :: _) as p => practical_label ++ nl :: p
    | (_ :: _) as d, (_ :: _) as p =>
      desc_label ++ nl :: d ++ [nl; nl] ++ practical_label ++ nl :: p
    end.
Proof.
  unfold block_meaning_up.
  pose proof (searched_section_trimmed re_desc block) as Hd.
  pose proof (searched_section_trimmed re_practical block) as Hp.
  destruct (searched_section re_desc block) as [|d0 d];
    destruct (searched_section re_practical block) as [|p0 p];
    cbn [nonempty app].
  - reflexivity.
  - apply (strip_fixed_app 91%N (tl practical_label ++ [nl]) (p0 :: p));
      [reflexivity|exact Hp|discriminate].
  - replace (utf8 "[회화적 설명]" ++ nl :: d0 :: d ++ [nl; nl])
      with ([] ++ (desc_label ++ nl :: d0 :: d) ++ [nl; nl])
      by (cbn [app]; rewrite <- app_assoc; reflexivity).
    rewrite strip_blank_ends by reflexivity.
    apply (strip_fixed_app 91%N (tl desc_label ++ [nl]) (d0 :: d));
      [reflexivity|exact Hd|discriminate].
  - assert (E : (utf8 "[회화적 설명]" ++ nl :: d0 :: d ++ [nl; nl]) ++
                 utf8 "[실전 상담]" ++ nl :: p0 :: p
                 = desc_label ++ nl :: d0 :: d ++ nl :: nl :: practical_label ++ nl :: p0 :: p).
    { change (utf8 "[회화적 설명]") with desc_label.
      change (utf8 "[실전 상담]") with practical_label.
      rewrite <- !app_assoc. cbn [app]. rewrite <- !app_assoc. reflexivity. }
    rewrite E.
    assert (E' : desc_label ++ nl :: d0 :: d ++ nl :: nl :: practical_label ++ nl :: p0 :: p
                 = 91%N :: (tl desc_label ++ nl :: d0 :: d ++ nl :: nl :: practical_label ++ [nl])
                        ++ p0 :: p).
    { change (91%N :: ?l ++ ?t) with ((91%N :: l) ++ t).
      change (91%N :: tl desc_label ++ ?l) with (desc_label ++ l).
      rewrite <- !app_assoc. cbn [app]. rewrite <- !app_assoc. reflexivity. }
    rewrite E'. apply strip_fixed_app; [reflexivity|exact Hp|discriminate].
Qed.

(** ** Blocks without a section *)

Lemma scan_found (r : regex) :
  forall s adv b m, scan r adv b s = Some m ->
    exists cur, In (m_end m, m_caps m) (run r cur []) /\ s = m_pre m ++ rest cur.
Proof.
  induction s as [|x s IH]; intros adv b m H; cbn [scan] in H.
  - destruct (attempt r adv (Cursor b [])) as [m0|] eqn:Ha; [|discriminate].
    inversion H; subst m0. destruct (attempt_some _ _ _ _ Ha) as (Hin & Hpre & _).
    exists (Cursor b []). rewrite Hpre. auto.
  - destruct (attempt r adv (Cursor b (x :: s))) as [m0|] eqn:Ha.
    + inversion H; subst m0. destruct (attempt_some _ _ _ _ Ha) as (Hin & Hpre & _).
      exists (Cursor b (x :: s)). rewrite Hpre. auto.
    + destruct (scan r false (Some x) s) as [m1|] eqn:Hs; [|discriminate].
      inversion H; subst m; simpl.
      destruct (IH _ _ _ Hs) as (cur & Hin & E). exists cur. rewrite E at 1. auto.
Qed.

(** A pattern that starts with two literal characters is found only in a
    text that holds them. *)
Lemma search_needs_start (a b : char) (r1 r2 : regex) (s : str) :
  contains [a; b] s = false ->
  re_search (Seq (Seq (Lit a) (Seq (Lit b) r1)) r2) s = None.
Proof.
  intros Hc. unfold re_search.
  destruct (scan _ false None s) as [m|] eqn:Hs; [exfalso|reflexivity].
  destruct (scan_found _ _ _ _ _ Hs) as (cur & Hin & E).
  apply run_sound in Hin. simpl in Hin.
  destruct Hin as (c1 & (c2 & (s2 & E2 & ->) & c3 & (s3 & E3 & ->) & _) & _).
  simpl in E3. subst s2. rewrite E2 in E.
  assert (H : contains [a; b] s = true)
    by (apply contains_iff; exists (m_pre m), s3; exact E).
  congruence.
Qed.

Lemma contains_paren (n : char) (s : str) :
  contains [41%N] s = false -> contains [n; 41%N] s = false.
Proof.
  intros H. destruct (contains [n; 41%N] s) eqn:E; [|reflexivity].
  apply contains_iff in E. destruct E as (a & t & ->).
  assert (H' : contains [41%N] (a ++ [n; 41%N] ++ t) = true)
    by (apply contains_iff; exists (a ++ [n]), t; rewrite <- app_assoc; reflexivity).
  congruence.
Qed.

Lemma no_keywords_without_section (block : str) :
  contains (utf8 "1)") block = false -> block_keywords block = [].
Proof.
  intros H. unfold block_keywords, re_keywords. cbn [seqs].
  unfold section_start at 1. cbn [seqs utf8 lits map].
  rewrite (search_needs_start _ _ _ _ block H). reflexivity.
Qed.

Lemma no_section_text (n label : String.string) (c : char) (rs : list regex) (r : regex)
      (block : str) :
  utf8 n = [c] -> contains [c; 41%N] block = false ->
  searched_section (seqs (section_start n label :: r :: rs)) block = [].
Proof.
  intros En H. unfold searched_section. cbn [seqs].
  unfold section_start. cbn [seqs]. unfold lits. rewrite En. cbn [map seqs].
  rewrite (search_needs_start _ _ _ _ block H). reflexivity.
Qed.

(** X8. A section that is not announced gives an empty field: without
    "1)" there are no keywords, without "2)" and "3)" [meaning_up] is empty,
    without "4)" [meaning_down] is empty; a block with no closing
    parenthesis at all gives no record. *)
Theorem missing_sections_are_empty (block : str) :
  (contains (utf8 "1)") block = false -> block_keywords block = [])
  /\ (contains (utf8 "2)") block = false -> contains (utf8 "3)") block = false ->
      block_meaning_up block = [])
  /\ (contains (utf8 "4)") block = false -> block_meaning_down block = [])
  /\ (contains (utf8 ")") block = false -> parse_card_block block = None).
Proof.
  assert (Hup : contains (utf8 "2)") block = false ->
                contains (utf8 "3)") block = false -> block_meaning_up block = []).
  { intros H2 H3. unfold block_meaning_up, re_desc, re_practical.
    rewrite (no_section_text "2"%string "회화적"%string 50%N _ _ block eq_refl H2).
    rewrite (no_section_text "3"%string "실전"%string 51%N _ _ block eq_refl H3). reflexivity. }
  assert (Hdown : contains (utf8 "4)") block = false -> block_meaning_down block = []).
  { intros H4. unfold block_meaning_down, re_tip.
    apply (no_section_text "4"%string "상담"%string 52%N _ _ block eq_refl H4). }
  split; [apply no_keywords_without_section|]. split; [exact Hup|].
  split; [exact Hdown|].
  intros H. unfold parse_card_block.
  destruct (split_nl (strip block)); [reflexivity|].
  rewrite (no_keywords_without_section block (contains_paren 49%N _ H)).
  rewrite (Hup (contains_paren 50%N _ H) (contains_paren 51%N _ H)).
  rewrite (Hdown (contains_paren 52%N _ H)). reflexivity.
Qed.

Lemma missing_sections_are_empty_witness :
  block_meaning_down example_block <> []
  /\ block_meaning_up (utf8 "1. A 1) 키워드 - x, y") = []
  /\ block_meaning_down (utf8 "1. A 1) 키워드 - x, y") = []
  /\ parse_card_block (utf8 "12. Appendix") = None.
Proof.
  split; [discriminate|]. split; [|split].
  - apply (missing_sections_are_empty (utf8 "1. A 1) 키워드 - x, y")); reflexivity.
  - apply (missing_sections_are_empty (utf8 "1. A 1) 키워드 - x, y")); reflexivity.
  - apply (missing_sections_are_empty (utf8 "12. Appendix")); reflexivity.
Defined.

(** ** The name of a block that starts with a header *)

Lemma lstrip_strip (s : str) : lstrip (strip s) = strip s.
Proof.
  destruct (strip s) as [|c t] eqn:E; [reflexivity|].
  apply lstrip_cons. eapply strip_head; eauto.
Qed.

Lemma number_prefix_stripped (d w t : str) :
  forallb isdecimal d = true -> d <> [] -> blank w = true -> w <> [] ->
  lstrip t = t ->
  re_sub re_number_prefix [] (d ++ 46%N :: w ++ t) = t.
Proof.
  intros Hd Hdn Hw Hwn Ht.
  destruct (first_number_prefix d w t Hd Hdn Hw Hwn Ht) as (y & Hf).
  pose proof (attempt_of_first _ _ _ Hf) as Ha. cbn [fst snd] in Ha.
  unfold re_number_prefix in *. cbn [seqs] in *.
  rewrite (re_sub_bos_some _ [] _ _ y Ha); reflexivity.
Qed.

Lemma strip_header_line (h : header) :
  well_formed_header h = true ->
  strip (header_line h) = h_number h ++ 46%N :: h_gap h ++ strip (h_label h).
Proof.
  intros H. apply well_formed_header_spec in H.
  destruct H as (Hi & _ & (d & ds & En & Hd) & _ & _ & _ & _ & (c & t & El & Hc) & _).
  unfold header_line, strip. rewrite lstrip_blank by exact Hi.
  rewrite En, El. cbn [app]. apply digit_not_space in Hd.
  rewrite !lstrip_cons by assumption.
  change (d :: ds ++ 46%N :: h_gap h ++ c :: t)
    with ((d :: ds) ++ [46%N] ++ h_gap h ++ c :: t).
  rewrite rstrip_after_nonspace by reflexivity.
  change (h_gap h ++ c :: t) with (h_gap h ++ [c] ++ t).
  rewrite rstrip_after_nonspace by exact Hc.
  rewrite rstrip_cons by exact Hc. reflexivity.
Qed.

(** The first line of a block is what stands before its first newline,
    when that starts and ends with something else than whitespace. *)
Lemma first_line_of_block (c : char) (l content : str) :
  isspace c = false -> isspace (last (c :: l) nl) = false -> no_nl (c :: l) = true ->
  hd [] (split_nl (strip ((c :: l) ++ nl :: content))) = c :: l.
Proof.
  intros Hc Hl Hn. unfold strip. cbn [app]. rewrite lstrip_cons by exact Hc.
  destruct (@exists_last _ (c :: l)) as (u & z & E); [discriminate|].
  change (c :: l ++ nl :: content) with ((c :: l) ++ nl :: content).
  rewrite E in *. rewrite last_last in Hl. rewrite <- app_assoc.
  rewrite rstrip_after_nonspace by exact Hl. rewrite app_assoc.
  destruct (rstrip_split (nl :: content)) as (q & Eq & _).
  destruct (rstrip (nl :: content)) as [|x r].
  - rewrite app_nil_r, split_nl_one by exact Hn. reflexivity.
  - simpl in Eq. inversion Eq; subst x.
    rewrite split_nl_line by exact Hn. reflexivity.
Qed.

Lemma name_of_header_block (h : header) (content : str) :
  well_formed_header h = true ->
  block_card_name (strip (header_line h) ++ nl :: content) = expected_name h.
Proof.
  intros H. pose proof (strip_header_line h H) as Es.
  pose proof (trimmed_strip (header_line h)) as Ht.
  apply well_formed_header_spec in H.
  destruct H as (_ & _ & (d & ds & En & Hd) & Hds & (g & gs & Eg) & Hg & Hgn
                 & (c & t & El & Hc) & Hln).
  assert (Hnl : no_nl (strip (header_line h)) = true).
  { rewrite Es.
    change (h_number h ++ 46%N :: h_gap h ++ strip (h_label h))
      with (h_number h ++ [46%N] ++ h_gap h ++ strip (h_label h)).
    rewrite !no_nl_app, Hgn, (no_nl_strip _ Hln), !andb_true_r.
    clear - Hds. induction (h_number h) as [|x n IH]; [reflexivity|].
    simpl in *. apply andb_true_iff in Hds. destruct Hds as (Hx & Hn).
    rewrite (IH Hn), andb_true_r. destruct (N.eqb_spec x nl); [subst; discriminate|].
    reflexivity. }
  unfold block_card_name.
  assert (E1 : hd [] (split_nl (strip (strip (header_line h) ++ nl :: content)))
               = strip (header_line h)).
  { destruct (strip (header_line h)) as [|x l] eqn:E.
    - rewrite En in Es. discriminate Es.
    - apply first_line_of_block.
      + eapply strip_head; eauto.
      + destruct (@exists_last _ (x :: l)) as (u & z & E'); [discriminate|].
        rewrite E', last_last. rewrite E' in E. eapply strip_last; eauto.
      + exact Hnl. }
  rewrite E1, Ht, Es.
  rewrite number_prefix_stripped.
  - reflexivity.
  - exact Hds.
  - rewrite En. discriminate.
  - exact Hg.
  - rewrite Eg. discriminate.
  - apply lstrip_strip.
Qed.

(** X9. The name of a block that starts with a well-formed header line is
    the label of the header, trimmed and cut before the first section
    marker: the indentation, the index, the period and the gap are gone,
    and what follows the header line does not count. *)
Theorem block_card_name_of_header (h : header) (content : str) :
  well_formed_header h = true ->
  block_card_name (strip (header_line h) ++ nl :: content) = expected_name h
  /\ (contains first_marker (h_label h) = false ->
      block_card_name (strip (header_line h) ++ nl :: content) = strip (h_label h)).
Proof.
  intros H. rewrite (name_of_header_block h content H). split; [reflexivity|].
  intros Hm. unfold expected_name. rewrite contains_marker_strip, Hm. reflexivity.
Qed.

Lemma block_card_name_of_header_witness :
  block_card_name (strip (header_line (e_header entity_A)) ++ nl :: utf8 "1) 키워드")
  = expected_name (e_header entity_A)
  /\ expected_name (e_header entity_A) = utf8 "A".
Proof.
  split; [|reflexivity].
  apply (proj1 (block_card_name_of_header (e_header entity_A) (utf8 "1) 키워드")
                                          eq_refl)).
Defined.

(** ** Where the records come from *)

(** What the group of the header pattern holds: blanks, an index, a
    period and the rest of the line. *)
Lemma header_capture (cur c' : cursor) (cs' : caps) :
  In (c', cs') (run re_header cur []) ->
  exists w0 d t,
    group 1 cs' = Some (w0 ++ d ++ 46%N :: t)
    /\ blank w0 = true /\ forallb isdecimal d = true /\ d <> [].
Proof.
  unfold re_header. cbn [seqs]. intros Hin.
  remember (Seq (star ws) (Seq (plus digit) (Seq (Lit 46%N) (Seq (plus ws) (plus not_nl)))))
    as inner eqn:Ei.
  cbn [run] in Hin.
  apply in_flat_map in Hin. destruct Hin as ([c1 cs1] & _ & Hin).
  apply in_map_iff in Hin. destruct Hin as ([c2 cs2] & E & Hin).
  cbn [fst snd] in *. inversion E; subst c' cs'. clear E.
  apply run_sound in Hin. subst inner. cbn [reaches] in Hin.
  destruct Hin as (k2 & H2 & k3 & H3 & k4 & (s4 & E4 & ->) & k5 & H5 & H6).
  apply (reaches_rep_cls_sound true 0 isspace) in H2.
  destruct H2 as (w0 & E2 & Hw0 & _).
  apply (reaches_rep_cls_sound true 1 isdecimal) in H3.
  destruct H3 as (d & E3 & Hd & Hld).
  apply (reaches_rep_cls_sound true 1 isspace) in H5.
  destruct H5 as (w1 & E5 & _ & _). cbn [rest] in E5.
  apply (reaches_rep_cls_sound true 1 (fun c => negb (c =? nl)%N)) in H6.
  destruct H6 as (n & E6 & _ & _).
  exists w0, d, (w1 ++ n). repeat split; auto.
  - cbn [group Nat.eqb]. f_equal.
    destruct c1 as [b1 s1], c2 as [b2 s2]. cbn [rest] in *.
    assert (E : s1 = (w0 ++ d ++ 46%N :: w1 ++ n) ++ s2).
    { rewrite E2, E3, E4, E5, E6.
      rewrite <- !app_assoc. cbn [app]. rewrite <- !app_assoc. reflexivity. }
    rewrite E. apply taken_app.
  - destruct d; [simpl in Hld; lia|discriminate].
Qed.

Lemma strip_numbered (w0 d t : str) :
  blank w0 = true -> forallb isdecimal d = true -> d <> [] ->
  strip (w0 ++ d ++ 46%N :: t) = d ++ 46%N :: rstrip t.
Proof.
  intros Hw Hd Hn. unfold strip. rewrite lstrip_blank by exact Hw.
  destruct d as [|x d]; [congruence|]. cbn [app].
  simpl in Hd. apply andb_true_iff in Hd. destruct Hd as (Hx & _).
  rewrite lstrip_cons by (apply digit_not_space; exact Hx).
  change (x :: d ++ 46%N :: t) with ((x :: d) ++ [46%N] ++ t).
  rewrite rstrip_after_nonspace by reflexivity. reflexivity.
Qed.

Lemma split_loop_cons (r : regex) (groups : nat) :
  forall fuel adv b s, exists p ps, split_loop fuel r groups adv b s = p :: ps.
Proof.
  intros [|fuel] adv b s; cbn [split_loop]; [eauto|].
  destruct (scan r adv b s); eauto.
Qed.

Lemma candidates_numbered :
  forall fuel adv b s,
    Forall numbered_block (full_blocks (tl (split_loop fuel re_header 1 adv b s))).
Proof.
  induction fuel as [|fuel IH]; intros adv b s; cbn [split_loop]; [constructor|].
  destruct (scan re_header adv b s) as [m|] eqn:Hs; [|constructor].
  cbn [tl seq map app].
  destruct (split_loop_cons re_header 1 fuel (is_empty (m_text m))
                            (before (m_end m)) (rest (m_end m))) as (p & ps & E).
  pose proof (IH (is_empty (m_text m)) (before (m_end m)) (rest (m_end m))) as Hps.
  rewrite E in *. cbn [tl] in Hps. cbn [full_blocks]. constructor; [|exact Hps].
  destruct (scan_found _ _ _ _ _ Hs) as (cur & Hin & _).
  destruct (header_capture _ _ _ Hin) as (w0 & d & t & Eg & Hw & Hd & Hn).
  unfold group_text. rewrite Eg, strip_numbered by assumption.
  exists d, (rstrip t ++ [nl] ++ p). repeat split; auto.
  rewrite <- app_assoc. reflexivity.
Qed.

Lemma parse_full_text_in (text : str) (r : card) :
  In r (parse_full_text text) <->
  exists block, In block (segment text) /\ parse_card_block block = Some r.
Proof.
  unfold parse_full_text. rewrite in_flat_map. split.
  - intros (block & Hb & Hr). exists block. split; [exact Hb|].
    destruct (parse_card_block block) as [r'|]; [|destruct Hr].
    destruct Hr as [->|[]]. reflexivity.
  - intros (block & Hb & Hr). exists block. split; [exact Hb|].
    rewrite Hr. left. reflexivity.
Qed.

(** X10. Every record of [parse_full_text] is what [parse_card_block]
    makes of one candidate block of the text; that block starts with an
    index and a period, and it holds the first section marker. *)
Theorem records_come_from_numbered_blocks (text : str) (r : card) :
  In r (parse_full_text text) ->
  exists block,
    In block (candidates text) /\ numbered_block block
    /\ contains first_marker block = true
    /\ parse_card_block block = Some r.
Proof.
  intros H. apply parse_full_text_in in H. destruct H as (block & Hb & Hr).
  unfold segment in Hb. apply filter_In in Hb. destruct Hb as (Hc & Hm).
  exists block. repeat split; auto.
  unfold candidates, re_split in Hc.
  eapply (proj1 (Forall_forall _ _)) in Hc; [|apply candidates_numbered].
  exact Hc.
Qed.

Lemma records_come_from_numbered_blocks_witness :
  exists block,
    In block (candidates (document [] [entity_A; entity_B]))
    /\ numbered_block block
    /\ contains first_marker block = true
    /\ parse_card_block block = Some (Card (utf8 "B") [] [] [utf8 "y"]).
Proof.
  apply (records_come_from_numbered_blocks (document [] [entity_A; entity_B])).
  vm_compute. right. left. reflexivity.
Defined.

(** ** The records of a whole text *)

Lemma parse_card_block_record_ok (block : str) (r : card) :
  parse_card_block block = Some r -> record_ok r.
Proof.
  intros H. pose proof (parse_card_block_fields _ _ H) as E.
  unfold parse_card_block in H. destruct (split_nl (strip block)); [discriminate|].
  destruct (is_empty (block_meaning_up block) && is_empty (block_meaning_down block)
            && match block_keywords block with [] => true | _ :: _ => false end)
    eqn:Hc; [discriminate|].
  subst r. unfold record_ok. cbn [card_name meaning_up meaning_down keywords].
  destruct (block_card_name_clean block) as (H1 & H2 & H3).
  repeat split; auto.
  - destruct (block_keywords block); [|left; discriminate].
    destruct (block_meaning_up block); [|right; left; discriminate].
    destruct (block_meaning_down block); [discriminate Hc|right; right; discriminate].
  - apply block_keywords_clean.
  - apply trimmed_strip.
  - apply searched_section_trimmed.
Qed.

(** X11. Every record of [parse_full_text] has some content, clean
    keywords, trimmed name and meanings, and a one-line name without the
    first section marker; there are no more records than blocks with the
    marker. *)
Theorem parse_full_text_records_ok (text : str) :
  Forall record_ok (parse_full_text text)
  /\ length (parse_full_text text) <= length (segment text).
Proof.
  split.
  - apply Forall_forall. intros r Hr. apply parse_full_text_in in Hr.
    destruct Hr as (block & _ & Hr). eapply parse_card_block_record_ok; eauto.
  - unfold parse_full_text. induction (segment text) as [|b bs IH]; [simpl; lia|].
    cbn [flat_map]. rewrite length_app. destruct (parse_card_block b); simpl; lia.
Qed.

(** ** The order of the records of a document *)

Lemma names_of_blocks (es : list entity) (blocks : list str) :
  Forall (fun e => well_formed_header (e_header e) = true) es ->
  Forall2 starts_with_header es blocks ->
  subseq (names (flat_map (fun block => match parse_card_block block with
                                        | Some card_data => [card_data]
                                        | None => []
                                        end) blocks))
         (map (fun e => expected_name (e_header e)) es).
Proof.
  intros Hwf H. induction H as [|e block es blocks Hb _ IH]; [apply subseq_nil|].
  destruct Hb as (content & Eb).
  apply Forall_cons_iff in Hwf. destruct Hwf as (He & Hes). specialize (IH Hes).
  cbn [flat_map map]. destruct (parse_card_block block) as [r|] eqn:Hr.
  - apply parse_card_block_fields in Hr. unfold names. cbn [app map].
    rewrite Hr at 1. cbn [card_name]. rewrite Eb, name_of_header_block by exact He.
    apply subseq_keep. exact IH.
  - apply subseq_skip. exact IH.
Qed.

(** X12. In a document made of a preamble and well-formed entities, the
    names of the records are labels of the entities that hold the first
    section marker, in the order of the document, each at most once per
    entity. *)
Theorem names_follow_headers (preamble : list str) (ents : list entity) :
  forallb plain preamble = true -> forallb well_formed ents = true ->
  subseq (names (parse_full_text (document preamble ents)))
         (map (fun e => expected_name (e_header e)) (filter has_marker ents)).
Proof.
  intros Hp He. apply names_of_blocks; [|apply segment_of_document; assumption].
  apply Forall_forall. intros e Hin. apply filter_In in Hin. destruct Hin as (Hin & _).
  eapply (proj1 (forallb_forall _ _)) in He; [|exact Hin].
  unfold well_formed in He. apply andb_true_iff in He. tauto.
Qed.

Lemma names_follow_headers_witness :
  subseq (names (parse_full_text (document [] [entity_A; appendix; entity_B])))
         (map (fun e => expected_name (e_header e))
              (filter has_marker [entity_A; appendix; entity_B]))
  /\ names (parse_full_text (document [] [entity_A; appendix; entity_B]))
     = [utf8 "A"; utf8 "B"].
Proof.
  split; [|reflexivity].
  apply (names_follow_headers [] [entity_A; appendix; entity_B]); reflexivity.
Defined.

(** ** The strategies *)

Lemma read_pages_error (repair : str -> str) (pages : list page_read) :
  In ReadError pages -> forall full_text, read_pages repair pages full_text = None.
Proof.
  induction pages as [|p pages IH]; intros Hin full_text; [destruct Hin|].
  destruct p as [|[text|]]; cbn [read_pages].
  - reflexivity.
  - destruct Hin as [E|Hin]; [discriminate|].
    destruct (nonempty text); apply IH; exact Hin.
  - destruct Hin as [E|Hin]; [discriminate|]. apply IH; exact Hin.
Qed.

(** X13. When reading any page fails, each strategy returns the empty
    list, whatever the pages before it held. *)
Theorem strategies_give_nothing_on_error (pages : list page_read) :
  In ReadError pages ->
  strategy_pdfplumber pages = [] /\ strategy_pymupdf pages = []
  /\ strategy_pypdf pages = [].
Proof.
  intros H. unfold strategy_pdfplumber, strategy_pymupdf, strategy_pypdf, strategy.
  rewrite !(read_pages_error _ pages H). auto.
Qed.

Lemma strategies_give_nothing_on_error_witness :
  strategy_pypdf [ReadText (Some example_block)] <> []
  /\ strategy_pdfplumber [ReadText (Some example_block); ReadError] = []
  /\ strategy_pymupdf [ReadText (Some example_block); ReadError] = []
  /\ strategy_pypdf [ReadText (Some example_block); ReadError] = [].
Proof.
  split; [vm_compute; discriminate|].
  apply (strategies_give_nothing_on_error [ReadText (Some example_block); ReadError]).
  right. left. reflexivity.
Defined.

(** X14. Whatever the pages give, the records of each strategy have some
    content, clean keywords, trimmed name and meanings, and a one-line
    name without the first section marker. *)
Theorem strategies_emit_ok_records (pages : list page_read) :
  Forall record_ok (strategy_pdfplumber pages)
  /\ Forall record_ok (strategy_pymupdf pages)
  /\ Forall record_ok (strategy_pypdf pages).
Proof.
  assert (H : forall repair, Forall record_ok (strategy repair pages)).
  { intros repair. unfold strategy.
    destruct (read_pages repair pages []) as [full_text|]; [|constructor].
    apply Forall_forall. intros r Hr. apply parse_full_text_in in Hr.
    destruct Hr as (block & _ & Hr). eapply parse_card_block_record_ok; eauto. }
  repeat split; apply H.
Qed.

(** ** Nothing in a record is invented *)

Lemma part_of_refl (v : str) : part_of v v.
Proof. exists [], []. rewrite app_nil_r. reflexivity. Qed.

Lemma part_of_nil (s : str) : part_of [] s.
Proof. exists [], s. reflexivity. Qed.

Lemma part_of_trans (a b c : str) : part_of a b -> part_of b c -> part_of a c.
Proof.
  intros (p & q & ->) (p' & q' & ->). exists (p' ++ p), (q ++ q').
  rewrite <- !app_assoc. reflexivity.
Qed.

Lemma part_of_subseq (v s : str) : part_of v s -> subseq v s.
Proof.
  intros (p & q & ->).
  assert (H : subseq ([] ++ v ++ []) (p ++ v ++ q)).
  { apply subseq_app; [apply subseq_nil_l|].
    apply subseq_app; [apply subseq_refl|apply subseq_nil_l]. }
  cbn [app] in H. rewrite app_nil_r in H. exact H.
Qed.

Lemma part_of_in_nil (v : str) : part_of v [] -> v = [].
Proof.
  intros (p & q & E). symmetry in E. apply app_eq_nil in E. destruct E as (_ & E).
  apply app_eq_nil in E. tauto.
Qed.

Lemma part_of_suffix (p v : str) : part_of v (p ++ v).
Proof. exists p, []. rewrite app_nil_r. reflexivity. Qed.

Lemma part_of_prefix (v q : str) : part_of v (v ++ q).
Proof. exists [], q. reflexivity. Qed.

Lemma part_of_strip (s : str) : part_of (strip s) s.
Proof. destruct (strip_split s) as (p & q & E & _). exists p, q. exact E. Qed.

Lemma part_of_tl (s : str) : part_of (tl s) s.
Proof. destruct s as [|c s]; [apply part_of_nil|]. apply (part_of_suffix [c]). Qed.

Lemma part_no_nl (v s : str) : part_of v s -> no_nl s = true -> no_nl v = true.
Proof.
  intros (p & q & ->) H. rewrite !no_nl_app in H.
  apply andb_true_iff in H. destruct H as (_ & H). apply andb_true_iff in H. tauto.
Qed.

(** *** The captured groups are parts of the subject *)

Lemma position_step (s : str) (c : cursor) (x : char) (t : str) (b : option char) :
  position_in s c -> rest c = x :: t -> position_in s (Cursor b t).
Proof.
  intros (w & E) Hr. exists (w ++ [x]). rewrite E, Hr, <- app_assoc. reflexivity.
Qed.

Lemma iter_caps (s : str) (body : cursor -> caps -> list (cursor * caps))
      (greedy : bool) (lo : nat) :
  (forall c cs c' cs', In (c', cs') (body c cs) ->
                       position_in s c -> captured_in s cs ->
                       position_in s c' /\ captured_in s cs') ->
  forall fuel count c cs c' cs',
    In (c', cs') (iter body greedy lo fuel count c cs) ->
    position_in s c -> captured_in s cs ->
    position_in s c' /\ captured_in s cs'.
Proof.
  intros Hbody. induction fuel as [|fuel IH]; intros count c cs c' cs' Hin Hp Hc.
  - destruct Hin.
  - rewrite iter_unfold in Hin. cbv zeta in Hin.
    assert (Hcases :
      In (c', cs')
         (flat_map (fun m => if length (rest (fst m)) <? length (rest c)
                             then iter body greedy lo fuel (S count) (fst m) (snd m)
                             else []) (body c cs))
      \/ In (c', cs') (if lo <=? count then [(c, cs)] else [])).
    { destruct greedy; apply in_app_or in Hin; tauto. }
    clear Hin. destruct Hcases as [Hmore|Hstop].
    + apply in_flat_map in Hmore. destruct Hmore as ([c1 cs1] & Hb & Hin).
      cbn [fst snd] in Hin.
      destruct (length (rest c1) <? length (rest c)); [|destruct Hin].
      destruct (Hbody _ _ _ _ Hb Hp Hc) as (Hp1 & Hc1).
      eapply IH; eauto.
    + destruct (lo <=? count); [|destruct Hstop].
      destruct Hstop as [Heq|[]]. inversion Heq; subst. auto.
Qed.

Lemma run_caps (s : str) (r : regex) :
  forall c cs c' cs',
    In (c', cs') (run r c cs) -> position_in s c -> captured_in s cs ->
    position_in s c' /\ captured_in s cs'.
Proof.
  induction r as [|x|p|r1 IH1 r2 IH2|r1 IH1 r2 IH2|g lo r1 IH1|n r1 IH1| | |x];
    intros c cs c' cs' Hin Hp Hc; cbn [run] in Hin.
  - destruct Hin as [H|[]]. inversion H; subst. auto.
  - apply in_map_iff in Hin. destruct Hin as (c1 & Heq & Hin). inversion Heq; subst.
    apply in_advance in Hin. destruct Hin as (y & t & Hr & _ & ->).
    split; [eapply position_step; eauto|exact Hc].
  - apply in_map_iff in Hin. destruct Hin as (c1 & Heq & Hin). inversion Heq; subst.
    apply in_advance in Hin. destruct Hin as (y & t & Hr & _ & ->).
    split; [eapply position_step; eauto|exact Hc].
  - apply in_flat_map in Hin. destruct Hin as ([c1 cs1] & H1 & H2).
    destruct (IH1 _ _ _ _ H1 Hp Hc) as (Hp1 & Hc1). eapply IH2; eauto.
  - apply in_app_or in Hin. destruct Hin as [H|H]; eauto.
  - eapply iter_caps; eauto.
  - apply in_map_iff in Hin. destruct Hin as ([c1 cs1] & Heq & Hin).
    cbn [fst snd] in Heq. inversion Heq; subst c' cs'. clear Heq.
    destruct (IH1 _ _ _ _ Hin Hp Hc) as (Hp1 & Hc1). split; [exact Hp1|].
    intros k v [E|Hk]; [|eauto]. inversion E; subst k v.
    apply run_sound, taken_rest in Hin. destruct Hp as (w & ->).
    exists w, (rest c1). rewrite Hin. reflexivity.
  - destruct (before c); [destruct Hin|].
    destruct Hin as [H|[]]. inversion H; subst. auto.
  - destruct (rest c) as [|y [|z t]].
    + destruct Hin as [H|[]]. inversion H; subst. auto.
    + destruct (y =? nl)%N; [|destruct Hin].
      destruct Hin as [H|[]]. inversion H; subst. auto.
    + destruct Hin.
  - destruct (before c) as [y|].
    + destruct (y =? x)%N; [destruct Hin|].
      destruct Hin as [H|[]]. inversion H; subst. auto.
    + destruct Hin as [H|[]]. inversion H; subst. auto.
Qed.

Lemma group_in (n : nat) (cs : caps) (v : str) : group n cs = Some v -> In (n, v) cs.
Proof.
  induction cs as [|[k u] cs IH]; [discriminate|]. cbn [group].
  destruct (Nat.eqb_spec k n) as [->|_].
  - intros E. inversion E. left. reflexivity.
  - intros E. right. auto.
Qed.

(** A group of a match found in [s] is a part of [s]. *)
Lemma search_group_part (r : regex) (s : str) (m : mobj) (n : nat) :
  re_search r s = Some m -> part_of (group_text n m) s.
Proof.
  intros H. destruct (scan_found _ _ _ _ _ H) as (cur & Hin & E).
  destruct (run_caps s r _ _ _ _ Hin) as (_ & Hc).
  - exists (m_pre m). exact E.
  - intros k v [].
  - unfold group_text. destruct (group n (m_caps m)) as [v|] eqn:Eg; [|apply part_of_nil].
    apply group_in in Eg. eauto.
Qed.

Lemma group1_part (r : regex) (s : str) :
  part_of (group1_or_empty (re_search r s)) s.
Proof.
  destruct (re_search r s) as [m|] eqn:E; [|apply part_of_nil].
  eapply search_group_part; eauto.
Qed.

(** *** The pieces of a split are parts of the text *)

Lemma split_loop_parts (r : regex) :
  forall fuel adv b s,
    Forall (fun piece => part_of piece s) (split_loop fuel r 0 adv b s).
Proof.
  induction fuel as [|fuel IH]; intros adv b s; cbn [split_loop].
  - constructor; [apply part_of_refl|constructor].
  - destruct (scan r adv b s) as [m|] eqn:Hs.
    + destruct (scan_some _ _ _ _ _ Hs) as (E & _). cbn [seq map app].
      constructor.
      * rewrite E. apply part_of_prefix.
      * eapply Forall_impl; [|apply IH]. intros piece Hp. cbv beta in Hp.
        eapply part_of_trans; [exact Hp|]. rewrite E. rewrite app_assoc.
        apply part_of_suffix.
    + constructor; [apply part_of_refl|constructor].
Qed.

(** *** Lines *)

Lemma lines_are_parts (ls : list str) : Forall (fun l => part_of l (join_nl ls)) ls.
Proof.
  induction ls as [|l ls IH]; [constructor|].
  destruct ls as [|l' ls].
  - constructor; [apply part_of_refl|constructor].
  - rewrite join_nl_cons by discriminate. constructor.
    + apply part_of_prefix.
    + eapply Forall_impl; [|exact IH]. intros a Ha. cbv beta in Ha.
      eapply part_of_trans; [exact Ha|].
      exists (l ++ [nl]), []. rewrite app_nil_r, <- app_assoc. reflexivity.
Qed.

Lemma line_part (x l : str) : In l (split_nl x) -> part_of l x.
Proof.
  intros H. pose proof (lines_are_parts (split_nl x)) as HF.
  rewrite join_nl_split in HF. rewrite Forall_forall in HF. auto.
Qed.

(** A text without newline that lies in two joined texts lies in one of
    them. *)
Lemma part_across_nl (piece l J : str) :
  no_nl piece = true -> part_of piece (l ++ nl :: J) ->
  part_of piece l \/ part_of piece J.
Proof.
  intros Hn (p & q & E). symmetry in E. apply app_eq_app in E.
  destruct E as (u & [(E1 & E2)|(E1 & E2)]).
  - right. destruct u as [|x u].
    + cbn [app] in E2. destruct piece as [|y piece]; [apply part_of_nil|].
      inversion E2; subst y. discriminate Hn.
    + inversion E2; subst. exists u, q. reflexivity.
  - left. apply app_eq_app in E2.
    destruct E2 as (v & [(E3 & E4)|(E3 & E4)]).
    + destruct v as [|y v].
      * rewrite app_nil_r in E3. subst. apply part_of_suffix.
      * inversion E4; subst. rewrite no_nl_app in Hn.
        apply andb_true_iff in Hn. destruct Hn as (_ & Hn). discriminate Hn.
    + subst. exists p, v. reflexivity.
Qed.

Lemma part_in_line (piece : str) (ls : list str) :
  no_nl piece = true -> ls <> [] -> part_of piece (join_nl ls) ->
  exists l, In l ls /\ part_of piece l.
Proof.
  intros Hn. induction ls as [|l ls IH]; intros Hls H; [congruence|].
  destruct ls as [|l' ls].
  - exists l. split; [left; reflexivity|exact H].
  - rewrite join_nl_cons in H by discriminate.
    apply part_across_nl in H; [|exact Hn]. destruct H as [H|H].
    + exists l. split; [left; reflexivity|exact H].
    + destruct (IH ltac:(discriminate) H) as (a & Ha & Hp).
      exists a. split; [right; exact Ha|exact Hp].
Qed.

(** A one-line part of the cleaned text is a part of the text. *)
Lemma clean_text_piece (piece x : str) :
  no_nl piece = true -> part_of piece (clean_text x) -> part_of piece x.
Proof.
  intros Hn H. unfold clean_text in H. destruct (is_empty x).
  - apply part_of_in_nil in H. subst. apply part_of_nil.
  - fold (kept (split_nl x)) in H.
    apply (fun H => part_of_trans _ _ _ H (part_of_strip _)) in H.
    destruct (kept (split_nl x)) as [|k ks] eqn:Ek.
    + apply part_of_in_nil in H. subst. apply part_of_nil.
    + apply part_in_line in H; [|exact Hn|discriminate].
      destruct H as (l & Hl & Hp). rewrite <- Ek in Hl. apply filter_In in Hl.
      destruct Hl as (Hl & _). eapply part_of_trans; [exact Hp|].
      apply line_part. exact Hl.
Qed.

Lemma clean_text_deletes (x : str) : subseq (clean_text x) x.
Proof.
  unfold clean_text. destruct (is_empty x); [apply subseq_nil_l|].
  fold (kept (split_nl x)).
  eapply subseq_trans; [apply subseq_strip|].
  rewrite <- (join_nl_split x) at 2. apply subseq_join_kept.
Qed.

(** *** The fields *)

Lemma keyword_of_part (piece : str) : part_of (keyword_of piece) piece.
Proof.
  unfold keyword_of. destruct (startswith [45%N] (strip piece)).
  - eapply part_of_trans; [apply part_of_strip|].
    eapply part_of_trans; [apply part_of_tl|apply part_of_strip].
  - apply part_of_strip.
Qed.

Lemma sepfree_no_nl (k : str) : sepfree k = true -> no_nl k = true.
Proof.
  unfold sepfree, no_nl. intros H. apply forallb_forall. intros c Hc.
  eapply (proj1 (forallb_forall _ _)) in H; [|exact Hc].
  destruct (N.eqb_spec c nl) as [->|_]; [discriminate H|reflexivity].
Qed.

Lemma keywords_are_parts (block : str) :
  Forall (fun k => part_of k block) (block_keywords block).
Proof.
  unfold block_keywords. destruct (nonempty _); [|constructor].
  apply Forall_forall. intros k Hk. apply filter_In in Hk.
  destruct Hk as (Hk & _). apply in_map_iff in Hk.
  destruct Hk as (piece & <- & Hp).
  assert (Hs : sepfree piece = true).
  { unfold re_split, re_keyword_sep in Hp.
    eapply (proj1 (Forall_forall _ _)) in Hp;
      [|apply split_on_class with (p := one_of [44; 46; nl]%N); lia].
    exact Hp. }
  assert (Hpart : part_of piece
                          (clean_text (group1_or_empty (re_search re_keywords block)))).
  { unfold re_split in Hp.
    eapply (proj1 (Forall_forall _ _)) in Hp; [|apply split_loop_parts].
    exact Hp. }
  apply clean_text_piece in Hpart; [|apply sepfree_no_nl; exact Hs].
  eapply part_of_trans; [apply keyword_of_part|].
  eapply part_of_trans; [exact Hpart|apply group1_part].
Qed.

Lemma first_line_part (s : str) : part_of (hd [] (split_nl s)) s.
Proof.
  apply line_part. pose proof (split_nl_not_nil s) as H.
  destruct (split_nl s); [congruence|left; reflexivity].
Qed.

Lemma card_name_part (block : str) : part_of (block_card_name block) block.
Proof.
  unfold block_card_name.
  set (raw := strip (hd [] (split_nl (strip block)))).
  assert (Hraw : part_of raw block).
  { eapply part_of_trans; [apply part_of_strip|].
    eapply part_of_trans; [apply first_line_part|apply part_of_strip]. }
  assert (Hname : part_of (re_sub re_number_prefix [] raw) block).
  { eapply part_of_trans; [|exact Hraw].
    destruct (number_prefix_removed raw) as [->|(d & w & E & _)];
      [apply part_of_refl|].
    rewrite E at 2.
    change (d ++ 46%N :: w ++ re_sub re_number_prefix [] raw)
      with (d ++ [46%N] ++ w ++ re_sub re_number_prefix [] raw).
    rewrite !app_assoc. apply part_of_suffix. }
  destruct (contains first_marker _); [|exact Hname].
  eapply part_of_trans; [apply part_of_strip|].
  eapply part_of_trans; [|exact Hname].
  destruct (before_first_prefix first_marker (re_sub re_number_prefix [] raw)) as (t & E).
  rewrite E at 2. apply part_of_prefix.
Qed.

Lemma searched_section_deletes (r : regex) (block : str) :
  subseq (searched_section r block) block.
Proof.
  unfold searched_section. destruct (re_search r block) as [m|] eqn:E;
    [|apply subseq_nil_l].
  eapply subseq_trans; [apply clean_text_deletes|].
  apply part_of_subseq. eapply search_group_part; eauto.
Qed.

(** X15. Nothing in a record is invented: the name and each keyword are
    contiguous parts of the block, and the cleaned sections 2, 3 and 4, of
    which [meaning_up] and [meaning_down] are made, are the block with
    characters deleted. *)
Theorem record_text_comes_from_block (block : str) :
  part_of (block_card_name block) block
  /\ Forall (fun k => part_of k block) (block_keywords block)
  /\ subseq (searched_section re_desc block) block
  /\ subseq (searched_section re_practical block) block
  /\ subseq (block_meaning_down block) block.
Proof.
  split; [apply card_name_part|]. split; [apply keywords_are_parts|].
  repeat split; apply searched_section_deletes.
Qed.

(** ** The texts that [clean_text] leaves alone *)

(** X16. [clean_text] returns a text as it is exactly when the text has no
    whitespace at either end and the filter of the loop drops none of its
    lines. *)
Theorem clean_text_fixed_iff (x : str) :
  clean_text x = x <->
  trimmed x /\ Forall (fun l => dropped l = false) (split_nl x).
Proof.
  split.
  - intros E. split.
    + unfold trimmed. rewrite <- E. apply strip_clean_text.
    + rewrite <- E. apply clean_text_lines_not_dropped.
  - intros (Ht & Hl). unfold trimmed in Ht. rewrite <- Ht.
    apply clean_text_of_kept. exact Hl.
Qed.

(** ** Section starts after the repair *)

Lemma lost_section_1 : re_lost_section "1" "키워드" = lost 49%N (utf8 "키워드").
Proof. reflexivity. Qed.

Lemma lost_section_2 : re_lost_section "2" "회화적" = lost 50%N (utf8 "회화적").
Proof. reflexivity. Qed.

Lemma lost_section_3 : re_lost_section "3" "실전" = lost 51%N (utf8 "실전").
Proof. reflexivity. Qed.

Lemma lost_section_4 : re_lost_section "4" "상담" = lost 52%N (utf8 "상담").
Proof. reflexivity. Qed.

Lemma section_word_spec (a : char) (word : str) :
  section_word a word = true ->
  exists c w, word = c :: w /\ isspace c = false
              /\ forallb (fun c => negb (c =? a)%N && negb (c =? nl)%N) word = true.
Proof.
  unfold section_word. intros H. apply andb_true_iff in H. destruct H as (H1 & H2).
  destruct word as [|c w]; [discriminate H1|].
  exists c, w. apply negb_true_iff in H1. auto.
Qed.

Lemma section_digit_spec (a : char) :
  section_digit a = true -> a <> 41%N /\ isspace a = false /\ a <> nl.
Proof.
  unfold section_digit. intros H. apply andb_true_iff in H. destruct H as (H1 & H2).
  apply negb_true_iff in H1, H2. apply N.eqb_neq in H1.
  repeat split; auto. intros ->. discriminate H2.
Qed.

Lemma starts_section_inv (a : char) (word s : str) :
  starts_section a word s = true ->
  exists t, s = a :: 41%N :: t /\ startswith word (lstrip t) = true.
Proof.
  destruct s as [|x [|y t]]; try discriminate. cbn [starts_section].
  intros H. apply andb_true_iff in H. destruct H as (H & H3).
  apply andb_true_iff in H. destruct H as (H1 & H2).
  apply N.eqb_eq in H1, H2. subst. eauto.
Qed.

Lemma starts_section_head (a : char) (word : str) (x : char) (s : str) :
  x <> a -> starts_section a word (x :: s) = false.
Proof.
  intros H. destruct s as [|y t]; [reflexivity|]. cbn [starts_section].
  apply N.eqb_neq in H. rewrite H. reflexivity.
Qed.

(** *** The pattern at one position *)

Lemma first_lits (word : str) :
  word <> [] ->
  forall b q cs,
    first_match (lits word) (Cursor b (word ++ q)) cs (Cursor (move b word) q, cs).
Proof.
  induction word as [|x w IH]; intros Hn b q cs; [congruence|].
  destruct w as [|y w].
  - apply first_lit.
  - change (lits (x :: y :: w)) with (Seq (Lit x) (lits (y :: w))).
    eapply first_seq; [apply first_lit|]. cbn [fst snd].
    apply IH. discriminate.
Qed.

Lemma reaches_lits (word : str) :
  forall c c', reaches (lits word) c c' -> rest c = word ++ rest c'.
Proof.
  induction word as [|x w IH]; intros c c' H.
  - cbn in H. subst. reflexivity.
  - destruct w as [|y w].
    + cbn in H. destruct H as (s & E & ->). exact E.
    + change (lits (x :: y :: w)) with (Seq (Lit x) (lits (y :: w))) in H.
      cbn [reaches] in H. destruct H as (c1 & (s & E & ->) & H).
      apply IH in H. cbn [rest] in H. rewrite E, H. reflexivity.
Qed.

Lemma lstrip_to_word (w word q : str) (c : char) (u : str) :
  blank w = true -> word = c :: u -> isspace c = false ->
  lstrip (w ++ word ++ q) = word ++ q.
Proof.
  intros Hw -> Hc. rewrite lstrip_blank by exact Hw. cbn [app].
  apply lstrip_cons. exact Hc.
Qed.

Lemma attempt_lost_some (a : char) (word : str) (b : option char) (s : str) :
  section_digit a = true -> section_word a word = true ->
  starts_section a word s = true -> is_nl b = false ->
  exists body q,
    s = a :: body ++ q
    /\ forallb (fun c => negb (c =? a)%N) body = true
    /\ attempt (lost a word) false (Cursor b s)
       = Some (Mobj [] (a :: body) [(1, a :: body)] (Cursor (move (Some a) body) q)).
Proof.
  intros Ha Hw Hs Hb.
  destruct (section_digit_spec _ Ha) as (Ha1 & Ha2 & _).
  destruct (section_word_spec _ _ Hw) as (c & u & Ew & Hc & Hall).
  destruct (starts_section_inv _ _ _ Hs) as (t & -> & Hst).
  apply startswith_iff in Hst. destruct Hst as (q & Eq).
  destruct (lstrip_split t) as (w & Et & Hbl). rewrite Eq in Et.
  exists (41%N :: w ++ word), q. split; [|split].
  - cbn [app]. rewrite <- app_assoc, <- Et. reflexivity.
  - cbn [forallb]. apply andb_true_iff. split.
    + apply negb_true_iff, N.eqb_neq. congruence.
    + rewrite forallb_app. apply andb_true_iff. split.
      * apply forallb_forall. intros z Hz.
        eapply (proj1 (forallb_forall _ _)) in Hbl; [|exact Hz].
        apply negb_true_iff, N.eqb_neq. intros ->. congruence.
      * apply forallb_forall. intros z Hz.
        eapply (proj1 (forallb_forall _ _)) in Hall; [|exact Hz].
        apply andb_true_iff in Hall. tauto.
  - assert (Hf : first_match (lost a word) (Cursor b (a :: 41%N :: w ++ word ++ q)) []
                   (Cursor (move (Some a) (41%N :: w ++ word)) q,
                    [(1, taken (Cursor b (a :: 41%N :: w ++ word ++ q))
                               (Cursor (move (Some a) (41%N :: w ++ word)) q))])).
    { unfold lost. eapply first_seq.
      - unfold first_match. cbn [run before]. destruct b as [y|].
        + cbn [is_nl] in Hb. rewrite Hb. eexists. reflexivity.
        + eexists. reflexivity.
      - cbn [fst snd].
        apply (first_grp 1 _ _ _ (Cursor (move (Some a) (41%N :: w ++ word)) q, [])).
        eapply first_seq; [apply first_lit|]. cbn [fst snd].
        eapply first_seq; [apply first_lit|]. cbn [fst snd].
        eapply first_seq.
        + apply (first_rep_cls isspace 0 w); [exact Hbl|lia|].
          rewrite Ew. cbn [app]. rewrite Hc. reflexivity.
        + cbn [fst snd]. cbn [move fold_left]. rewrite fold_left_app.
          apply first_lits. rewrite Ew. discriminate. }
    rewrite Et. apply attempt_of_first in Hf. cbn [fst snd] in Hf. rewrite Hf.
    assert (Et' : taken (Cursor b (a :: 41%N :: w ++ word ++ q))
                        (Cursor (move (Some a) (41%N :: w ++ word)) q)
                  = a :: 41%N :: w ++ word).
    { replace (a :: 41%N :: w ++ word ++ q) with ((a :: 41%N :: w ++ word) ++ q)
        by (cbn [app]; rewrite <- app_assoc; reflexivity).
      apply taken_app. }
    rewrite Et'. reflexivity.
Qed.

Lemma attempt_lost_none (a : char) (word : str) (b : option char) (s : str) :
  section_word a word = true ->
  starts_section a word s && negb (is_nl b) = false ->
  attempt (lost a word) false (Cursor b s) = None.
Proof.
  intros Hw Hc. destruct (attempt _ false (Cursor b s)) as [m|] eqn:Ha; [|reflexivity].
  exfalso. destruct (section_word_spec _ _ Hw) as (c & u & Ew & Hcs & _).
  destruct (attempt_some _ _ _ _ Ha) as (Hin & _).
  apply run_sound in Hin. unfold lost in Hin. cbn [reaches] in Hin.
  destruct Hin as (c0 & (Hb & ->) & c1 & (s1 & E1 & ->) & c2 & (s2 & E2 & ->) & c3 & H3 & H4).
  apply (reaches_rep_cls_sound true 0 isspace) in H3.
  destruct H3 as (w & E3 & Hbl & _).
  apply reaches_lits in H4. cbn [rest before] in *.
  assert (Hs : starts_section a word s = true).
  { rewrite E1, E2, E3, H4. cbn [starts_section]. rewrite !N.eqb_refl.
    rewrite (lstrip_to_word w word _ c u Hbl Ew Hcs).
    apply startswith_iff. eauto. }
  assert (Hn : is_nl b = false).
  { destruct b as [y|]; [|reflexivity]. cbn [is_nl].
    apply N.eqb_neq. intros ->. apply Hb. reflexivity. }
  rewrite Hs, Hn in Hc. discriminate Hc.
Qed.

(** *** One substitution, character by character *)

Lemma sub_loop_skip (r : regex) (tpl : list titem) (fuel : nat) (b : option char)
      (x : char) (s : str) :
  attempt r false (Cursor b (x :: s)) = None ->
  sub_loop (S fuel) r tpl false b (x :: s)
  = x :: sub_loop (S fuel) r tpl false (Some x) s.
Proof.
  intros Ha. cbn [sub_loop]. rewrite (scan_next _ _ _ _ _ Ha).
  destruct (scan r false (Some x) s) as [m|]; reflexivity.
Qed.

Lemma insert_nl_skip (a : char) (word : str) (u q : str) :
  forallb (fun c => negb (c =? a)%N) u = true ->
  forall b, insert_nl a word b (u ++ q) = u ++ insert_nl a word (move b u) q.
Proof.
  induction u as [|x u IH]; intros H b; [reflexivity|].
  cbn [forallb] in H. apply andb_true_iff in H. destruct H as (Hx & Hu).
  apply negb_true_iff, N.eqb_neq in Hx.
  cbn [app insert_nl]. change (x :: u ++ q) with (x :: (u ++ q)).
  rewrite (starts_section_head a word x (u ++ q) Hx). cbn [andb app].
  rewrite IH by exact Hu. reflexivity.
Qed.

Lemma sub_loop_insert (a : char) (word : str) :
  section_digit a = true -> section_word a word = true ->
  forall n s, length s <= n ->
    forall b fuel, length s < fuel ->
      sub_loop fuel (lost a word) newline_then_group false b s = insert_nl a word b s.
Proof.
  intros Ha Hw. induction n as [|n IH]; intros s Hn b fuel Hf;
    (destruct fuel as [|fuel]; [lia|]).
  - destruct s; [|simpl in Hn; lia]. cbn [sub_loop scan].
    rewrite attempt_lost_none by (exact Hw || reflexivity). reflexivity.
  - destruct s as [|x s].
    { cbn [sub_loop scan].
      rewrite attempt_lost_none by (exact Hw || reflexivity). reflexivity. }
    cbn [length] in Hn, Hf.
    destruct (starts_section a word (x :: s) && negb (is_nl b)) eqn:Hc.
    + apply andb_true_iff in Hc. destruct Hc as (Hs & Hb). apply negb_true_iff in Hb.
      destruct (attempt_lost_some a word b (x :: s) Ha Hw Hs Hb)
        as (body & q & E & Hbody & Hat).
      cbn [sub_loop]. rewrite (scan_here _ _ _ _ _ Hat).
      cbn [m_pre m_text m_caps m_end is_empty nonempty negb before rest app].
      unfold expand, newline_then_group, group_text.
      cbn [flat_map m_caps group Nat.eqb app].
      rewrite app_nil_r.
      assert (Hq : length q < length (x :: s)).
      { rewrite E. cbn [length]. rewrite length_app. lia. }
      cbn [length] in Hq.
      rewrite IH by (unfold str, char in *; lia).
      rewrite E. cbn [insert_nl].
      assert (Hs' : starts_section a word (a :: body ++ q) = true)
        by (rewrite <- E; exact Hs).
      rewrite Hs', Hb. cbn [andb negb app].
      rewrite insert_nl_skip by exact Hbody. reflexivity.
    + rewrite sub_loop_skip by (apply attempt_lost_none; assumption).
      cbn [insert_nl]. rewrite Hc. cbn [app]. f_equal.
      apply IH; unfold str, char in *; lia.
Qed.

Lemma re_sub_lost (a : char) (word : str) (s : str) :
  section_digit a = true -> section_word a word = true ->
  re_sub (lost a word) newline_then_group s = insert_nl a word None s.
Proof.
  intros Ha Hw. unfold re_sub.
  apply (sub_loop_insert a word Ha Hw (length s)); unfold str, char in *; lia.
Qed.

(** *** Section starts of the result are section starts of the text *)

Lemma insert_nl_cons (a : char) (word : str) (b : option char) (x : char) (s : str) :
  insert_nl a word b (x :: s)
  = (if starts_section a word (x :: s) && negb (is_nl b) then [nl] else [])
      ++ x :: insert_nl a word (Some x) s.
Proof. reflexivity. Qed.

Lemma startswith_inserted (a' : char) (word' : str) (w : str) :
  forallb (fun c => negb (c =? nl)%N) w = true ->
  forall b s, startswith w (insert_nl a' word' b s) = true -> startswith w s = true.
Proof.
  induction w as [|c w IH]; intros Hw b s H; [reflexivity|].
  cbn [forallb] in Hw. apply andb_true_iff in Hw. destruct Hw as (Hc & Hw).
  destruct s as [|x s]; [discriminate H|].
  rewrite insert_nl_cons in H.
  destruct (starts_section a' word' (x :: s) && negb (is_nl b)).
  - cbn [app startswith] in H. apply andb_true_iff in H. destruct H as (H & _).
    apply N.eqb_eq in H. subst c. discriminate Hc.
  - cbn [app startswith] in *. apply andb_true_iff in H. destruct H as (H1 & H2).
    rewrite H1. cbn [andb]. eapply IH; eauto.
Qed.

Lemma word_after_inserted (a' : char) (word' : str) (word : str) :
  section_digit a' = true -> section_word a' word = true ->
  forall b s,
    startswith word (lstrip (insert_nl a' word' b s)) = true ->
    startswith word (lstrip s) = true.
Proof.
  intros Ha' Hw.
  destruct (section_digit_spec _ Ha') as (_ & Hsp & _).
  destruct (section_word_spec _ _ Hw) as (c & u & Ew & Hc & Hall).
  assert (Hnl : forallb (fun c => negb (c =? nl)%N) word = true).
  { apply forallb_forall. intros z Hz.
    eapply (proj1 (forallb_forall _ _)) in Hall; [|exact Hz].
    apply andb_true_iff in Hall. tauto. }
  assert (Hca : c <> a').
  { rewrite Ew in Hall. cbn [forallb] in Hall.
    apply andb_true_iff in Hall. destruct Hall as (Hall & _).
    apply andb_true_iff in Hall. destruct Hall as (Hall & _).
    apply negb_true_iff, N.eqb_neq in Hall. exact Hall. }
  intros b s. revert b. induction s as [|x s IH]; intros b H; [exact H|].
  destruct (isspace x) eqn:Hx.
  - assert (Hxa : x <> a') by (intros ->; congruence).
    rewrite insert_nl_cons, (starts_section_head a' word' x s Hxa) in H.
    cbn [andb app lstrip] in *. rewrite Hx in *. eapply IH; eauto.
  - rewrite insert_nl_cons in H. cbn [lstrip]. rewrite Hx.
    destruct (starts_section a' word' (x :: s) && negb (is_nl b)) eqn:Hcond.
    + exfalso. apply andb_true_iff in Hcond. destruct Hcond as (Hs & _).
      apply starts_section_inv in Hs. destruct Hs as (t & E & _).
      inversion E; subst x. cbn [app lstrip] in H.
      change (isspace nl) with true in H. cbv iota in H. rewrite Hsp in H.
      rewrite Ew in H. cbn [startswith] in H.
      apply andb_true_iff in H. destruct H as (H & _). apply N.eqb_eq in H.
      congruence.
    + cbn [app lstrip] in H. rewrite Hx in H.
      apply (startswith_inserted a' word' word Hnl b (x :: s)).
      rewrite insert_nl_cons, Hcond. exact H.
Qed.

Lemma starts_section_inserted (a' : char) (word' : str) (a : char) (word : str)
      (x : char) (s : str) :
  section_digit a' = true -> section_word a' word = true ->
  starts_section a word (x :: insert_nl a' word' (Some x) s) = true ->
  starts_section a word (x :: s) = true.
Proof.
  intros Ha' Hw H.
  destruct (section_digit_spec _ Ha') as (Hp & _ & _).
  destruct s as [|y s]; [discriminate H|].
  rewrite insert_nl_cons in H.
  destruct (starts_section a' word' (y :: s) && negb (is_nl (Some x))) eqn:Hcond.
  - cbn [app starts_section] in H.
    change (nl =? 41)%N with false in H. rewrite andb_false_r in H. discriminate H.
  - cbn [app starts_section] in *.
    apply andb_true_iff in H. destruct H as (H12 & H3). rewrite H12. cbn [andb].
    eapply word_after_inserted; eauto.
Qed.

(** After the substitution for a section, its starts follow a newline. *)
Lemma settled_same (a : char) (word : str) :
  section_digit a = true -> section_word a word = true ->
  forall s b, settled a word b (insert_nl a word b s) = true.
Proof.
  intros Ha Hw. destruct (section_digit_spec _ Ha) as (_ & _ & Hnl).
  induction s as [|x s IH]; intros b; [reflexivity|].
  rewrite insert_nl_cons.
  destruct (starts_section a word (x :: s) && negb (is_nl b)) eqn:Hcond.
  - cbn [app settled].
    rewrite (starts_section_head a word nl _ (not_eq_sym Hnl)).
    cbn [negb orb andb is_nl]. rewrite N.eqb_refl, orb_true_r, IH. reflexivity.
  - cbn [app settled]. rewrite IH, andb_true_r.
    destruct (starts_section a word (x :: insert_nl a word (Some x) s)) eqn:Hs;
      [|reflexivity].
    apply starts_section_inserted in Hs; [|assumption|assumption].
    rewrite Hs in Hcond. cbn [andb] in Hcond. apply negb_false_iff in Hcond.
    rewrite Hcond. reflexivity.
Qed.

(** The substitution for another section leaves them there. *)
Lemma settled_kept (a' : char) (word' : str) (a : char) (word : str) :
  section_digit a' = true -> section_word a' word = true -> a <> nl ->
  forall s b, settled a word b s = true ->
              settled a word b (insert_nl a' word' b s) = true.
Proof.
  intros Ha' Hw Hnl.
  induction s as [|x s IH]; intros b H; [reflexivity|].
  cbn [settled] in H. apply andb_true_iff in H. destruct H as (H1 & H2).
  rewrite insert_nl_cons.
  destruct (starts_section a' word' (x :: s) && negb (is_nl b)) eqn:Hcond.
  - cbn [app settled].
    rewrite (starts_section_head a word nl _ (not_eq_sym Hnl)).
    cbn [negb orb andb is_nl]. rewrite N.eqb_refl, orb_true_r, IH by exact H2.
    reflexivity.
  - cbn [app settled]. rewrite IH, andb_true_r by exact H2.
    destruct (starts_section a word (x :: insert_nl a' word' (Some x) s)) eqn:Hs;
      [|reflexivity].
    apply starts_section_inserted in Hs; [|assumption|assumption].
    rewrite Hs in H1. exact H1.
Qed.

(** *** Reading [settled] *)

Lemma settled_no_match (a : char) (word : str) :
  section_word a word = true ->
  forall s b, settled a word b s = true -> scan (lost a word) false b s = None.
Proof.
  intros Hw. induction s as [|x s IH]; intros b H.
  - cbn [scan]. rewrite attempt_lost_none by (exact Hw || reflexivity). reflexivity.
  - cbn [settled] in H. apply andb_true_iff in H. destruct H as (H1 & H2).
    rewrite scan_next.
    + rewrite (IH _ H2). reflexivity.
    + apply attempt_lost_none; [exact Hw|].
      destruct (starts_section a word (x :: s)); [|reflexivity].
      cbn [negb orb] in H1. rewrite H1. reflexivity.
Qed.

Lemma settled_at (a : char) (word : str) (s : str) :
  starts_section a word s = true ->
  forall p b, settled a word b (p ++ s) = true -> is_nl (move b p) = true.
Proof.
  intros Hs. induction p as [|c p IH]; intros b H.
  - cbn [app] in H. destruct s as [|x s]; [discriminate Hs|].
    cbn [settled] in H. rewrite Hs in H. cbn [negb orb] in H.
    apply andb_true_iff in H. tauto.
  - cbn [app settled] in H. apply andb_true_iff in H. destruct H as (_ & H).
    apply (IH _ H).
Qed.

Lemma settled_starts_lines (a : char) (word t : str) :
  section_word a word = true ->
  settled a word None t = true -> starts_lines a word t.
Proof.
  intros Hw H p w q E Hbl.
  destruct (section_word_spec _ _ Hw) as (c & u & Ew & Hc & _).
  assert (Hs : starts_section a word (a :: 41%N :: w ++ word ++ q) = true).
  { cbn [starts_section]. rewrite !N.eqb_refl.
    rewrite (lstrip_to_word w word q c u Hbl Ew Hc). apply startswith_iff. eauto. }
  rewrite E in H. apply (settled_at _ _ _ Hs) in H.
  destruct p as [|z p] using rev_ind; [discriminate H|].
  exists p. rewrite move_app in H. cbn [move fold_left is_nl] in H.
  apply N.eqb_eq in H. subst. reflexivity.
Qed.

(** X17. In the text that [preprocess_pypdf] returns, every section start
    (the number, the parenthesis, optional whitespace and the first word
    of the title) is first on its line: what stands before it ends with a
    newline, and a further substitution for a section would find nothing
    to move. *)
Theorem sections_start_lines (text : str) :
  (starts_lines 49%N (utf8 "키워드") (preprocess_pypdf text)
   /\ starts_lines 50%N (utf8 "회화적") (preprocess_pypdf text)
   /\ starts_lines 51%N (utf8 "실전") (preprocess_pypdf text)
   /\ starts_lines 52%N (utf8 "상담") (preprocess_pypdf text))
  /\ re_search (re_lost_section "1" "키워드") (preprocess_pypdf text) = None
  /\ re_search (re_lost_section "2" "회화적") (preprocess_pypdf text) = None
  /\ re_search (re_lost_section "3" "실전") (preprocess_pypdf text) = None
  /\ re_search (re_lost_section "4" "상담") (preprocess_pypdf text) = None.
Proof.
  unfold preprocess_pypdf.
  rewrite lost_section_1, lost_section_2, lost_section_3, lost_section_4.
  set (t0 := re_sub re_lost_header newline_then_group text).
  rewrite (re_sub_lost 49%N (utf8 "키워드") t0 eq_refl eq_refl).
  set (t1 := insert_nl 49%N (utf8 "키워드") None t0).
  rewrite (re_sub_lost 50%N (utf8 "회화적") t1 eq_refl eq_refl).
  set (t2 := insert_nl 50%N (utf8 "회화적") None t1).
  rewrite (re_sub_lost 51%N (utf8 "실전") t2 eq_refl eq_refl).
  set (t3 := insert_nl 51%N (utf8 "실전") None t2).
  rewrite (re_sub_lost 52%N (utf8 "상담") t3 eq_refl eq_refl).
  set (t4 := insert_nl 52%N (utf8 "상담") None t3).
  assert (H1 : settled 49%N (utf8 "키워드") None t4 = true).
  { apply settled_kept; [reflexivity|reflexivity|discriminate|].
    apply settled_kept; [reflexivity|reflexivity|discriminate|].
    apply settled_kept; [reflexivity|reflexivity|discriminate|].
    apply settled_same; reflexivity. }
  assert (H2 : settled 50%N (utf8 "회화적") None t4 = true).
  { apply settled_kept; [reflexivity|reflexivity|discriminate|].
    apply settled_kept; [reflexivity|reflexivity|discriminate|].
    apply settled_same; reflexivity. }
  assert (H3 : settled 51%N (utf8 "실전") None t4 = true).
  { apply settled_kept; [reflexivity|reflexivity|discriminate|].
    apply settled_same; reflexivity. }
  assert (H4 : settled 52%N (utf8 "상담") None t4 = true)
    by (apply settled_same; reflexivity).
  split.
  - repeat split; apply settled_starts_lines; (reflexivity || assumption).
  - unfold re_search. repeat split; apply settled_no_match; (reflexivity || assumption).
Qed.

(** X18. The four section substitutions of [preprocess_pypdf], character
    by character: each puts one newline in front of every start of its
    section that does not already follow a newline, and changes nothing
    else. *)
Theorem section_repairs_by_character (text : str) :
  preprocess_pypdf text
  = insert_nl 52%N (utf8 "상담") None
      (insert_nl 51%N (utf8 "실전") None
         (insert_nl 50%N (utf8 "회화적") None
            (insert_nl 49%N (utf8 "키워드") None
               (re_sub re_lost_header newline_then_group text)))).
Proof.
  unfold preprocess_pypdf.
  rewrite lost_section_1, lost_section_2, lost_section_3, lost_section_4.
  rewrite !re_sub_lost by reflexivity. reflexivity.
Qed.
